(** * gl-3D: fractal landscape viewer ([window.c])

    A shallow embedding of [window.c] and the properties of its
    height-field accessor ([heightMapAltitude]), camera controller
    ([idle]), key handlers ([keydown], [keyup]), frame renderer ([draw])
    and shutdown routine ([quit]).  The second part follows the process
    from [main] through [init] and [resize] and around the main loop to
    its exit.

    The C code computes in two floating-point formats: [GLfloat]
    (IEEE-754 binary32) for everything it stores, and [double] (binary64)
    for every intermediate result.  The embedding writes each implicit
    conversion of the C expressions out and is generic in the arithmetic,
    which is then interpreted twice:

    - [ieee]: binary32/binary64 with round-to-nearest-even, on the
      Standard Library's [spec_float]; this is what the compiled program
      computes and it evaluates inside Rocq;
    - [exact]: real numbers, the rounding-free reading that the
      specification's formulas are written in.

    Where the two readings differ, the distance between them is bounded
    from the definition of rounding to nearest ([IEEE.value],
    [IEEE.within]). *)

From Stdlib Require Import ZArith List Bool Lia String.
From Stdlib Require Import Reals Lra.
From Stdlib Require Import Floats.SpecFloat.
Import ListNotations.

Local Open Scope Z_scope.

(* ================================================================= *)
(** ** Arithmetic of the C program *)

(** The operations [window.c] applies to its numbers.  [f32] is
    [GLfloat], [f64] is [double]. *)
Record arith : Type := {
  f32 : Type;
  f64 : Type;
  (** conversions *)
  f32_of_int : Z -> f32;           (* int used where a GLfloat is expected *)
  f64_of_int : Z -> f64;           (* int used where a double is expected, and
                                      the literals 0.0 1.0 2.0 5.0 1000.0 *)
  promote : f32 -> f64;            (* GLfloat operand of a double operation *)
  demote : f64 -> f32;             (* double stored in a GLfloat *)
  int_of_f32 : f32 -> Z;           (* the cast (int)x: truncation toward 0 *)
  (** double arithmetic *)
  add64 : f64 -> f64 -> f64;
  sub64 : f64 -> f64 -> f64;
  mul64 : f64 -> f64 -> f64;
  div64 : f64 -> f64 -> f64;
  neg64 : f64 -> f64;
  (** GLfloat arithmetic *)
  div32 : f32 -> f32 -> f32;
  (** comparisons *)
  le64 : f64 -> f64 -> bool;
  lt32 : f32 -> f32 -> bool;
  (** <math.h> *)
  sin64 : f64 -> f64;
  cos64 : f64 -> f64;
  M_PI : f64
}.

(* ----------------------------------------------------------------- *)
(** *** IEEE-754 interpretation *)

Module IEEE.

(** A binary32 value is also a binary64 value, so both C types are
    [spec_float]; every operation below depends on the value of its
    operands only, not on the exponent chosen to write it. *)

Definition prec32 : Z := 24.
Definition emax32 : Z := 128.
Definition prec64 : Z := 53.
Definition emax64 : Z := 1024.

(** Rounding of a value to binary32 (the conversion of a [double] to a
    [GLfloat]). *)
Definition round32 (x : spec_float) : spec_float :=
  match x with
  | S754_finite s m e => binary_round prec32 emax32 s m e
  | _ => x
  end.

Definition of_int32 (n : Z) : spec_float := binary_normalize prec32 emax32 n 0 false.
Definition of_int64 (n : Z) : spec_float := binary_normalize prec64 emax64 n 0 false.

(** The integer [m * 2^e] rounded toward zero is what [(int)x] yields
    for a finite [x]; the C program only casts values that it has
    checked to lie in [[0, w)]. *)
Definition trunc (x : spec_float) : Z :=
  match x with
  | S754_finite s m e => cond_Zopp s (Z.shiftl (Zpos m) e)
  | _ => 0
  end.

(** Comparison of the values of two floats.  Finite operands are
    aligned on their smaller exponent, as [SFadd] aligns them; the other
    cases are [SFcompare]'s. *)
Definition compare (x y : spec_float) : option comparison :=
  match x, y with
  | S754_finite sx mx ex, S754_finite sy my ey =>
      let ez := Z.min ex ey in
      Some (Z.compare (cond_Zopp sx (Zpos (fst (shl_align mx ex ez))))
                      (cond_Zopp sy (Zpos (fst (shl_align my ey ez)))))
  | _, _ => SFcompare x y
  end.

Definition ltb (x y : spec_float) : bool :=
  match compare x y with Some Lt => true | _ => false end.

Definition leb (x y : spec_float) : bool :=
  match compare x y with Some (Lt | Eq) => true | _ => false end.

Definition eqb (x y : spec_float) : bool :=
  match compare x y with Some Eq => true | _ => false end.

(** [M_PI] of <math.h>: the binary64 number nearest to pi,
    0x400921FB54442D18. *)
Definition pi64 : spec_float := S754_finite false 7074237752028440 (-51).

(** Neither an infinity nor a NaN. *)
Definition finite (x : spec_float) : bool :=
  match x with
  | S754_zero _ | S754_finite _ _ _ => true
  | _ => false
  end.

(** The real number that a finite float stands for. *)
Definition sign (s : bool) : R := if s then (-1)%R else 1%R.

Definition value (x : spec_float) : R :=
  match x with
  | S754_finite s m e => (IZR (cond_Zopp s (Zpos m)) * powerRZ 2 e)%R
  | _ => 0%R
  end.

(** [r] is as near to [v] as a rounding to nearest in the format
    [(prec, emax)] leaves it: the error is at most [2^-prec] times [v],
    or half the smallest subnormal number. *)
Definition within (prec emax : Z) (r v : R) : Prop :=
  (Rabs (r - v) <= powerRZ 2 (- prec) * Rabs v + powerRZ 2 (emin prec emax - 1))%R.

(** The record that [j] one-bit right shifts of the mantissa [m] leave
    in [binary_round_aux]: the quotient, the last bit shifted out, and
    whether a lower bit was set. *)
Definition shifted (m j : Z) : shr_record :=
  {| shr_m := m / 2 ^ j;
     shr_r := Z.odd (m / 2 ^ (j - 1));
     shr_s := negb (m mod 2 ^ (j - 1) =? 0) |}.

End IEEE.

(** The program as compiled for an IEEE-754 machine.  [sin] and [cos]
    are the C library's; the C standard leaves their accuracy open, so
    they are parameters. *)
Definition ieee (libm_sin libm_cos : spec_float -> spec_float) : arith := {|
  f32 := spec_float;
  f64 := spec_float;
  f32_of_int := IEEE.of_int32;
  f64_of_int := IEEE.of_int64;
  promote := fun x => x;
  demote := IEEE.round32;
  int_of_f32 := IEEE.trunc;
  add64 := SFadd IEEE.prec64 IEEE.emax64;
  sub64 := SFsub IEEE.prec64 IEEE.emax64;
  mul64 := SFmul IEEE.prec64 IEEE.emax64;
  div64 := SFdiv IEEE.prec64 IEEE.emax64;
  neg64 := SFopp;
  div32 := SFdiv IEEE.prec32 IEEE.emax32;
  le64 := IEEE.leb;
  lt32 := IEEE.ltb;
  sin64 := libm_sin;
  cos64 := libm_cos;
  M_PI := IEEE.pi64
|}.

(* ----------------------------------------------------------------- *)
(** *** Real-number interpretation *)

Module Exact.

Definition leb (a b : R) : bool := if Rle_dec a b then true else false.
Definition ltb (a b : R) : bool := if Rlt_dec a b then true else false.

(** Truncation toward zero. *)
Definition trunc (a : R) : Z :=
  if Rle_dec 0 a then Int_part a else (- Int_part (- a))%Z.

End Exact.

Definition exact : arith := {|
  f32 := R;
  f64 := R;
  f32_of_int := IZR;
  f64_of_int := IZR;
  promote := fun a => a;
  demote := fun a => a;
  int_of_f32 := Exact.trunc;
  add64 := Rplus;
  sub64 := Rminus;
  mul64 := Rmult;
  div64 := Rdiv;
  neg64 := Ropp;
  div32 := Rdiv;
  le64 := Exact.leb;
  lt32 := Exact.ltb;
  sin64 := sin;
  cos64 := cos;
  M_PI := PI
|}.

(* ================================================================= *)
(** ** Data of [window.c] *)

(** [enum kyes_t]: the indices of the virtual keyboard [_keys]. *)
Inductive kyes_t : Type := KLEFT | KRIGHT | KUP | KDOWN.

Definition key_index (k : kyes_t) : nat :=
  match k with KLEFT => 0 | KRIGHT => 1 | KUP => 2 | KDOWN => 3 end%nat.

(** Key codes handed to [keydown] and [keyup].  The letters are C
    character constants; the [SDLK_] values are those of SDL2's
    [SDL_keycode.h] (a header outside the repository: scancode with bit
    30 set).  The C [switch] needs them pairwise distinct, and nothing
    below uses more than that. *)
Definition SDLK_ESCAPE : Z := 27.
Definition SDLK_RIGHT : Z := 1073741903.
Definition SDLK_LEFT : Z := 1073741904.
Definition SDLK_DOWN : Z := 1073741905.
Definition SDLK_UP : Z := 1073741906.
Definition key_w : Z := 119.
Definition key_q : Z := 113.

(** The polygon rasterization modes of OpenGL, as [glGetIntegerv]
    reports them for [GL_POLYGON_MODE]. *)
Inductive polygon_mode_t : Type := GL_POINT | GL_LINE | GL_FILL.

Definition polygon_mode_eqb (a b : polygon_mode_t) : bool :=
  match a, b with
  | GL_POINT, GL_POINT | GL_LINE, GL_LINE | GL_FILL, GL_FILL => true
  | _, _ => false
  end.

Inductive face_t : Type := GL_FRONT_AND_BACK.
Inductive texture_target_t : Type := GL_TEXTURE_1D.
Inductive clear_mask_t : Type := GL_COLOR_BUFFER_BIT_or_GL_DEPTH_BUFFER_BIT.
Inductive clean_what_t : Type := GL4DU_ALL.

(** How a handler leaves the process. *)
Inductive run (S : Type) : Type :=
| Continue (s : S)             (* the handler returned *)
| Exit (code : Z) (s : S)      (* exit(code) was called; atexit handlers ran *)
| Crash.                       (* undefined behaviour: invalid read or free *)
Arguments Continue {S} s.
Arguments Exit {S} code s.
Arguments Crash {S}.

(** 32-bit two's complement wrap-around of [int] arithmetic. *)
Definition int32 (n : Z) : Z := (n + 2147483648) mod 4294967296 - 2147483648.

Section Program.
Context {A : arith}.

Abbreviation GLfloat := (f32 A).
Abbreviation double := (f64 A).
Notation "a +! b" := (add64 A a b) (at level 50, left associativity).
Notation "a -! b" := (sub64 A a b) (at level 50, left associativity).
Notation "a *! b" := (mul64 A a b) (at level 40, left associativity).
Notation "a /! b" := (div64 A a b) (at level 40, left associativity).
Notation "'(double)' a" := (promote A a) (at level 35, right associativity).
Notation "'(GLfloat)' a" := (demote A a) (at level 35, right associativity).
Abbreviation lit := (f64_of_int A).

(** [struct cam_t]. *)
Record cam_t : Type := {
  cam_x : GLfloat;
  cam_z : GLfloat;
  cam_theta : GLfloat
}.

(** The calls [window.c] issues to OpenGL, GL4Dummies, SDL, the noise
    module and the C library, with their arguments.  A uniform is named
    by the program and the string given to [glGetUniformLocation]. *)
Inductive call : Type :=
| SDL_PumpEvents
| SDL_GetMouseState
| glClear (mask : clear_mask_t)
| gl4duBindMatrix (name : string)
| gl4duLoadIdentityf
| gl4duLookAtf (eyeX eyeY eyeZ centerX centerY centerZ upX upY upZ : GLfloat)
| glUseProgram (pid : Z)
| gl4duGetMatrixData
| gl4duScalef (x y z : GLfloat)
| gl4duSendMatrices
| glUniform4fv (pid : Z) (name : string) (count : Z) (v : list GLfloat)
| glUniform1i (pid : Z) (name : string) (v : Z)
| glUniform1f (pid : Z) (name : string) (v : GLfloat)
| glBindTexture (target : texture_target_t) (tid : Z)
| useNoiseTextures (pid : Z) (shift : Z)
| unuseNoiseTextures (shift : Z)
| freeNoiseTextures
| gl4dgDraw (id : Z)
| gl4duRotatef (angle x y z : GLfloat)
| glGetIntegerv_GL_POLYGON_MODE
| glPolygonMode (face : face_t) (mode : polygon_mode_t)
| free (p : Z)
| glDeleteTextures (n : Z) (tid : Z)
| gl4duClean (what : clean_what_t).

(** The file-scope variables of [window.c], the [static t0] of
    [get_dt], and what the program shares with its environment: the
    allocated blocks, the GL polygon mode and texture names, and the
    calls issued so far (oldest first). *)
Record state : Type := {
  _windowWidth : Z;
  _windowHeight : Z;
  _landscape_w : Z;
  _landscape_h : Z;
  _landscape_scale_xz : GLfloat;
  _landscape_scale_y : GLfloat;
  _heightMap : Z;                        (* address of the samples; 0 is NULL *)
  _plan : Z;
  _landscape : Z;
  _landscape_pId : Z;
  _terrain_tId : Z;
  _cycle : GLfloat;
  _keys : list Z;
  _cam : cam_t;
  t0 : double;
  heap : list (Z * list GLfloat);        (* live blocks: base address, cells *)
  textures : list Z;                     (* live texture names *)
  polygon_mode : polygon_mode_t * polygon_mode_t;   (* front, back *)
  calls : list call
}.

Definition set_heightMap (v : Z) (s : state) : state :=
  {| _windowWidth := _windowWidth s; _windowHeight := _windowHeight s;
     _landscape_w := _landscape_w s; _landscape_h := _landscape_h s;
     _landscape_scale_xz := _landscape_scale_xz s;
     _landscape_scale_y := _landscape_scale_y s;
     _heightMap := v; _plan := _plan s; _landscape := _landscape s;
     _landscape_pId := _landscape_pId s; _terrain_tId := _terrain_tId s;
     _cycle := _cycle s; _keys := _keys s; _cam := _cam s; t0 := t0 s;
     heap := heap s; textures := textures s;
     polygon_mode := polygon_mode s; calls := calls s |}.

Definition set_terrain_tId (v : Z) (s : state) : state :=
  {| _windowWidth := _windowWidth s; _windowHeight := _windowHeight s;
     _landscape_w := _landscape_w s; _landscape_h := _landscape_h s;
     _landscape_scale_xz := _landscape_scale_xz s;
     _landscape_scale_y := _landscape_scale_y s;
     _heightMap := _heightMap s; _plan := _plan s; _landscape := _landscape s;
     _landscape_pId := _landscape_pId s; _terrain_tId := v;
     _cycle := _cycle s; _keys := _keys s; _cam := _cam s; t0 := t0 s;
     heap := heap s; textures := textures s;
     polygon_mode := polygon_mode s; calls := calls s |}.

Definition set_cycle (v : GLfloat) (s : state) : state :=
  {| _windowWidth := _windowWidth s; _windowHeight := _windowHeight s;
     _landscape_w := _landscape_w s; _landscape_h := _landscape_h s;
     _landscape_scale_xz := _landscape_scale_xz s;
     _landscape_scale_y := _landscape_scale_y s;
     _heightMap := _heightMap s; _plan := _plan s; _landscape := _landscape s;
     _landscape_pId := _landscape_pId s; _terrain_tId := _terrain_tId s;
     _cycle := v; _keys := _keys s; _cam := _cam s; t0 := t0 s;
     heap := heap s; textures := textures s;
     polygon_mode := polygon_mode s; calls := calls s |}.

Definition set_keys (v : list Z) (s : state) : state :=
  {| _windowWidth := _windowWidth s; _windowHeight := _windowHeight s;
     _landscape_w := _landscape_w s; _landscape_h := _landscape_h s;
     _landscape_scale_xz := _landscape_scale_xz s;
     _landscape_scale_y := _landscape_scale_y s;
     _heightMap := _heightMap s; _plan := _plan s; _landscape := _landscape s;
     _landscape_pId := _landscape_pId s; _terrain_tId := _terrain_tId s;
     _cycle := _cycle s; _keys := v; _cam := _cam s; t0 := t0 s;
     heap := heap s; textures := textures s;
     polygon_mode := polygon_mode s; calls := calls s |}.

Definition set_cam (v : cam_t) (s : state) : state :=
  {| _windowWidth := _windowWidth s; _windowHeight := _windowHeight s;
     _landscape_w := _landscape_w s; _landscape_h := _landscape_h s;
     _landscape_scale_xz := _landscape_scale_xz s;
     _landscape_scale_y := _landscape_scale_y s;
     _heightMap := _heightMap s; _plan := _plan s; _landscape := _landscape s;
     _landscape_pId := _landscape_pId s; _terrain_tId := _terrain_tId s;
     _cycle := _cycle s; _keys := _keys s; _cam := v; t0 := t0 s;
     heap := heap s; textures := textures s;
     polygon_mode := polygon_mode s; calls := calls s |}.

Definition set_t0 (v : double) (s : state) : state :=
  {| _windowWidth := _windowWidth s; _windowHeight := _windowHeight s;
     _landscape_w := _landscape_w s; _landscape_h := _landscape_h s;
     _landscape_scale_xz := _landscape_scale_xz s;
     _landscape_scale_y := _landscape_scale_y s;
     _heightMap := _heightMap s; _plan := _plan s; _landscape := _landscape s;
     _landscape_pId := _landscape_pId s; _terrain_tId := _terrain_tId s;
     _cycle := _cycle s; _keys := _keys s; _cam := _cam s; t0 := v;
     heap := heap s; textures := textures s;
     polygon_mode := polygon_mode s; calls := calls s |}.

Definition set_heap (v : list (Z * list GLfloat)) (s : state) : state :=
  {| _windowWidth := _windowWidth s; _windowHeight := _windowHeight s;
     _landscape_w := _landscape_w s; _landscape_h := _landscape_h s;
     _landscape_scale_xz := _landscape_scale_xz s;
     _landscape_scale_y := _landscape_scale_y s;
     _heightMap := _heightMap s; _plan := _plan s; _landscape := _landscape s;
     _landscape_pId := _landscape_pId s; _terrain_tId := _terrain_tId s;
     _cycle := _cycle s; _keys := _keys s; _cam := _cam s; t0 := t0 s;
     heap := v; textures := textures s;
     polygon_mode := polygon_mode s; calls := calls s |}.

Definition set_textures (v : list Z) (s : state) : state :=
  {| _windowWidth := _windowWidth s; _windowHeight := _windowHeight s;
     _landscape_w := _landscape_w s; _landscape_h := _landscape_h s;
     _landscape_scale_xz := _landscape_scale_xz s;
     _landscape_scale_y := _landscape_scale_y s;
     _heightMap := _heightMap s; _plan := _plan s; _landscape := _landscape s;
     _landscape_pId := _landscape_pId s; _terrain_tId := _terrain_tId s;
     _cycle := _cycle s; _keys := _keys s; _cam := _cam s; t0 := t0 s;
     heap := heap s; textures := v;
     polygon_mode := polygon_mode s; calls := calls s |}.

Definition set_polygon_mode (v : polygon_mode_t * polygon_mode_t) (s : state) : state :=
  {| _windowWidth := _windowWidth s; _windowHeight := _windowHeight s;
     _landscape_w := _landscape_w s; _landscape_h := _landscape_h s;
     _landscape_scale_xz := _landscape_scale_xz s;
     _landscape_scale_y := _landscape_scale_y s;
     _heightMap := _heightMap s; _plan := _plan s; _landscape := _landscape s;
     _landscape_pId := _landscape_pId s; _terrain_tId := _terrain_tId s;
     _cycle := _cycle s; _keys := _keys s; _cam := _cam s; t0 := t0 s;
     heap := heap s; textures := textures s;
     polygon_mode := v; calls := calls s |}.

Definition set_calls (v : list call) (s : state) : state :=
  {| _windowWidth := _windowWidth s; _windowHeight := _windowHeight s;
     _landscape_w := _landscape_w s; _landscape_h := _landscape_h s;
     _landscape_scale_xz := _landscape_scale_xz s;
     _landscape_scale_y := _landscape_scale_y s;
     _heightMap := _heightMap s; _plan := _plan s; _landscape := _landscape s;
     _landscape_pId := _landscape_pId s; _terrain_tId := _terrain_tId s;
     _cycle := _cycle s; _keys := _keys s; _cam := _cam s; t0 := t0 s;
     heap := heap s; textures := textures s;
     polygon_mode := polygon_mode s; calls := v |}.

(** Issue one call to the environment. *)
Definition emit (c : call) (s : state) : state := set_calls (calls s ++ [c]) s.

Fixpoint emit_all (cs : list call) (s : state) : state :=
  match cs with
  | [] => s
  | c :: cs' => emit_all cs' (emit c s)
  end.

(* ================================================================= *)
(** ** The functions of [window.c] *)

(** *** Memory *)

Fixpoint block_at (p : Z) (h : list (Z * list GLfloat)) : option (list GLfloat) :=
  match h with
  | [] => None
  | (q, cells) :: h' => if p =? q then Some cells else block_at p h'
  end.

Fixpoint unmap (p : Z) (h : list (Z * list GLfloat)) : list (Z * list GLfloat) :=
  match h with
  | [] => []
  | (q, cells) :: h' => if p =? q then h' else (q, cells) :: unmap p h'
  end.

(** The read [p[i]]: defined when [p] is the base of a live block and
    [i] indexes one of its cells. *)
Definition load (s : state) (p i : Z) : option GLfloat :=
  if p =? 0 then None
  else match block_at p (heap s) with
       | Some cells => if i <? 0 then None else nth_error cells (Z.to_nat i)
       | None => None
       end.

(** [free(p)]: nothing for [NULL], release of a live block, undefined
    behaviour for anything else (a block already freed included). *)
Definition do_free (p : Z) (s : state) : option state :=
  let s := emit (free p) s in
  if p =? 0 then Some s
  else match block_at p (heap s) with
       | Some _ => Some (set_heap (unmap p (heap s)) s)
       | None => None
       end.

(** [glDeleteTextures(1, &tid)]: OpenGL ignores names that are not
    textures. *)
Definition do_glDeleteTextures (tid : Z) (s : state) : state :=
  set_textures (List.filter (fun t => negb (t =? tid)) (textures s))
               (emit (glDeleteTextures 1 tid) s).

(** [glPolygonMode(GL_FRONT_AND_BACK, mode)]. *)
Definition do_glPolygonMode (mode : polygon_mode_t) (s : state) : state :=
  set_polygon_mode (mode, mode) (emit (glPolygonMode GL_FRONT_AND_BACK mode) s).

(** *** The virtual keyboard *)

Fixpoint array_set (i : nat) (v : Z) (a : list Z) : list Z :=
  match a, i with
  | [], _ => []
  | _ :: a', O => v :: a'
  | w :: a', S i' => w :: array_set i' v a'
  end.

(** [_keys[k]] read as a condition. *)
Definition key (s : state) (k : kyes_t) : bool :=
  negb (nth (key_index k) (_keys s) 0 =? 0).

(** [_keys[k] = v]. *)
Definition set_key (k : kyes_t) (v : Z) (s : state) : state :=
  set_keys (array_set (key_index k) v (_keys s)) s.

(** *** [heightMapAltitude] *)

(** The first two statements: world coordinates to grid coordinates,
    stored back into the [GLfloat] parameters. *)
Definition grid_x (s : state) (x : GLfloat) : GLfloat :=
  (GLfloat) (lit (Z.shiftr (_landscape_w s) 1)
             +! (double) (div32 A x (_landscape_scale_xz s))
                *! (lit (_landscape_w s) /! lit 2)).

Definition grid_z (s : state) (z : GLfloat) : GLfloat :=
  (GLfloat) (lit (Z.shiftr (_landscape_h s) 1)
             -! (double) (div32 A z (_landscape_scale_xz s))
                *! (lit (_landscape_h s) /! lit 2)).

(** The condition
    [x >= 0.0 && x < _landscape_w && z >= 0.0 && z < _landscape_h]. *)
Definition in_grid (s : state) (x z : GLfloat) : bool :=
  le64 A (lit 0) ((double) x) && lt32 A x (f32_of_int A (_landscape_w s))
  && le64 A (lit 0) ((double) z) && lt32 A z (f32_of_int A (_landscape_h s)).

(** The index [((int)x) + ((int)z) * _landscape_w]. *)
Definition sample_index (s : state) (x z : GLfloat) : Z :=
  int32 (int_of_f32 A x + int32 (int_of_f32 A z * _landscape_w s)).

(** [(2.0 * v - 1) * _landscape_scale_y], returned as a [GLfloat]. *)
Definition remap (s : state) (v : GLfloat) : GLfloat :=
  (GLfloat) ((lit 2 *! (double) v -! lit 1) *! (double) (_landscape_scale_y s)).

(** [None] stands for the undefined behaviour of a read outside the
    height map. *)
Definition heightMapAltitude (s : state) (x z : GLfloat) : option GLfloat :=
  let x := grid_x s x in
  let z := grid_z s z in
  if in_grid s x z then
    match load s (_heightMap s) (sample_index s x z) with
    | Some v => Some (remap s v)
    | None => None
    end
  else Some (f32_of_int A 0).

(** *** [get_dt] and [idle] *)

(** [t] is the reading of [gl4dGetElapsedTime()], in milliseconds. *)
Definition get_dt (t : double) (s : state) : double * state :=
  (((t -! t0 s) /! lit 1000), set_t0 t s).

Definition set_cam_theta (v : GLfloat) (s : state) : state :=
  set_cam {| cam_x := cam_x (_cam s); cam_z := cam_z (_cam s); cam_theta := v |} s.

Definition set_cam_x (v : GLfloat) (s : state) : state :=
  set_cam {| cam_x := v; cam_z := cam_z (_cam s); cam_theta := cam_theta (_cam s) |} s.

Definition set_cam_z (v : GLfloat) (s : state) : state :=
  set_cam {| cam_x := cam_x (_cam s); cam_z := v; cam_theta := cam_theta (_cam s) |} s.

(** The four conditional updates of [idle], in source order. *)
Definition turn_left (dt : double) (s : state) : state :=
  set_cam_theta ((GLfloat) ((double) (cam_theta (_cam s)) +! dt *! M_PI A)) s.

Definition turn_right (dt : double) (s : state) : state :=
  set_cam_theta ((GLfloat) ((double) (cam_theta (_cam s)) -! dt *! M_PI A)) s.

Definition move_forward (dt : double) (s : state) : state :=
  let s := set_cam_x ((GLfloat) ((double) (cam_x (_cam s))
             +! neg64 A dt *! lit 5 *! sin64 A ((double) (cam_theta (_cam s))))) s in
  set_cam_z ((GLfloat) ((double) (cam_z (_cam s))
             +! neg64 A dt *! lit 5 *! cos64 A ((double) (cam_theta (_cam s))))) s.

Definition move_backward (dt : double) (s : state) : state :=
  let s := set_cam_x ((GLfloat) ((double) (cam_x (_cam s))
             +! dt *! lit 5 *! sin64 A ((double) (cam_theta (_cam s))))) s in
  set_cam_z ((GLfloat) ((double) (cam_z (_cam s))
             +! dt *! lit 5 *! cos64 A ((double) (cam_theta (_cam s))))) s.

(** The body of [idle] once [dt] is known. *)
Definition idle_dt (dt : double) (s : state) : state :=
  let s := set_cycle ((GLfloat) ((double) (_cycle s) +! dt)) s in
  let s := if key s KLEFT then turn_left dt s else s in
  let s := if key s KRIGHT then turn_right dt s else s in
  let s := if key s KUP then move_forward dt s else s in
  let s := if key s KDOWN then move_backward dt s else s in
  s.

Definition idle (t : double) (s : state) : state :=
  let (dt, s) := get_dt t s in idle_dt dt s.

(** *** [quit] *)

Definition quit (s : state) : option state :=
  let s := emit freeNoiseTextures s in
  match (if _heightMap s =? 0 then Some s
         else match do_free (_heightMap s) s with
              | Some s => Some (set_heightMap 0 s)
              | None => None
              end) with
  | None => None
  | Some s =>
      let s := if _terrain_tId s =? 0 then s
               else set_terrain_tId 0 (do_glDeleteTextures (_terrain_tId s) s) in
      Some (emit (gl4duClean GL4DU_ALL) s)
  end.

(** *** [keydown] and [keyup] *)

(** [exit(0)]: the handler registered with [atexit] is [quit]. *)
Definition do_exit (code : Z) (s : state) : run state :=
  match quit s with
  | Some s => Exit code s
  | None => Crash
  end.

Definition keydown (keycode : Z) (s : state) : run state :=
  if keycode =? SDLK_LEFT then Continue (set_key KLEFT 1 s)
  else if keycode =? SDLK_RIGHT then Continue (set_key KRIGHT 1 s)
  else if keycode =? SDLK_UP then Continue (set_key KUP 1 s)
  else if keycode =? SDLK_DOWN then Continue (set_key KDOWN 1 s)
  else if keycode =? key_w then
    let s := emit glGetIntegerv_GL_POLYGON_MODE s in
    let v0 := fst (polygon_mode s) in
    if polygon_mode_eqb v0 GL_FILL
    then Continue (do_glPolygonMode GL_LINE s)
    else Continue (do_glPolygonMode GL_FILL s)
  else if (keycode =? SDLK_ESCAPE) || (keycode =? key_q) then do_exit 0 s
  else Continue s.

Definition keyup (keycode : Z) (s : state) : state :=
  if keycode =? SDLK_LEFT then set_key KLEFT 0 s
  else if keycode =? SDLK_RIGHT then set_key KRIGHT 0 s
  else if keycode =? SDLK_UP then set_key KUP 0 s
  else if keycode =? SDLK_DOWN then set_key KDOWN 0 s
  else s.

(** *** [draw] *)

Section Draw.
(** [MMAT4XVEC4] is a macro of GL4Dummies (matrix times vector); its
    text is outside the repository. *)
Variable MMAT4XVEC4 : list GLfloat -> list GLfloat -> list GLfloat.

(** [ym] is the pointer ordinate read by [SDL_GetMouseState], [mat] the
    sixteen numbers behind the pointer [gl4duGetMatrixData()] returns. *)
Definition draw (ym : Z) (mat : list GLfloat) (s : state) : option state :=
  let s := emit_all [SDL_PumpEvents; SDL_GetMouseState] s in
  let temp := [f32_of_int A 100; f32_of_int A 100; f32_of_int A 0;
               (GLfloat) (lit 1)] in
  match heightMapAltitude s (cam_x (_cam s)) (cam_z (_cam s)) with
  | None => None
  | Some landscape_y =>
      let c := _cam s in
      let s := emit_all
        [glClear GL_COLOR_BUFFER_BIT_or_GL_DEPTH_BUFFER_BIT;
         gl4duBindMatrix "modelViewMatrix";
         gl4duLoadIdentityf;
         gl4duLookAtf
           (cam_x c)
           ((GLfloat) ((double) landscape_y +! lit 2))
           (cam_z c)
           ((GLfloat) ((double) (cam_x c) -! sin64 A ((double) (cam_theta c))))
           ((GLfloat) ((double) landscape_y +! lit 2
                       -! (double) (div32 A
                            (f32_of_int A (int32 (ym - Z.shiftr (_windowHeight s) 1)))
                            (f32_of_int A (_windowHeight s)))))
           ((GLfloat) ((double) (cam_z c) -! cos64 A ((double) (cam_theta c))))
           ((GLfloat) (lit 0)) ((GLfloat) (lit 1)) ((GLfloat) (lit 0));
         glUseProgram (_landscape_pId s);
         gl4duGetMatrixData] s in
      let lumpos := MMAT4XVEC4 mat temp in
      Some (emit_all
        [gl4duScalef (_landscape_scale_xz s) (_landscape_scale_y s)
                     (_landscape_scale_xz s);
         gl4duSendMatrices;
         glUniform4fv (_landscape_pId s) "lumpos" 1 lumpos;
         glUniform1i (_landscape_pId s) "degrade" 0;
         glUniform1i (_landscape_pId s) "eau" 0;
         glUniform1f (_landscape_pId s) "cycle" (_cycle s);
         glBindTexture GL_TEXTURE_1D (_terrain_tId s);
         useNoiseTextures (_landscape_pId s) 1;
         gl4dgDraw (_landscape s);
         gl4duRotatef (f32_of_int A (-90)) (f32_of_int A 1) (f32_of_int A 0)
                      (f32_of_int A 0);
         gl4duSendMatrices;
         glUniform1i (_landscape_pId s) "eau" 1;
         gl4dgDraw (_plan s);
         unuseNoiseTextures 1] s)
  end.

End Draw.

End Program.

Arguments state A : clear implicits.
Arguments cam_t A : clear implicits.
Arguments call A : clear implicits.

(* ================================================================= *)
(** ** Derived notions used by the statements *)

(** What the index computation of [heightMapAltitude] needs from the
    arithmetic: a number that passed the tests [0.0 <= x] and [x < n] is
    cast to an [int] in [[0, n)].  [n] is below 2^24, where an [int] is
    converted to a [GLfloat] without rounding. *)
Record arith_ok (A : arith) : Prop := {
  trunc_range :
    forall (x : f32 A) (n : Z),
      0 < n < 16777216 ->
      le64 A (f64_of_int A 0) (promote A x) = true ->
      lt32 A x (f32_of_int A n) = true ->
      0 <= int_of_f32 A x < n
}.

(** The height map the program was started with is in place:
    [_heightMap] is the base of a live block of
    [_landscape_w * _landscape_h] samples, and the index arithmetic
    stays within [int]. *)
Record heightMap_ready {A : arith} (s : state A) (cells : list (f32 A)) : Prop := {
  ready_w : 0 < _landscape_w s < 16777216;
  ready_h : 0 < _landscape_h s < 16777216;
  ready_int : _landscape_w s * _landscape_h s <= 2147483647;
  ready_ptr : _heightMap s <> 0;
  ready_block : block_at (_heightMap s) (heap s) = Some cells;
  ready_size : Z.of_nat (List.length cells) = _landscape_w s * _landscape_h s
}.

(** Successive ticks of the simulation, one elapsed time each. *)
Fixpoint ticks {A : arith} (dts : list (f64 A)) (s : state A) : state A :=
  match dts with
  | [] => s
  | dt :: dts' => ticks dts' (idle_dt dt s)
  end.

(** The time the ticks add up to. *)
Definition total {A : arith} (dts : list (f64 A)) : f64 A :=
  fold_right (add64 A) (f64_of_int A 0) dts.

(** The time the ticks add up to when nothing is rounded: the sum of
    the values of the elapsed times. *)
Definition duration (dts : list spec_float) : R :=
  fold_right (fun dt acc => (IEEE.value dt + acc)%R) 0%R dts.

(** The states that successive ticks go through, the first and the last
    included. *)
Fixpoint visited {A : arith} (dts : list (f64 A)) (s : state A) : list (state A) :=
  match dts with
  | [] => [s]
  | dt :: dts' => s :: visited dts' (idle_dt dt s)
  end.

(** The camera is within [M] of the origin along both axes. *)
Definition inside {sn cs : spec_float -> spec_float} (M : R) (s : state (ieee sn cs)) : Prop :=
  (Rabs (IEEE.value (cam_x (_cam s))) <= M)%R /\ (Rabs (IEEE.value (cam_z (_cam s))) <= M)%R.

(** The yaw is within [M] of 0. *)
Definition yaw_within {sn cs : spec_float -> spec_float} (M : R)
    (s : state (ieee sn cs)) : Prop :=
  (Rabs (IEEE.value (cam_theta (_cam s))) <= M)%R.

(** Forward motion subtracts the displacement [dt * 5.0 * sin theta],
    backward motion adds it. *)
Definition heading (fw : bool) : R := if fw then (-1)%R else 1%R.

(** The key code of each arrow key. *)
Definition arrow (k : kyes_t) : Z :=
  match k with
  | KLEFT => SDLK_LEFT
  | KRIGHT => SDLK_RIGHT
  | KUP => SDLK_UP
  | KDOWN => SDLK_DOWN
  end.


(** *** The main loop

    [gl4duwMainLoop] calls the functions registered in [main], one per
    event, until the process ends. *)
Inductive input (A : arith) : Type :=
| KeyDown (keycode : Z)
| KeyUp (keycode : Z)
| Idle (t : f64 A)
| Display (ym : Z) (mat : list (f32 A)).
Arguments KeyDown {A} keycode.
Arguments KeyUp {A} keycode.
Arguments Idle {A} t.
Arguments Display {A} ym mat.

Definition dispatch {A : arith} (MMAT4XVEC4 : list (f32 A) -> list (f32 A) -> list (f32 A))
    (i : input A) (s : state A) : run (state A) :=
  match i with
  | KeyDown keycode => keydown keycode s
  | KeyUp keycode => Continue (keyup keycode s)
  | Idle t => Continue (idle t s)
  | Display ym mat =>
      match draw MMAT4XVEC4 ym mat s with
      | Some s' => Continue s'
      | None => Crash
      end
  end.

Fixpoint main_loop {A : arith} (MMAT4XVEC4 : list (f32 A) -> list (f32 A) -> list (f32 A))
    (inputs : list (input A)) (s : state A) : run (state A) :=
  match inputs with
  | [] => Continue s
  | i :: inputs' =>
      match dispatch MMAT4XVEC4 i s with
      | Continue s' => main_loop MMAT4XVEC4 inputs' s'
      | r => r
      end
  end.

(** The state a run ends in, if it did not crash. *)
Definition final_state {S : Type} (r : run S) : option S :=
  match r with
  | Continue s | Exit _ s => Some s
  | Crash => None
  end.

(** The polygon modes this program selects: both faces filled, or both
    faces outlined. *)
Definition toggled (m : polygon_mode_t * polygon_mode_t) : Prop :=
  m = (GL_FILL, GL_FILL) \/ m = (GL_LINE, GL_LINE).

(** *** Reading a frame's calls

    The GL state that the statements about [draw] speak of, replayed from
    the calls: the value last given to the uniform ["eau"] (the surface
    selector), the texture bound to [GL_TEXTURE_1D], whether the noise
    textures are in use, and the rotations applied to the current
    matrix since it was last reset. *)
Record gl_view (A : arith) : Type := {
  selector : option Z;
  texture_1d : option Z;
  noise_in_use : bool;
  rotations : list (f32 A * f32 A * f32 A * f32 A)
}.
Arguments selector {A} g.
Arguments texture_1d {A} g.
Arguments noise_in_use {A} g.
Arguments rotations {A} g.

Definition gl_view_init (A : arith) : gl_view A :=
  {| selector := None; texture_1d := None; noise_in_use := false; rotations := [] |}.

Definition gl_view_step {A : arith} (g : gl_view A) (c : call A) : gl_view A :=
  match c with
  | glUniform1i _ name v =>
      if String.eqb name "eau"
      then {| selector := Some v; texture_1d := texture_1d g;
              noise_in_use := noise_in_use g; rotations := rotations g |}
      else g
  | glBindTexture GL_TEXTURE_1D tid =>
      {| selector := selector g; texture_1d := Some tid;
         noise_in_use := noise_in_use g; rotations := rotations g |}
  | useNoiseTextures _ _ =>
      {| selector := selector g; texture_1d := texture_1d g;
         noise_in_use := true; rotations := rotations g |}
  | unuseNoiseTextures _ =>
      {| selector := selector g; texture_1d := texture_1d g;
         noise_in_use := false; rotations := rotations g |}
  | gl4duLoadIdentityf =>
      {| selector := selector g; texture_1d := texture_1d g;
         noise_in_use := noise_in_use g; rotations := [] |}
  | gl4duRotatef a x y z =>
      {| selector := selector g; texture_1d := texture_1d g;
         noise_in_use := noise_in_use g; rotations := rotations g ++ [(a, x, y, z)] |}
  | _ => g
  end.

(** The draw submissions of a list of calls, each with the GL state it
    was issued in, and the GL state after the last call. *)
Fixpoint submissions {A : arith} (g : gl_view A) (cs : list (call A))
  : list (Z * gl_view A) * gl_view A :=
  match cs with
  | [] => ([], g)
  | gl4dgDraw id :: cs' =>
      let (subs, g') := submissions g cs' in ((id, g) :: subs, g')
  | c :: cs' => submissions (gl_view_step g c) cs'
  end.

(** *** The grid mapping as the specification words it

    The specification writes both the offset and the factor of the grid
    mapping as W/2. *)
Definition claimed_grid_x {A : arith} (s : state A) (x : f32 A) : f32 A :=
  demote A (add64 A (div64 A (f64_of_int A (_landscape_w s)) (f64_of_int A 2))
                    (mul64 A (promote A (div32 A x (_landscape_scale_xz s)))
                             (div64 A (f64_of_int A (_landscape_w s)) (f64_of_int A 2)))).

Definition claimed_grid_z {A : arith} (s : state A) (z : f32 A) : f32 A :=
  demote A (sub64 A (div64 A (f64_of_int A (_landscape_h s)) (f64_of_int A 2))
                    (mul64 A (promote A (div32 A z (_landscape_scale_xz s)))
                             (div64 A (f64_of_int A (_landscape_h s)) (f64_of_int A 2)))).

(* ================================================================= *)
(** ** Concrete instances *)

Module Sample.

(** A stand-in for the C library on the IEEE side: truncated Taylor
    series evaluated in binary64.  Like every C library it maps +0 to
    +0 (sin) and to 1 (cos). *)
Definition d (n : Z) : spec_float := IEEE.of_int64 n.
Definition dadd := SFadd IEEE.prec64 IEEE.emax64.
Definition dmul := SFmul IEEE.prec64 IEEE.emax64.
Definition ddiv := SFdiv IEEE.prec64 IEEE.emax64.

Definition sin_taylor (x : spec_float) : spec_float :=
  let x2 := dmul x x in
  dmul x (dadd (d 1) (dmul x2 (dadd (ddiv (d (-1)) (d 6))
         (dmul x2 (dadd (ddiv (d 1) (d 120))
         (dmul x2 (dadd (ddiv (d (-1)) (d 5040))
         (dmul x2 (ddiv (d 1) (d 362880)))))))))).

Definition cos_taylor (x : spec_float) : spec_float :=
  let x2 := dmul x x in
  dadd (d 1) (dmul x2 (dadd (ddiv (d (-1)) (d 2))
         (dmul x2 (dadd (ddiv (d 1) (d 24))
         (dmul x2 (dadd (ddiv (d (-1)) (d 720))
         (dmul x2 (ddiv (d 1) (d 40320))))))))).

Definition c99 : arith := ieee sin_taylor cos_taylor.

(** The variables of [window.c] as initialised by their declarations,
    in a process whose polygon mode is OpenGL's default. *)
Definition initial (A : arith) : state A :=
  {| _windowWidth := 800; _windowHeight := 600;
     _landscape_w := 513; _landscape_h := 513;
     _landscape_scale_xz := f32_of_int A 100;
     _landscape_scale_y := f32_of_int A 10;
     _heightMap := 0; _plan := 0; _landscape := 0;
     _landscape_pId := 0; _terrain_tId := 0;
     _cycle := demote A (f64_of_int A 0);
     _keys := [0; 0; 0; 0];
     _cam := {| cam_x := f32_of_int A 0; cam_z := f32_of_int A 0;
                cam_theta := f32_of_int A 0 |};
     t0 := f64_of_int A 0;
     heap := []; textures := [];
     polygon_mode := (GL_FILL, GL_FILL);
     calls := [] |}.

(** A 5 x 5 height field with horizontal scale 10 and vertical scale 2,
    its samples [cells] stored at address 4096, with program, geometry
    and texture created. *)
Definition field (A : arith) (cells : list (f32 A)) (keys : list Z) : state A :=
  {| _windowWidth := 800; _windowHeight := 600;
     _landscape_w := 5; _landscape_h := 5;
     _landscape_scale_xz := f32_of_int A 10;
     _landscape_scale_y := f32_of_int A 2;
     _heightMap := 4096; _plan := 1; _landscape := 2;
     _landscape_pId := 3; _terrain_tId := 7;
     _cycle := demote A (f64_of_int A 0);
     _keys := keys;
     _cam := {| cam_x := f32_of_int A 0; cam_z := f32_of_int A 0;
                cam_theta := f32_of_int A 0 |};
     t0 := f64_of_int A 0;
     heap := [(4096, cells)]; textures := [7];
     polygon_mode := (GL_FILL, GL_FILL);
     calls := [] |}.

(** All samples equal to [v]. *)
Definition field5 (A : arith) (v : f32 A) (keys : list Z) : state A :=
  field A (repeat v 25) keys.

(** The sample 0.5, and the field whose samples are all 0.5 but the
    central one, which is 1. *)
Definition half (A : arith) : f32 A :=
  demote A (div64 A (f64_of_int A 1) (f64_of_int A 2)).

Definition peak5 (A : arith) : state A :=
  field A (repeat (half A) 12 ++ [f32_of_int A 1] ++ repeat (half A) 12)
        [0; 0; 0; 0].

End Sample.

(* ================================================================= *)
(** ** Start-up, resizing and the process

    [main], [init] and [resize], and the event loop that calls the
    functions above.  What the outside returns during start-up is an
    [environment]; the calls of the whole process, in the order they are
    issued, are its [trace]. *)

(** The OpenGL constants that [init] passes. *)
Inductive GLenum_t : Type :=
| GL_DEPTH_TEST | GL_CULL_FACE | GL_BLEND | GL_BACK
| GL_SRC_ALPHA | GL_ONE_MINUS_SRC_ALPHA | GL_FLOAT
| GL_TEXTURE_MIN_FILTER | GL_TEXTURE_MAG_FILTER | GL_TEXTURE_WRAP_S
| GL_NEAREST | GL_CLAMP_TO_EDGE
| GL_RGB | GL_RGBA | GL_BGR | GL_BGRA | GL_UNSIGNED_BYTE.

Inductive window_pos_t : Type := SDL_WINDOWPOS_UNDEFINED.
Inductive window_flags_t : Type := SDL_WINDOW_RESIZABLE_or_SDL_WINDOW_SHOWN.

(** The functions of [window.c] that [main] hands to the library. *)
Inductive function_t : Type := Fquit | Fresize | Fkeyup | Fkeydown | Fdraw | Fidle.

(** What [init] reads of the [SDL_Surface] that [IMG_Load] returns:
    [t->w], [t->format->BytesPerPixel] and [t->pixels]. *)
Record SDL_Surface : Type := {
  surface_w : Z;
  surface_BytesPerPixel : Z;
  surface_pixels : Z
}.

(** How a function of the process ends. *)
Inductive status (S : Type) : Type :=
| Alive (s : S)                (* it returned *)
| Ended (code : Z) (s : S)     (* [main] returned [code] or [exit(code)] was
                                  called; the handlers registered with
                                  [atexit] by then have run *)
| Aborted (s : S)              (* [assert] failed: [abort()], no handler runs *)
| Undefined.                   (* undefined behaviour *)
Arguments Alive {S} s.
Arguments Ended {S} code s.
Arguments Aborted {S} s.
Arguments Undefined {S}.

Section Process.
Context {A : arith}.

(** The calls of [main], [init] and [resize] that the functions above
    do not issue. *)
Inductive host_call : Type :=
| gl4duwCreateWindow (title : string) (x y : window_pos_t) (width height : Z)
                     (flags : window_flags_t)
| time_NULL
| srand (seed : Z)
| glClearColor (r g b a : f32 A)
| glEnable (cap : GLenum_t)
| glCullFace (mode : GLenum_t)
| glBlendFunc (sfactor dfactor : GLenum_t)
| gl4duCreateProgram (vs fs : string)
| gl4duGenMatrix (type : GLenum_t) (name : string)
| glViewport (x y width height : Z)
| gl4duFrustumf (l r b t n f : f32 A)
| gl4dgGenQuadf
| gl4dmTriangleEdge (width height : Z) (H : f64 A)
| gl4dgGenGrid2dFromHeightMapf (width height : Z) (heightmap : Z)
| glGenTextures (n : Z)
| glTexParameteri (target : texture_target_t) (pname param : GLenum_t)
| IMG_Load (file : string)
| glTexImage1D (target : texture_target_t) (level : Z) (internalformat : GLenum_t)
               (width border : Z) (format type : GLenum_t) (data : Z)
| SDL_FreeSurface (t : SDL_Surface)
| initNoiseTextures
| atexit (f : function_t)
| gl4duwResizeFunc (f : function_t)
| gl4duwKeyUpFunc (f : function_t)
| gl4duwKeyDownFunc (f : function_t)
| gl4duwDisplayFunc (f : function_t)
| gl4duwIdleFunc (f : function_t)
| gl4duwMainLoop.

(** One entry of the trace. *)
Inductive op : Type :=
| Call (c : call A)
| Host (c : host_call).

(** The process: the variables of [window.c] with the memory and GL
    state they refer to, and the calls issued since [main] was entered,
    oldest first.  [calls (vars p)] is empty between two functions: the
    calls of each function are moved to the trace when it ends. *)
Record process : Type := {
  vars : state A;
  trace : list op
}.

(** What the outside answers during start-up, and how the program was
    built. *)
Record environment : Type := {
  NDEBUG : bool;                       (* built with [-DNDEBUG] *)
  __APPLE__ : bool;                    (* built on macOS *)
  window_created : Z;                  (* result of [gl4duwCreateWindow] *)
  time_now : Z;                        (* result of [time(NULL)] *)
  program_id : Z;                      (* result of [gl4duCreateProgram] *)
  quad_id : Z;                         (* result of [gl4dgGenQuadf] *)
  heightmap_ptr : Z;                   (* result of [gl4dmTriangleEdge] ... *)
  heightmap_cells : list (f32 A);      (* ... and the samples it points to *)
  grid_id : Z;                         (* result of [gl4dgGenGrid2dFromHeightMapf] *)
  texture_name : Z;                    (* name stored by [glGenTextures] *)
  image : option SDL_Surface           (* result of [IMG_Load]; [None] is NULL *)
}.

(** An event of the main loop: one of the inputs above, or a change of
    the size of the window. *)
Inductive event : Type :=
| Input (i : input A)
| Resize (w h : Z).

Definition set_windowWidth (v : Z) (s : state A) : state A :=
  {| _windowWidth := v; _windowHeight := _windowHeight s;
     _landscape_w := _landscape_w s; _landscape_h := _landscape_h s;
     _landscape_scale_xz := _landscape_scale_xz s;
     _landscape_scale_y := _landscape_scale_y s;
     _heightMap := _heightMap s; _plan := _plan s; _landscape := _landscape s;
     _landscape_pId := _landscape_pId s; _terrain_tId := _terrain_tId s;
     _cycle := _cycle s; _keys := _keys s; _cam := _cam s; t0 := t0 s;
     heap := heap s; textures := textures s;
     polygon_mode := polygon_mode s; calls := calls s |}.

Definition set_windowHeight (v : Z) (s : state A) : state A :=
  {| _windowWidth := _windowWidth s; _windowHeight := v;
     _landscape_w := _landscape_w s; _landscape_h := _landscape_h s;
     _landscape_scale_xz := _landscape_scale_xz s;
     _landscape_scale_y := _landscape_scale_y s;
     _heightMap := _heightMap s; _plan := _plan s; _landscape := _landscape s;
     _landscape_pId := _landscape_pId s; _terrain_tId := _terrain_tId s;
     _cycle := _cycle s; _keys := _keys s; _cam := _cam s; t0 := t0 s;
     heap := heap s; textures := textures s;
     polygon_mode := polygon_mode s; calls := calls s |}.

Definition set_plan (v : Z) (s : state A) : state A :=
  {| _windowWidth := _windowWidth s; _windowHeight := _windowHeight s;
     _landscape_w := _landscape_w s; _landscape_h := _landscape_h s;
     _landscape_scale_xz := _landscape_scale_xz s;
     _landscape_scale_y := _landscape_scale_y s;
     _heightMap := _heightMap s; _plan := v; _landscape := _landscape s;
     _landscape_pId := _landscape_pId s; _terrain_tId := _terrain_tId s;
     _cycle := _cycle s; _keys := _keys s; _cam := _cam s; t0 := t0 s;
     heap := heap s; textures := textures s;
     polygon_mode := polygon_mode s; calls := calls s |}.

Definition set_landscape (v : Z) (s : state A) : state A :=
  {| _windowWidth := _windowWidth s; _windowHeight := _windowHeight s;
     _landscape_w := _landscape_w s; _landscape_h := _landscape_h s;
     _landscape_scale_xz := _landscape_scale_xz s;
     _landscape_scale_y := _landscape_scale_y s;
     _heightMap := _heightMap s; _plan := _plan s; _landscape := v;
     _landscape_pId := _landscape_pId s; _terrain_tId := _terrain_tId s;
     _cycle := _cycle s; _keys := _keys s; _cam := _cam s; t0 := t0 s;
     heap := heap s; textures := textures s;
     polygon_mode := polygon_mode s; calls := calls s |}.

Definition set_landscape_pId (v : Z) (s : state A) : state A :=
  {| _windowWidth := _windowWidth s; _windowHeight := _windowHeight s;
     _landscape_w := _landscape_w s; _landscape_h := _landscape_h s;
     _landscape_scale_xz := _landscape_scale_xz s;
     _landscape_scale_y := _landscape_scale_y s;
     _heightMap := _heightMap s; _plan := _plan s; _landscape := _landscape s;
     _landscape_pId := v; _terrain_tId := _terrain_tId s;
     _cycle := _cycle s; _keys := _keys s; _cam := _cam s; t0 := t0 s;
     heap := heap s; textures := textures s;
     polygon_mode := polygon_mode s; calls := calls s |}.

(** One call of the process, and one assignment to its variables. *)
Definition issue (c : host_call) (p : process) : process :=
  {| vars := vars p; trace := trace p ++ [Host c] |}.

Definition issue_call (c : call A) (p : process) : process :=
  {| vars := vars p; trace := trace p ++ [Call c] |}.

Definition assign (f : state A -> state A) (p : process) : process :=
  {| vars := f (vars p); trace := trace p |}.

(** The literal [0.5], and the literals [0.0f], [0.4f] and [0.9f]:
    [decimal32 n] is n tenths as a [GLfloat]. *)
Definition half64 : f64 A := div64 A (f64_of_int A 1) (f64_of_int A 2).

Definition decimal32 (n : Z) : f32 A :=
  demote A (div64 A (f64_of_int A n) (f64_of_int A 10)).

(** *** [resize] *)

(** The arguments [_windowWidth = w] and [_windowHeight = h] of
    [glViewport] are assignments. *)
Definition resize (w h : Z) (p : process) : process :=
  let p := assign (set_windowWidth w) p in
  let p := assign (set_windowHeight h) p in
  let p := issue (glViewport 0 0 w h) p in
  let p := issue_call (gl4duBindMatrix "projectionMatrix") p in
  let p := issue_call gl4duLoadIdentityf p in
  let height := f64_of_int A (_windowHeight (vars p)) in
  let width := f64_of_int A (_windowWidth (vars p)) in
  issue (gl4duFrustumf
           (demote A (neg64 A half64))
           (demote A half64)
           (demote A (div64 A (mul64 A (neg64 A half64) height) width))
           (demote A (div64 A (mul64 A half64 height) width))
           (demote A (f64_of_int A 1))
           (demote A (f64_of_int A 1000))) p.

(** *** [init] *)

(** The block that [gl4dmTriangleEdge] returns is a new live block;
    [NULL] is none. *)
Definition allocated (ptr : Z) (cells : list (f32 A)) (s : state A) : state A :=
  if ptr =? 0 then s else set_heap ((ptr, cells) :: heap s) s.

(** The name that [glGenTextures] stores is in use from then on; 0 is
    no name. *)
Definition generated (name : Z) (s : state A) : state A :=
  if name =? 0 then s else set_textures (name :: textures s) s.

Definition init (e : environment) (p : process) : status process :=
  let p := issue time_NULL p in
  let p := issue (srand (time_now e)) p in
  let p := issue (glClearColor (decimal32 0) (decimal32 4) (decimal32 9) (decimal32 0)) p in
  let p := issue (glEnable GL_DEPTH_TEST) p in
  let p := issue (glEnable GL_CULL_FACE) p in
  let p := issue (glCullFace GL_BACK) p in
  let p := issue (glEnable GL_BLEND) p in
  let p := issue (glBlendFunc GL_SRC_ALPHA GL_ONE_MINUS_SRC_ALPHA) p in
  let p := issue (gl4duCreateProgram "<vs>shaders/basic.vs" "<fs>shaders/basic.fs") p in
  let p := assign (set_landscape_pId (program_id e)) p in
  let p := issue (gl4duGenMatrix GL_FLOAT "modelViewMatrix") p in
  let p := issue (gl4duGenMatrix GL_FLOAT "projectionMatrix") p in
  let p := resize (_windowWidth (vars p)) (_windowHeight (vars p)) p in
  let p := issue gl4dgGenQuadf p in
  let p := assign (set_plan (quad_id e)) p in
  let p := issue (gl4dmTriangleEdge (_landscape_w (vars p)) (_landscape_h (vars p))
                    half64) p in
  let p := assign (fun s => set_heightMap (heightmap_ptr e)
                              (allocated (heightmap_ptr e) (heightmap_cells e) s)) p in
  let p := issue (gl4dgGenGrid2dFromHeightMapf
                    (_landscape_w (vars p)) (_landscape_h (vars p))
                    (_heightMap (vars p))) p in
  let p := assign (set_landscape (grid_id e)) p in
  let p := issue (glGenTextures 1) p in
  let p := assign (fun s => set_terrain_tId (texture_name e)
                              (generated (texture_name e) s)) p in
  let p := issue_call (glBindTexture GL_TEXTURE_1D (_terrain_tId (vars p))) p in
  let p := issue (glTexParameteri GL_TEXTURE_1D GL_TEXTURE_MIN_FILTER GL_NEAREST) p in
  let p := issue (glTexParameteri GL_TEXTURE_1D GL_TEXTURE_MAG_FILTER GL_NEAREST) p in
  let p := issue (glTexParameteri GL_TEXTURE_1D GL_TEXTURE_WRAP_S GL_CLAMP_TO_EDGE) p in
  let p := issue (IMG_Load "alt.png") p in
  match image e with
  | None =>
      (* [assert(t)]; without it, [t->w] reads through NULL *)
      if NDEBUG e then Undefined else Aborted p
  | Some t =>
      let format :=
        if __APPLE__ e
        then (if surface_BytesPerPixel t =? 3 then GL_BGR else GL_BGRA)
        else (if surface_BytesPerPixel t =? 3 then GL_RGB else GL_RGBA) in
      let p := issue (glTexImage1D GL_TEXTURE_1D 0 GL_RGB (surface_w t) 0 format
                        GL_UNSIGNED_BYTE (surface_pixels t)) p in
      let p := issue (SDL_FreeSurface t) p in
      Alive (issue initNoiseTextures p)
  end.

(** *** The main loop and [main] *)

Section Loop.
Variable MMAT4XVEC4 : list (f32 A) -> list (f32 A) -> list (f32 A).

(** A function of the first part has run in the process and left the
    state [s']: its calls join the trace. *)
Definition returned (s' : state A) (p : process) : process :=
  {| vars := set_calls [] s'; trace := trace p ++ map Call (calls s') |}.

Definition ran (r : run (state A)) (p : process) : status process :=
  match r with
  | Continue s' => Alive (returned s' p)
  | Exit code s' => Ended code (returned s' p)
  | Crash => Undefined
  end.

(** [gl4duwMainLoop] calls the function registered for the event. *)
Definition handle (ev : event) (p : process) : status process :=
  match ev with
  | Input i => ran (dispatch MMAT4XVEC4 i (set_calls [] (vars p))) p
  | Resize w h => Alive (resize w h p)
  end.

(** [Alive] when the events are used up: [gl4duwMainLoop] returns. *)
Fixpoint event_loop (events : list event) (p : process) : status process :=
  match events with
  | [] => Alive p
  | ev :: events' =>
      match handle ev p with
      | Alive p' => event_loop events' p'
      | r => r
      end
  end.

(** [main], from the variables as their declarations initialise them.
    [return 1] comes before [atexit(quit)]; [return 0] after it, so that
    [quit] runs as [main] returns. *)
Definition main (e : environment) (events : list event) : status process :=
  let p := {| vars := Sample.initial A; trace := [] |} in
  let p := issue (gl4duwCreateWindow "Landscape"
                    SDL_WINDOWPOS_UNDEFINED SDL_WINDOWPOS_UNDEFINED
                    (_windowWidth (vars p)) (_windowHeight (vars p))
                    SDL_WINDOW_RESIZABLE_or_SDL_WINDOW_SHOWN) p in
  if window_created e =? 0 then Ended 1 p
  else
    match init e p with
    | Alive p =>
        let p := issue (atexit Fquit) p in
        let p := issue (gl4duwResizeFunc Fresize) p in
        let p := issue (gl4duwKeyUpFunc Fkeyup) p in
        let p := issue (gl4duwKeyDownFunc Fkeydown) p in
        let p := issue (gl4duwDisplayFunc Fdraw) p in
        let p := issue (gl4duwIdleFunc Fidle) p in
        let p := issue gl4duwMainLoop p in
        match event_loop events p with
        | Alive p => ran (do_exit 0 (set_calls [] (vars p))) p
        | r => r
        end
    | r => r
    end.

End Loop.

End Process.

Arguments host_call A : clear implicits.
Arguments op A : clear implicits.
Arguments process A : clear implicits.
Arguments environment A : clear implicits.
Arguments event A : clear implicits.


(* ----------------------------------------------------------------- *)
(** *** Notions about the process *)

(** What the program owns: the dimensions of the height map, the two
    handles that [quit] releases, the live blocks and the texture names
    in use. *)
Definition resources {A : arith} (s : state A) :
    Z * Z * Z * Z * list (Z * list (f32 A)) * list Z :=
  (_landscape_w s, _landscape_h s, _heightMap s, _terrain_tId s, heap s, textures s).

(** The calls that release a resource: [free] of the C library,
    [glDeleteTextures] of OpenGL, [SDL_FreeSurface] of SDL, and the
    release functions of the noise module and of GL4Dummies.
    ([unuseNoiseTextures] unbinds the noise textures at the end of a
    frame and releases nothing.) *)
Definition is_release {A : arith} (o : op A) : bool :=
  match o with
  | Call (free _) | Call (glDeleteTextures _ _)
  | Call freeNoiseTextures | Call (gl4duClean _)
  | Host (SDL_FreeSurface _) => true
  | _ => false
  end.

(** The matrices that an operation is written for: the projection
    matrix for the frustum, the model-view matrix for the camera and the
    transformations of the scene, either of them for a reset. *)
Definition targets {A : arith} (o : op A) : option (list string) :=
  match o with
  | Host (gl4duFrustumf _ _ _ _ _ _) => Some ["projectionMatrix"%string]
  | Call (gl4duLookAtf _ _ _ _ _ _ _ _ _) | Call (gl4duScalef _ _ _)
  | Call (gl4duRotatef _ _ _ _) | Call gl4duGetMatrixData =>
      Some ["modelViewMatrix"%string]
  | Call gl4duLoadIdentityf => Some ["modelViewMatrix"%string; "projectionMatrix"%string]
  | _ => None
  end.

(** The protocol of the GL4Dummies matrices over a trace: a matrix is
    bound after [gl4duGenMatrix] has made it, and an operation applies to
    the matrix bound last, which is one it is written for.  [made] are
    the matrices made so far, [bound] the one bound last. *)
Fixpoint matrices_ok {A : arith} (made : list string) (bound : option string)
    (t : list (op A)) : bool :=
  match t with
  | [] => true
  | Host (gl4duGenMatrix _ name) :: t' => matrices_ok (name :: made) bound t'
  | Call (gl4duBindMatrix name) :: t' =>
      existsb (String.eqb name) made && matrices_ok made (Some name) t'
  | o :: t' =>
      match targets o, bound with
      | None, _ => true
      | Some names, Some b => existsb (String.eqb b) names
      | Some _, None => false
      end && matrices_ok made bound t'
  end.

(** The frustum issued last. *)
Fixpoint last_frustum {A : arith} (t : list (op A)) :
    option (f32 A * f32 A * f32 A * f32 A * f32 A * f32 A) :=
  match t with
  | [] => None
  | o :: t' =>
      match last_frustum t' with
      | Some v => Some v
      | None =>
          match o with
          | Host (gl4duFrustumf l r b t n f) => Some (l, r, b, t, n, f)
          | _ => None
          end
      end
  end.

(** The camera set last: eye, centre and up vector of [gl4duLookAtf]. *)
Fixpoint last_look_at {A : arith} (t : list (op A)) :
    option ((f32 A * f32 A * f32 A) * (f32 A * f32 A * f32 A) * (f32 A * f32 A * f32 A)) :=
  match t with
  | [] => None
  | o :: t' =>
      match last_look_at t' with
      | Some v => Some v
      | None =>
          match o with
          | Call (gl4duLookAtf ex ey ez cx cy cz ux uy uz) =>
              Some ((ex, ey, ez), (cx, cy, cz), (ux, uy, uz))
          | _ => None
          end
      end
  end.

(** Whether the arrow key [k] is down after the events, having been
    [held] before them. *)
Fixpoint held_after {A : arith} (k : kyes_t) (events : list (event A)) (held : bool) : bool :=
  match events with
  | [] => held
  | Input (KeyDown keycode) :: events' =>
      held_after k events' (if keycode =? arrow k then true else held)
  | Input (KeyUp keycode) :: events' =>
      held_after k events' (if keycode =? arrow k then false else held)
  | _ :: events' => held_after k events' held
  end.

(** No frame is drawn among the events. *)
Definition frameless {A : arith} (events : list (event A)) : bool :=
  forallb (fun ev => match ev with Input (Display _ _) => false | _ => true end)
          events.

(** The clock reading of the last tick among the events, [t] if there
    is none. *)
Fixpoint last_tick {A : arith} (events : list (event A)) (t : f64 A) : f64 A :=
  match events with
  | [] => t
  | Input (Idle t') :: events' => last_tick events' t'
  | _ :: events' => last_tick events' t
  end.

(** An environment in which start-up goes through: the window is
    created, the height map is a block of 513 x 513 samples, the image
    of the color ramp loads. *)
Record started {A : arith} (e : environment A) (t : SDL_Surface) : Prop := {
  started_window : window_created e <> 0;
  started_ptr : heightmap_ptr e <> 0;
  started_cells : Z.of_nat (List.length (heightmap_cells e)) = 513 * 513;
  started_image : image e = Some t
}.

(** A stretch of the trace that keeps the protocol wherever it comes,
    once both matrices are made. *)
Definition keeps_protocol {A : arith} (c : list (op A)) : Prop :=
  forall (made : list string) (bound : option string),
    In "projectionMatrix"%string made -> In "modelViewMatrix"%string made ->
    matrices_ok made bound c = true.

(* ----------------------------------------------------------------- *)
(** *** A sample machine and session *)

(** A machine to start the program on: the window is created unless
    [window] is 0, [gl4dmTriangleEdge] returns 513 x 513 samples [v] at
    address 4096, and [IMG_Load] returns [picture]. *)
Definition machine (A : arith) (window : Z) (v : f32 A) (picture : option SDL_Surface) :
    environment A :=
  {| NDEBUG := false; __APPLE__ := false;
     window_created := window; time_now := 1488844800;
     program_id := 3; quad_id := 1;
     heightmap_ptr := 4096; heightmap_cells := repeat v (Z.to_nat (513 * 513));
     grid_id := 2; texture_name := 7;
     image := picture |}.

(** The color ramp [alt.png] as loaded: 256 texels of 3 bytes. *)
Definition ramp : SDL_Surface :=
  {| surface_w := 256; surface_BytesPerPixel := 3; surface_pixels := 8192 |}.

(** A session: the window is resized, the user walks forward for a
    frame, looks at the scene in wireframe and leaves with [q]. *)
Definition session (A : arith) : list (event A) :=
  [Resize 1024 768;
   Input (KeyDown SDLK_UP); Input (Idle (f64_of_int A 16));
   Input (Display 300 []); Input (KeyUp SDLK_UP);
   Input (KeyDown 119); Input (Display 300 []);
   Input (KeyDown 113); Input (Idle (f64_of_int A 32))].

(* ================================================================= *)
(** ** Proof steps *)

(** Case analysis on the flag [_keys[k]] of [s], wherever the goal reads
    it (the updates of [idle] leave [_keys] alone, so a flag read in an
    updated state is the flag of [s]). *)
Ltac split_flag s k :=
  repeat match goal with
         | |- context [key ?t k] =>
             lazymatch t with s => fail | _ => change (key t k) with (key s k) end
         end;
  destruct (key s k) eqn:?.

Ltac idle_cases s :=
  unfold idle_dt;
  split_flag s KLEFT; split_flag s KRIGHT; split_flag s KUP; split_flag s KDOWN.

(** Reading the operations of [exact] as those of [R]. *)
Ltac exact_arith :=
  change (f32 exact) with R in *; change (f64 exact) with R in *;
  cbn [exact f32 f64 add64 sub64 mul64 div64 neg64 promote demote div32
       sin64 cos64 M_PI f32_of_int f64_of_int le64 lt32 int_of_f32] in *.

(** Evaluation of the concrete floats under [IEEE.value], and of their
    values as fractions; [float_bound] then settles a bound on the
    absolute value of a concrete float. *)
Ltac eval_floats :=
  repeat match goal with
         | |- context [IEEE.value ?f] =>
             lazymatch f with
             | S754_zero _ => fail
             | S754_finite _ _ _ => fail
             | _ => let v := eval vm_compute in f in
                    replace f with v by (vm_compute; reflexivity)
             end
         end.

Ltac eval_values :=
  eval_floats; cbn [IEEE.value cond_Zopp Z.opp powerRZ]; rewrite ?pow_IZR;
  repeat match goal with
         | |- context [IZR (?a ^ ?b)] =>
             let v := eval vm_compute in (a ^ b) in
             change (a ^ b) with v
         end.

Ltac float_bound := eval_values; apply Rabs_le; lra.

(** A fixed stretch of the trace keeps the protocol of the matrices, by
    evaluation. *)
Ltac protocol_chunk :=
  let made := fresh "made" in
  let bound := fresh "bound" in
  let Hp := fresh "Hp" in
  let Hm := fresh "Hm" in
  let Ep := fresh "Ep" in
  let Em := fresh "Em" in
  intros made bound Hp Hm;
  assert (Ep : existsb (String.eqb "projectionMatrix") made = true)
    by (apply existsb_exists; eexists; split; [exact Hp|apply String.eqb_refl]);
  assert (Em : existsb (String.eqb "modelViewMatrix") made = true)
    by (apply existsb_exists; eexists; split; [exact Hm|apply String.eqb_refl]);
  cbn [app map matrices_ok targets andb];
  rewrite ?Ep, ?Em; reflexivity.

(* ================================================================= *)
(** ** Properties of the two arithmetics *)

(** *** Binary floats: shifts, digits and exact conversions *)

Lemma iter_xO_val (m k : positive) :
  Zpos (Pos.iter xO m k) = Zpos m * 2 ^ Zpos k.
Proof.
  induction k as [|k IH] using Pos.peano_ind.
  - simpl. lia.
  - rewrite Pos.iter_succ, Pos2Z.inj_succ, Z.pow_succ_r by lia.
    rewrite Pos2Z.inj_xO, IH. ring.
Qed.

Lemma iter_xO_digits (m k : positive) :
  digits2_pos (Pos.iter xO m k) = (digits2_pos m + k)%positive.
Proof.
  induction k as [|k IH] using Pos.peano_ind.
  - simpl. lia.
  - rewrite Pos.iter_succ. simpl. rewrite IH. lia.
Qed.

Lemma digits2_pos_bounds (m : positive) :
  2 ^ (Zpos (digits2_pos m) - 1) <= Zpos m < 2 ^ Zpos (digits2_pos m).
Proof.
  induction m as [m IH|m IH|]; simpl digits2_pos.
  - rewrite Pos2Z.inj_succ, Z.pow_succ_r by lia.
    replace (Z.succ (Zpos (digits2_pos m)) - 1) with (Z.succ (Zpos (digits2_pos m) - 1)) by lia.
    rewrite Z.pow_succ_r by lia. lia.
  - rewrite Pos2Z.inj_succ, Z.pow_succ_r by lia.
    replace (Z.succ (Zpos (digits2_pos m)) - 1) with (Z.succ (Zpos (digits2_pos m) - 1)) by lia.
    rewrite Z.pow_succ_r by lia. lia.
  - simpl. lia.
Qed.

Lemma shl_align_le (m : positive) (e ez : Z) :
  ez <= e ->
  Zpos (fst (shl_align m e ez)) = Zpos m * 2 ^ (e - ez).
Proof.
  intros H. unfold shl_align.
  destruct (ez - e) as [|p|p] eqn:E.
  - assert (e - ez = 0) as -> by lia. cbn [fst]. rewrite Z.pow_0_r. lia.
  - lia.
  - cbn [fst]. rewrite iter_xO_val. f_equal. f_equal. lia.
Qed.

Lemma shl_align_ge (m : positive) (e ez : Z) :
  e <= ez -> shl_align m e ez = (m, e).
Proof.
  intros H. unfold shl_align.
  destruct (ez - e) as [|p|p] eqn:E; try reflexivity. lia.
Qed.

(** A mantissa that fits the format is kept as it is. *)
Lemma binary_round_fits (prec emax : Z) (s : bool) (m : positive) (e : Z) :
  fexp prec emax (Zpos (digits2_pos m) + e) <= e ->
  fexp prec emax (Zpos (digits2_pos m) + e) <= emax - prec ->
  exists m', 
    binary_round prec emax s m e = S754_finite s m' (fexp prec emax (Zpos (digits2_pos m) + e)) /\
    Zpos m' = Zpos m * 2 ^ (e - fexp prec emax (Zpos (digits2_pos m) + e)).
Proof.
  intros Hfit Hmax.
  set (fe := fexp prec emax (Zpos (digits2_pos m) + e)) in *.
  unfold binary_round. fold fe.
  assert (Hd : Zpos (digits2_pos (fst (shl_align m e fe))) + snd (shl_align m e fe)
               = Zpos (digits2_pos m) + e /\ snd (shl_align m e fe) = fe
               /\ Zpos (fst (shl_align m e fe)) = Zpos m * 2 ^ (e - fe)).
  { unfold shl_align. destruct (fe - e) as [|p|p] eqn:E.
    - assert (e - fe = 0) as -> by lia. cbn [fst snd]. rewrite Z.pow_0_r. lia.
    - lia.
    - cbn [fst snd]. rewrite iter_xO_digits, iter_xO_val.
      assert (e - fe = Zpos p) as -> by lia. lia. }
  destruct (shl_align m e fe) as [mz ez]. cbn [fst snd] in Hd.
  destruct Hd as (Hd1 & Hd2 & Hd3). subst ez.
  exists mz. split; [|exact Hd3].
  unfold binary_round_aux.
  assert (Hs : shr_fexp prec emax (Zpos mz) fe loc_Exact
               = ({| shr_m := Zpos mz; shr_r := false; shr_s := false |}, fe)).
  { unfold shr_fexp.
    change (Zdigits2 (Zpos mz)) with (Zpos (digits2_pos mz)).
    rewrite Hd1. fold fe. rewrite Z.sub_diag. reflexivity. }
  rewrite Hs. cbn [shr_m loc_of_shr_record round_nearest_even]. rewrite Hs.
  cbn [shr_m]. apply Z.leb_le in Hmax. rewrite Hmax. reflexivity.
Qed.

Lemma of_int32_small (n : Z) :
  0 < n < 16777216 ->
  exists m e, IEEE.of_int32 n = S754_finite false m e /\ e <= 0 /\
              Zpos m = n * 2 ^ (- e).
Proof.
  intros Hn. destruct n as [|p|p]; try lia.
  unfold IEEE.of_int32, binary_normalize.
  pose proof (digits2_pos_bounds p) as Hd.
  assert (Hd24 : Zpos (digits2_pos p) <= 24).
  { destruct (Z_le_gt_dec (Zpos (digits2_pos p)) 24) as [|Hgt]; [assumption|].
    assert (2 ^ 24 <= 2 ^ (Zpos (digits2_pos p) - 1)) by (apply Z.pow_le_mono_r; lia).
    change (2 ^ 24) with 16777216 in *. lia. }
  assert (Hf : fexp IEEE.prec32 IEEE.emax32 (Zpos (digits2_pos p) + 0)
               = Zpos (digits2_pos p) - 24).
  { unfold fexp, emin, IEEE.prec32, IEEE.emax32. lia. }
  destruct (binary_round_fits IEEE.prec32 IEEE.emax32 false p 0) as (m' & Hr & Hm).
  - rewrite Hf. lia.
  - rewrite Hf. unfold IEEE.prec32, IEEE.emax32. lia.
  - rewrite Hf in Hr, Hm. exists m', (Zpos (digits2_pos p) - 24).
    split; [exact Hr|]. split; [lia|].
    exact Hm.
Qed.

Lemma ieee_trunc_range (x : spec_float) (n : Z) :
  0 < n < 16777216 ->
  IEEE.leb (IEEE.of_int64 0) x = true ->
  IEEE.ltb x (IEEE.of_int32 n) = true ->
  0 <= IEEE.trunc x < n.
Proof.
  intros Hn Hle Hlt.
  destruct (of_int32_small n Hn) as (mw & ew & Hw & Hew & Hmw).
  rewrite Hw in Hlt. clear Hw.
  destruct x as [s|s| |s m e].
  - simpl. lia.
  - destruct s; discriminate.
  - discriminate.
  - destruct s; [discriminate|]. clear Hle.
    unfold IEEE.ltb, IEEE.compare in Hlt. cbn [cond_Zopp] in Hlt.
    destruct (Z.compare_spec (Zpos (fst (shl_align m e (Z.min e ew))))
                             (Zpos (fst (shl_align mw ew (Z.min e ew))))) as [|Hc|];
      try discriminate. clear Hlt.
    rewrite !shl_align_le in Hc by lia. rewrite Hmw in Hc.
    unfold IEEE.trunc. cbn [cond_Zopp].
    split; [apply Z.shiftl_nonneg; lia|].
    assert (Hpw : 0 < 2 ^ (- ew)) by (apply Z.pow_pos_nonneg; lia).
    destruct (Z_le_gt_dec 0 e) as [He|He].
    + (* e >= 0 >= ew *)
      rewrite Z.shiftl_mul_pow2 by lia.
      rewrite Z.min_r in Hc by lia. rewrite Z.sub_diag, Z.pow_0_r, Z.mul_1_r in Hc.
      replace (e - ew) with (e + - ew) in Hc by lia.
      rewrite Z.pow_add_r in Hc by lia.
      assert (0 < 2 ^ e) by (apply Z.pow_pos_nonneg; lia). nia.
    + (* e < 0 *)
      replace e with (- (- e)) at 1 by lia.
      rewrite Z.shiftl_opp_r, Z.shiftr_div_pow2 by lia.
      assert (Hpe : 0 < 2 ^ (- e)) by (apply Z.pow_pos_nonneg; lia).
      apply Z.div_lt_upper_bound; [lia|].
      destruct (Z_le_gt_dec e ew) as [Hee|Hee].
      * rewrite Z.min_l in Hc by lia.
        rewrite Z.sub_diag, Z.pow_0_r, Z.mul_1_r in Hc.
        rewrite <- Z.mul_assoc, <- Z.pow_add_r in Hc by lia.
        replace (- ew + (ew - e)) with (- e) in Hc by lia. lia.
      * rewrite Z.min_r in Hc by lia.
        rewrite Z.sub_diag, Z.pow_0_r, Z.mul_1_r in Hc.
        assert (Hsplit : 2 ^ (- ew) = 2 ^ (e - ew) * 2 ^ (- e)).
        { rewrite <- Z.pow_add_r by lia. f_equal. lia. }
        rewrite Hsplit in Hc.
        assert (0 < 2 ^ (e - ew)) by (apply Z.pow_pos_nonneg; lia). nia.
Qed.

(** *** Comparison

    On two floats of one format, written in canonical form,
    [IEEE.compare] is the Standard Library's [SFcompare]. *)

Lemma canonical_digits (prec emax : Z) (m : positive) (e : Z) :
  canonical_mantissa prec emax m e = true ->
  Zpos (digits2_pos m) <= prec /\ emin prec emax <= e /\
  (emin prec emax < e -> Zpos (digits2_pos m) = prec).
Proof.
  unfold canonical_mantissa, fexp. intros H. apply Z.eqb_eq in H. lia.
Qed.

Lemma canonical_lt (prec emax : Z) (m1 m2 : positive) (e1 e2 : Z) :
  0 < prec ->
  canonical_mantissa prec emax m1 e1 = true ->
  canonical_mantissa prec emax m2 e2 = true ->
  e1 < e2 ->
  Zpos m1 < Zpos m2 * 2 ^ (e2 - e1).
Proof.
  intros Hp H1 H2 He.
  destruct (canonical_digits _ _ _ _ H1) as (Hd1 & Hm1 & _).
  destruct (canonical_digits _ _ _ _ H2) as (_ & _ & Hd2).
  specialize (Hd2 ltac:(lia)).
  pose proof (digits2_pos_bounds m1) as B1.
  pose proof (digits2_pos_bounds m2) as B2. rewrite Hd2 in B2.
  assert (2 ^ Zpos (digits2_pos m1) <= 2 ^ prec) by (apply Z.pow_le_mono_r; lia).
  assert (Hp2 : 2 ^ prec = 2 * 2 ^ (prec - 1)).
  { rewrite <- Z.pow_succ_r by lia. f_equal. lia. }
  assert (2 ^ 1 <= 2 ^ (e2 - e1)) by (apply Z.pow_le_mono_r; lia).
  change (2 ^ 1) with 2 in *. nia.
Qed.

Lemma compare_canonical (prec emax : Z) (x y : spec_float) :
  0 < prec ->
  valid_binary prec emax x = true -> valid_binary prec emax y = true ->
  IEEE.compare x y = SFcompare x y.
Proof.
  intros Hp Hx Hy.
  destruct x as [sx|sx| |sx mx ex], y as [sy|sy| |sy my ey]; try reflexivity.
  cbn [valid_binary] in Hx, Hy. unfold bounded in Hx, Hy.
  apply andb_prop in Hx, Hy. destruct Hx as [Hx _], Hy as [Hy _].
  unfold IEEE.compare, SFcompare. f_equal.
  assert (Hlt : forall m1 e1 m2 e2,
             canonical_mantissa prec emax m1 e1 = true ->
             canonical_mantissa prec emax m2 e2 = true ->
             Z.compare (Zpos (fst (shl_align m1 e1 (Z.min e1 e2))))
                       (Zpos (fst (shl_align m2 e2 (Z.min e1 e2))))
             = match Z.compare e1 e2 with
               | Lt => Lt
               | Gt => Gt
               | Eq => Pos.compare_cont Eq m1 m2
               end).
  { intros m1 e1 m2 e2 H1 H2. rewrite !shl_align_le by lia.
    destruct (Z.compare_spec e1 e2) as [He|He|He].
    - subst e2. rewrite Z.min_id, Z.sub_diag, Z.pow_0_r, !Z.mul_1_r. reflexivity.
    - rewrite Z.min_l by lia. rewrite Z.sub_diag, Z.pow_0_r, Z.mul_1_r.
      apply Z.compare_lt_iff. apply (canonical_lt prec emax); assumption.
    - rewrite Z.min_r by lia. rewrite Z.sub_diag, Z.pow_0_r, Z.mul_1_r.
      apply Z.compare_gt_iff. apply (canonical_lt prec emax); assumption. }
  destruct sx, sy; cbn [cond_Zopp].
  - rewrite Z.compare_opp, (Z.min_comm ex ey), (Hlt my ey mx ex Hy Hx).
    rewrite (Z.compare_antisym ex ey).
    change (Pos.compare_cont Eq my mx) with (Pos.compare_cont (CompOpp Eq) my mx).
    rewrite <- Pos.compare_cont_antisym.
    destruct (Z.compare ex ey); reflexivity.
  - reflexivity.
  - reflexivity.
  - apply Hlt; assumption.
Qed.

(** *** Binary floats: the error of a rounding

    [binary_round_aux] shifts the mantissa right until it fits the
    format and rounds what is left to nearest.  The lemmas below follow
    the shift bit by bit and bound the distance between the value of the
    result and the value of the operand; the bounds on [SFadd], [SFsub],
    [SFmul] and on the conversion to binary32 follow. *)

(** Shifting right, one bit at a time. *)

Lemma iter_pos_iter {T : Type} (f : T -> T) (n : positive) (x : T) :
  iter_pos f n x = Pos.iter f x n.
Proof.
  revert x. induction n as [n IH|n IH|]; intros x; cbn [iter_pos Pos.iter].
  - rewrite !IH, !Pos.iter_swap. reflexivity.
  - rewrite !IH. reflexivity.
  - reflexivity.
Qed.

Lemma shr_1_spec (m : Z) (r s : bool) :
  0 <= m ->
  shr_1 {| shr_m := m; shr_r := r; shr_s := s |}
  = {| shr_m := m / 2; shr_r := Z.odd m; shr_s := r || s |}.
Proof.
  intros Hm. rewrite <- Z.div2_div. destruct m as [|[p|p|]|p]; try reflexivity; lia.
Qed.

Lemma pow2_pred (j : Z) : 1 <= j -> 2 ^ j = 2 * 2 ^ (j - 1).
Proof.
  intros Hj. rewrite <- Z.pow_succ_r by lia. f_equal. lia.
Qed.

Lemma mod_pow2_split (m j : Z) :
  1 <= j ->
  m mod 2 ^ j = m mod 2 ^ (j - 1) + 2 ^ (j - 1) * (if Z.odd (m / 2 ^ (j - 1)) then 1 else 0).
Proof.
  intros Hj. rewrite <- Zmod_odd.
  rewrite (pow2_pred j Hj), (Z.mul_comm 2).
  apply Z.rem_mul_r; [apply Z.pow_nonzero; lia|lia].
Qed.

Lemma shr_1_shifted (m j : Z) :
  0 <= m -> 1 <= j -> shr_1 (IEEE.shifted m j) = IEEE.shifted m (j + 1).
Proof.
  intros Hm Hj. unfold IEEE.shifted.
  rewrite shr_1_spec by (apply Z.div_pos; [lia|apply Z.pow_pos_nonneg; lia]).
  replace (j + 1 - 1) with j by lia.
  f_equal.
  - rewrite Z.div_div by (try apply Z.pow_nonzero; lia).
    f_equal. rewrite Z.add_1_r, Z.pow_succ_r by lia. ring.
  - rewrite (mod_pow2_split m j Hj).
    pose proof (Z.mod_pos_bound m (2 ^ (j - 1)) ltac:(apply Z.pow_pos_nonneg; lia)) as Hr.
    assert (0 < 2 ^ (j - 1)) by (apply Z.pow_pos_nonneg; lia).
    destruct (Z.odd (m / 2 ^ (j - 1))); cbn [orb].
    + symmetry. apply negb_true_iff, Z.eqb_neq. lia.
    + rewrite Z.mul_0_r, Z.add_0_r. reflexivity.
Qed.

Lemma iter_pos_shr_1 (m : Z) (k : positive) :
  0 <= m ->
  iter_pos shr_1 k {| shr_m := m; shr_r := false; shr_s := false |} = IEEE.shifted m (Zpos k).
Proof.
  intros Hm. rewrite iter_pos_iter.
  induction k as [|k IH] using Pos.peano_ind.
  - cbn [Pos.iter]. rewrite shr_1_spec by assumption. unfold IEEE.shifted.
    change (2 ^ 1) with 2. change (2 ^ (1 - 1)) with 1.
    rewrite Z.div_1_r, Z.mod_1_r. reflexivity.
  - rewrite Pos.iter_succ, IH, shr_1_shifted by lia. f_equal. lia.
Qed.

(** Rounding the shifted mantissa to nearest: the result is within half
    a unit of the last kept place. *)
Lemma round_shifted (m k : Z) :
  0 <= m -> 0 < k ->
  let m1 := round_nearest_even (shr_m (IEEE.shifted m k))
              (loc_of_shr_record (IEEE.shifted m k)) in
  m / 2 ^ k <= m1 <= m / 2 ^ k + 1 /\
  2 * Z.abs (m1 * 2 ^ k - m) <= 2 ^ k.
Proof.
  intros Hm Hk. cbv zeta.
  pose proof (mod_pow2_split m k ltac:(lia)) as Hsplit.
  pose proof (Z.mod_pos_bound m (2 ^ (k - 1)) ltac:(apply Z.pow_pos_nonneg; lia)) as Hr.
  pose proof (Z.div_mod m (2 ^ k) ltac:(apply Z.pow_nonzero; lia)) as Hdm.
  pose proof (pow2_pred k ltac:(lia)) as Hp.
  unfold IEEE.shifted. cbn [shr_m loc_of_shr_record].
  set (q := m / 2 ^ k) in *. set (P := 2 ^ (k - 1)) in *.
  set (t := m mod P) in *. set (b := Z.odd (m / P)) in *.
  rewrite Hsplit in Hdm. rewrite Hp in *. clear Hsplit.
  destruct b; destruct (t =? 0) eqn:Et; cbn [negb round_nearest_even];
    [apply Z.eqb_eq in Et|apply Z.eqb_neq in Et|apply Z.eqb_eq in Et|apply Z.eqb_neq in Et];
    try destruct (Z.even q); split; try lia.
Qed.

(** The number of digits of the rounded mantissa: at most [prec], or
    [prec + 1] when the rounding carried into a new digit. *)

Lemma Zdigits2_le (m prec : Z) : 0 <= prec -> 0 <= m < 2 ^ prec -> Zdigits2 m <= prec.
Proof.
  intros Hp Hm. destruct m as [|p|p]; cbn [Zdigits2]; try lia.
  pose proof (digits2_pos_bounds p) as Hd.
  destruct (Z_le_gt_dec (Zpos (digits2_pos p)) prec) as [|Hgt]; [assumption|].
  assert (2 ^ prec <= 2 ^ (Zpos (digits2_pos p) - 1)) by (apply Z.pow_le_mono_r; lia).
  lia.
Qed.

Lemma Zdigits2_pow2 (prec : Z) : 0 <= prec -> Zdigits2 (2 ^ prec) = prec + 1.
Proof.
  intros Hp. assert (H2 : 0 < 2 ^ prec) by (apply Z.pow_pos_nonneg; lia).
  destruct (2 ^ prec) as [|p|p] eqn:E; try lia. cbn [Zdigits2].
  pose proof (digits2_pos_bounds p) as Hd. rewrite <- E in Hd.
  destruct Hd as [Hlo Hhi].
  apply Z.pow_le_mono_r_iff in Hlo; [|lia|lia].
  apply Z.pow_lt_mono_r_iff in Hhi; [|lia|lia]. lia.
Qed.

(** What [binary_round_aux] returns for an exact positive mantissa: the
    sign is kept; the value is [m1 * 2^e1], where [m1] is [m] itself when
    no bit has to go, and [m] shifted and rounded to nearest otherwise. *)
Lemma binary_round_aux_spec (prec emax : Z) (s : bool) (m : positive) (e : Z) :
  0 < prec ->
  let fe := fexp prec emax (Zpos (digits2_pos m) + e) in
  exists m1 e1 : Z,
    0 <= m1 /\
    (if fe <=? e then m1 = Zpos m /\ e1 = e
     else 2 * Z.abs (m1 * 2 ^ (fe - e) - Zpos m) <= 2 ^ (fe - e) /\ e1 = fe) /\
    match binary_round_aux prec emax s (Zpos m) e loc_Exact with
    | S754_zero s' => s' = s /\ m1 = 0
    | S754_finite s' m' e' => s' = s /\ e1 <= e' /\ Zpos m' * 2 ^ (e' - e1) = m1
    | S754_infinity s' => s' = s
    | S754_nan => False
    end.
Proof.
  intros Hprec fe.
  unfold binary_round_aux, shr_fexp.
  change (Zdigits2 (Zpos m)) with (Zpos (digits2_pos m)). fold fe.
  cbn [shr_record_of_loc].
  destruct (fe <=? e) eqn:Hfe.
  - apply Z.leb_le in Hfe.
    assert (Hs : shr {| shr_m := Zpos m; shr_r := false; shr_s := false |} e (fe - e)
                 = ({| shr_m := Zpos m; shr_r := false; shr_s := false |}, e)).
    { unfold shr. destruct (fe - e) eqn:E; try reflexivity. lia. }
    rewrite Hs. cbn [shr_m loc_of_shr_record round_nearest_even].
    change (Zdigits2 (Zpos m)) with (Zpos (digits2_pos m)). fold fe.
    rewrite Hs. cbn [shr_m].
    exists (Zpos m), e. split; [lia|]. split; [split; reflexivity|].
    destruct (e <=? emax - prec); [|reflexivity].
    split; [reflexivity|]. split; [lia|]. rewrite Z.sub_diag. lia.
  - apply Z.leb_gt in Hfe.
    assert (Hs : shr {| shr_m := Zpos m; shr_r := false; shr_s := false |} e (fe - e)
                 = (IEEE.shifted (Zpos m) (fe - e), fe)).
    { unfold shr. destruct (fe - e) as [|p|p] eqn:E; try lia.
      rewrite iter_pos_shr_1 by lia. f_equal. lia. }
    rewrite Hs.
    destruct (round_shifted (Zpos m) (fe - e) ltac:(lia) ltac:(lia)) as [Hq Herr].
    set (m1 := round_nearest_even (shr_m (IEEE.shifted (Zpos m) (fe - e)))
                 (loc_of_shr_record (IEEE.shifted (Zpos m) (fe - e)))) in *.
    assert (Hemin : emin prec emax <= fe) by (unfold fe, fexp; lia).
    assert (Hq0 : 0 <= Zpos m / 2 ^ (fe - e))
      by (apply Z.div_pos; [lia|apply Z.pow_pos_nonneg; lia]).
    assert (Hq1 : Zpos m / 2 ^ (fe - e) < 2 ^ prec).
    { apply Z.div_lt_upper_bound; [apply Z.pow_pos_nonneg; lia|].
      rewrite <- Z.pow_add_r by lia.
      pose proof (digits2_pos_bounds m) as Hd.
      assert (2 ^ Zpos (digits2_pos m) <= 2 ^ (fe - e + prec))
        by (apply Z.pow_le_mono_r; [lia|unfold fe, fexp; lia]).
      lia. }
    exists m1, fe. split; [lia|]. split; [split; [exact Herr|reflexivity]|].
    destruct (Z.eq_dec m1 (2 ^ prec)) as [Htop|Htop].
    + assert (Hs2 : shr {| shr_m := m1; shr_r := false; shr_s := false |} fe
                      (fexp prec emax (Zdigits2 m1 + fe) - fe)
                    = (IEEE.shifted m1 1, fe + 1)).
      { rewrite Htop, Zdigits2_pow2 by lia.
        replace (fexp prec emax (prec + 1 + fe) - fe) with 1 by (unfold fexp; lia).
        cbn [shr]. rewrite iter_pos_shr_1 by (apply Z.pow_nonneg; lia). reflexivity. }
      rewrite Hs2. unfold IEEE.shifted at 1. cbn [shr_m]. change (2 ^ 1) with 2.
      assert (Hhalf : m1 / 2 = 2 ^ (prec - 1)).
      { rewrite Htop, (pow2_pred prec) by lia. rewrite Z.mul_comm. apply Z.div_mul. lia. }
      rewrite Hhalf.
      assert (Hpos : 0 < 2 ^ (prec - 1)) by (apply Z.pow_pos_nonneg; lia).
      destruct (2 ^ (prec - 1)) as [|p|p] eqn:Ep; try lia.
      destruct (fe + 1 <=? emax - prec); [|reflexivity].
      split; [reflexivity|]. split; [lia|].
      replace (fe + 1 - fe) with 1 by lia. change (2 ^ 1) with 2.
      rewrite Htop, (pow2_pred prec) by lia. lia.
    + assert (Hs2 : shr {| shr_m := m1; shr_r := false; shr_s := false |} fe
                      (fexp prec emax (Zdigits2 m1 + fe) - fe)
                    = ({| shr_m := m1; shr_r := false; shr_s := false |}, fe)).
      { pose proof (Zdigits2_le m1 prec ltac:(lia) ltac:(lia)) as Hd.
        unfold shr. destruct (fexp prec emax (Zdigits2 m1 + fe) - fe) eqn:E; try reflexivity.
        unfold fexp in E. lia. }
      rewrite Hs2. cbn [shr_m].
      destruct m1 as [|p|p]; try lia.
      * split; reflexivity.
      * destruct (fe <=? emax - prec); [|reflexivity].
        split; [reflexivity|]. split; [lia|]. rewrite Z.sub_diag. lia.
Qed.

(** Values as real numbers, and powers of 2. *)

Lemma IZR_cond_Zopp (s : bool) (z : Z) : IZR (cond_Zopp s z) = (IEEE.sign s * IZR z)%R.
Proof. destruct s; cbn [cond_Zopp IEEE.sign]; [rewrite opp_IZR|]; ring. Qed.

Lemma Rabs_sign (s : bool) (x : R) : Rabs (IEEE.sign s * x) = Rabs x.
Proof.
  destruct s; cbn [IEEE.sign].
  - replace (-1 * x)%R with (- x)%R by ring. apply Rabs_Ropp.
  - f_equal. ring.
Qed.

Lemma bpow_pos (e : Z) : (0 < powerRZ 2 e)%R.
Proof. apply powerRZ_lt. lra. Qed.

Lemma bpow_add (a b : Z) : powerRZ 2 (a + b) = (powerRZ 2 a * powerRZ 2 b)%R.
Proof. apply powerRZ_add. lra. Qed.

Lemma IZR_pow2 (k : Z) : 0 <= k -> IZR (2 ^ k) = powerRZ 2 k.
Proof.
  intros Hk. destruct k as [|p|p]; try lia; [reflexivity|].
  cbn [powerRZ]. rewrite pow_IZR, positive_nat_Z. reflexivity.
Qed.

Lemma bpow_le (a b : Z) : a <= b -> (powerRZ 2 a <= powerRZ 2 b)%R.
Proof.
  intros H. replace b with (b - a + a) by lia. rewrite bpow_add, <- (IZR_pow2 (b - a)) by lia.
  pose proof (bpow_pos a).
  assert (1 <= IZR (2 ^ (b - a)))%R.
  { apply IZR_le. assert (0 < 2 ^ (b - a)) by (apply Z.pow_pos_nonneg; lia). lia. }
  nra.
Qed.

Lemma bpow_half (a : Z) : powerRZ 2 a = (2 * powerRZ 2 (a - 1))%R.
Proof.
  replace a with (1 + (a - 1)) at 1 by lia. rewrite bpow_add.
  change (powerRZ 2 1) with (2 * 1)%R. ring.
Qed.

(** The error of one rounding, when the result is not infinite. *)

Lemma binary_round_aux_value (prec emax : Z) (s : bool) (m : positive) (e : Z) :
  0 < prec ->
  let r := binary_round_aux prec emax s (Zpos m) e loc_Exact in
  let v := (IEEE.sign s * IZR (Zpos m) * powerRZ 2 e)%R in
  IEEE.finite r = true ->
  IEEE.within prec emax (IEEE.value r) v.
Proof.
  intros Hprec r v Hfin. unfold IEEE.within.
  destruct (binary_round_aux_spec prec emax s m e Hprec) as (m1 & e1 & Hm1 & Hcase & Hres).
  fold r in Hres.
  set (fe := fexp prec emax (Zpos (digits2_pos m) + e)) in *.
  assert (Hval : IEEE.value r = (IEEE.sign s * IZR m1 * powerRZ 2 e1)%R).
  { destruct r as [s'|s'| |s' m' e']; try discriminate Hfin.
    - destruct Hres as [_ ->]. cbn [IEEE.value]. ring.
    - destruct Hres as (-> & He & Hm). cbn [IEEE.value].
      rewrite IZR_cond_Zopp, <- Hm, mult_IZR, IZR_pow2 by lia.
      replace e' with (e' - e1 + e1) at 1 by lia. rewrite bpow_add. ring. }
  rewrite Hval.
  pose proof (bpow_pos e) as He0.
  pose proof (bpow_pos (- prec)) as Hu0.
  pose proof (bpow_pos (emin prec emax - 1)) as Hn0.
  assert (Hv : Rabs v = (IZR (Zpos m) * powerRZ 2 e)%R).
  { unfold v. rewrite Rmult_assoc, Rabs_sign. apply Rabs_pos_eq.
    apply Rmult_le_pos; [apply IZR_le; lia|lra]. }
  destruct (fe <=? e) eqn:Hfe.
  - destruct Hcase as [-> ->]. fold v.
    replace (v - v)%R with 0%R by ring. rewrite Rabs_R0.
    pose proof (Rabs_pos v). nra.
  - apply Z.leb_gt in Hfe. destruct Hcase as [Herr ->].
    assert (Hd : (IEEE.value r - v
                  = IEEE.sign s * (IZR (m1 * 2 ^ (fe - e) - Zpos m) * powerRZ 2 e))%R).
    { rewrite Hval. unfold v. rewrite minus_IZR, mult_IZR, IZR_pow2 by lia.
      replace fe with (fe - e + e) at 1 by lia. rewrite bpow_add. ring. }
    rewrite <- Hval, Hd, Rabs_sign, Rabs_mult, (Rabs_pos_eq (powerRZ 2 e)) by lra.
    rewrite <- abs_IZR.
    apply IZR_le in Herr. rewrite mult_IZR, IZR_pow2 in Herr by lia.
    set (a := IZR (Z.abs (m1 * 2 ^ (fe - e) - Zpos m))) in *.
    assert (Hhalf : (a * powerRZ 2 e <= powerRZ 2 (fe - 1))%R).
    { assert (Hfe2 : powerRZ 2 fe = (powerRZ 2 (fe - e) * powerRZ 2 e)%R).
      { rewrite <- bpow_add. f_equal. lia. }
      rewrite (bpow_half fe) in Hfe2. nra. }
    eapply Rle_trans; [exact Hhalf|].
    rewrite Hv.
    destruct (Z_le_gt_dec (Zpos (digits2_pos m) + e - prec) (emin prec emax)) as [Hsub|Hnorm].
    + assert (fe = emin prec emax) as -> by (unfold fe, fexp; lia).
      assert (0 <= powerRZ 2 (- prec) * (IZR (Zpos m) * powerRZ 2 e))%R.
      { apply Rmult_le_pos; [lra|]. apply Rmult_le_pos; [apply IZR_le; lia|lra]. }
      lra.
    + assert (fe = Zpos (digits2_pos m) + e - prec) as -> by (unfold fe, fexp; lia).
      replace (Zpos (digits2_pos m) + e - prec - 1)
        with (- prec + ((Zpos (digits2_pos m) - 1) + e)) by lia.
      rewrite (bpow_add (- prec)), (bpow_add (Zpos (digits2_pos m) - 1)).
      rewrite <- (IZR_pow2 (Zpos (digits2_pos m) - 1)) by lia.
      pose proof (digits2_pos_bounds m) as [Hlo _]. apply IZR_le in Hlo.
      assert (0 <= IZR (2 ^ (Zpos (digits2_pos m) - 1)))%R.
      { apply IZR_le. apply Z.pow_nonneg. lia. }
      assert (IZR (2 ^ (Zpos (digits2_pos m) - 1)) * powerRZ 2 e
              <= IZR (Zpos m) * powerRZ 2 e)%R by nra.
      nra.
Qed.

Lemma value_finite (s : bool) (m : positive) (e : Z) :
  IEEE.value (S754_finite s m e) = (IEEE.sign s * IZR (Zpos m) * powerRZ 2 e)%R.
Proof. cbn [IEEE.value]. rewrite IZR_cond_Zopp. reflexivity. Qed.

Lemma shl_align_value (m : positive) (e ez : Z) :
  (IZR (Zpos (fst (shl_align m e ez))) * powerRZ 2 (snd (shl_align m e ez))
   = IZR (Zpos m) * powerRZ 2 e)%R.
Proof.
  unfold shl_align. destruct (ez - e) as [|p|p] eqn:E; cbn [fst snd]; try reflexivity.
  rewrite iter_xO_val, mult_IZR, IZR_pow2 by lia.
  rewrite Rmult_assoc, <- bpow_add. do 2 f_equal. lia.
Qed.

(** The operations of a format [(prec, emax)]: a finite result has
    finite operands and is within one rounding of the exact result. *)

Section Rounding.

Variables prec emax : Z.
Hypothesis Hprec : 0 < prec.

Lemma within_refl (v : R) : IEEE.within prec emax v v.
Proof.
  unfold IEEE.within. replace (v - v)%R with 0%R by ring. rewrite Rabs_R0.
  pose proof (Rabs_pos v). pose proof (bpow_pos (- prec)).
  pose proof (bpow_pos (emin prec emax - 1)). nra.
Qed.

Lemma binary_round_value (s : bool) (m : positive) (e : Z) :
  IEEE.finite (binary_round prec emax s m e) = true ->
  IEEE.within prec emax (IEEE.value (binary_round prec emax s m e))
    (IEEE.value (S754_finite s m e)).
Proof.
  unfold binary_round.
  pose proof (shl_align_value m e (fexp prec emax (Zpos (digits2_pos m) + e))) as Hv.
  destruct (shl_align m e _) as [mz ez]. cbn [fst snd] in Hv.
  intros Hfin. rewrite value_finite, Rmult_assoc, <- Hv, <- Rmult_assoc.
  apply binary_round_aux_value; assumption.
Qed.

Lemma binary_normalize_value (z e : Z) (szero : bool) :
  IEEE.finite (binary_normalize prec emax z e szero) = true ->
  IEEE.within prec emax (IEEE.value (binary_normalize prec emax z e szero))
    (IZR z * powerRZ 2 e).
Proof.
  destruct z as [|p|p]; cbn [binary_normalize]; intros Hfin.
  - cbn [IEEE.value]. rewrite Rmult_0_l. apply within_refl.
  - apply binary_round_value in Hfin. rewrite value_finite in Hfin.
    cbn [IEEE.sign] in Hfin. rewrite Rmult_1_l in Hfin. exact Hfin.
  - apply binary_round_value in Hfin. rewrite value_finite in Hfin.
    cbn [IEEE.sign] in Hfin.
    replace (IZR (Zneg p)) with (-1 * IZR (Zpos p))%R
      by (change (Zneg p) with (- Zpos p); rewrite opp_IZR; ring).
    exact Hfin.
Qed.

Lemma aligned_value (s : bool) (m : positive) (e ez : Z) :
  ez <= e ->
  (IZR (cond_Zopp s (Zpos (fst (shl_align m e ez)))) * powerRZ 2 ez
   = IEEE.value (S754_finite s m e))%R.
Proof.
  intros H. rewrite value_finite, IZR_cond_Zopp, shl_align_le, mult_IZR, IZR_pow2 by lia.
  replace e with (e - ez + ez) at 2 by lia. rewrite bpow_add. ring.
Qed.

Lemma SFadd_value (x y : spec_float) :
  IEEE.finite (SFadd prec emax x y) = true ->
  IEEE.finite x = true /\ IEEE.finite y = true /\
  IEEE.within prec emax (IEEE.value (SFadd prec emax x y)) (IEEE.value x + IEEE.value y).
Proof.
  destruct x as [sx|sx| |sx mx ex], y as [sy|sy| |sy my ey]; cbn [SFadd];
    intros Hfin; try discriminate Hfin;
    try (destruct sx, sy; discriminate Hfin);
    (split; [reflexivity|]); (split; [reflexivity|]).
  - destruct sx, sy; cbn [IEEE.value]; rewrite Rplus_0_l; apply within_refl.
  - cbn [IEEE.value]. rewrite Rplus_0_l. apply within_refl.
  - cbn [IEEE.value]. rewrite Rplus_0_r. apply within_refl.
  - apply binary_normalize_value in Hfin.
    rewrite plus_IZR, Rmult_plus_distr_r in Hfin.
    rewrite !aligned_value in Hfin by lia. exact Hfin.
Qed.

Lemma SFsub_value (x y : spec_float) :
  IEEE.finite (SFsub prec emax x y) = true ->
  IEEE.finite x = true /\ IEEE.finite y = true /\
  IEEE.within prec emax (IEEE.value (SFsub prec emax x y)) (IEEE.value x - IEEE.value y).
Proof.
  destruct x as [sx|sx| |sx mx ex], y as [sy|sy| |sy my ey]; cbn [SFsub];
    intros Hfin; try discriminate Hfin;
    try (destruct sx, sy; discriminate Hfin);
    (split; [reflexivity|]); (split; [reflexivity|]).
  - destruct sx, sy; cbn [IEEE.value]; rewrite Rminus_diag; apply within_refl.
  - rewrite !value_finite. cbn [IEEE.value].
    replace (0 - IEEE.sign sy * IZR (Zpos my) * powerRZ 2 ey)%R
      with (IEEE.sign (negb sy) * IZR (Zpos my) * powerRZ 2 ey)%R
      by (destruct sy; cbn [IEEE.sign negb]; ring).
    apply within_refl.
  - cbn [IEEE.value]. rewrite Rminus_0_r. apply within_refl.
  - apply binary_normalize_value in Hfin.
    rewrite minus_IZR, Rmult_minus_distr_r in Hfin.
    rewrite !aligned_value in Hfin by lia. exact Hfin.
Qed.

End Rounding.

Lemma SFmul_value (prec emax : Z) (x y : spec_float) :
  0 < prec ->
  IEEE.finite (SFmul prec emax x y) = true ->
  IEEE.finite x = true /\ IEEE.finite y = true /\
  IEEE.within prec emax (IEEE.value (SFmul prec emax x y)) (IEEE.value x * IEEE.value y).
Proof.
  intros Hprec.
  destruct x as [sx|sx| |sx mx ex], y as [sy|sy| |sy my ey]; cbn [SFmul];
    intros Hfin; try discriminate Hfin;
    (split; [reflexivity|]); (split; [reflexivity|]).
  - cbn [IEEE.value]. rewrite Rmult_0_l. apply within_refl.
  - cbn [IEEE.value]. rewrite Rmult_0_l. apply within_refl.
  - cbn [IEEE.value]. rewrite Rmult_0_r. apply within_refl.
  - apply binary_round_aux_value in Hfin; [|assumption].
    rewrite !value_finite. unfold IEEE.within.
    replace (IEEE.sign sx * IZR (Zpos mx) * powerRZ 2 ex
             * (IEEE.sign sy * IZR (Zpos my) * powerRZ 2 ey))%R
      with (IEEE.sign (xorb sx sy) * IZR (Zpos (mx * my)) * powerRZ 2 (ex + ey))%R.
    + exact Hfin.
    + rewrite Pos2Z.inj_mul, mult_IZR, bpow_add. destruct sx, sy; cbn [IEEE.sign xorb]; ring.
Qed.

Lemma round32_value (x : spec_float) :
  IEEE.finite (IEEE.round32 x) = true ->
  IEEE.finite x = true /\
  IEEE.within IEEE.prec32 IEEE.emax32 (IEEE.value (IEEE.round32 x)) (IEEE.value x).
Proof.
  destruct x as [s|s| |s m e]; cbn [IEEE.round32]; intros Hfin; try discriminate Hfin.
  - split; [reflexivity|]. apply within_refl.
  - split; [reflexivity|]. apply binary_round_value; [reflexivity|assumption].
Qed.

(** Chains of roundings in the expressions of [idle]. *)

Lemma Rabs_bounds (x b : R) : (Rabs x <= b)%R -> (- b <= x <= b)%R.
Proof.
  intros H. pose proof (Rle_abs x). pose proof (Rle_abs (- x)) as H'.
  rewrite Rabs_Ropp in H'. lra.
Qed.

Lemma bpow_neg (k : Z) : 0 <= k -> powerRZ 2 (- k) = (/ IZR (2 ^ k))%R.
Proof.
  intros Hk. rewrite IZR_pow2 by assumption.
  pose proof (bpow_pos k) as Hp.
  apply Rmult_eq_reg_r with (powerRZ 2 k); [|lra].
  rewrite <- bpow_add, Rinv_l by lra.
  replace (- k + k) with 0 by lia. reflexivity.
Qed.

(** Two roundings to binary64 and two to binary32, as [(a + d) - d]
    goes through them. *)
Lemma round_trip_bound (a d s1 t1 s2 r : R) :
  IEEE.within IEEE.prec64 IEEE.emax64 s1 (a + d) ->
  IEEE.within IEEE.prec32 IEEE.emax32 t1 s1 ->
  IEEE.within IEEE.prec64 IEEE.emax64 s2 (t1 - d) ->
  IEEE.within IEEE.prec32 IEEE.emax32 r s2 ->
  (Rabs (r - a) <= powerRZ 2 (-22) * (Rabs a + Rabs d) + powerRZ 2 (-148))%R.
Proof.
  unfold IEEE.within.
  change (emin IEEE.prec64 IEEE.emax64 - 1) with (-1075).
  change (emin IEEE.prec32 IEEE.emax32 - 1) with (-150).
  change (- IEEE.prec64) with (- (53)). change (- IEEE.prec32) with (- (24)).
  change (-22) with (- (22)).
  rewrite !bpow_neg by lia.
  change (2 ^ 53) with 9007199254740992. change (2 ^ 24) with 16777216.
  change (2 ^ 22) with 4194304.
  assert (Hz : powerRZ 2 (-148) = (4 * powerRZ 2 (-150))%R).
  { rewrite (bpow_half (-148)), (bpow_half (-148 - 1)). change (-148 - 1 - 1) with (-150). ring. }
  assert (Hn : (2 * powerRZ 2 (-1075) <= powerRZ 2 (-150))%R).
  { rewrite (bpow_half (-150)). change (-150 - 1) with (-151).
    pose proof (bpow_le (-1075) (-151) ltac:(lia)). lra. }
  rewrite Hz.
  pose proof (bpow_pos (-1075)) as Hn0. pose proof (bpow_pos (-150)) as Hz0.
  set (n := powerRZ 2 (-1075)) in *. set (z := powerRZ 2 (-150)) in *.
  intros H1 H2 H3 H4.
  pose proof (Rabs_bounds _ _ (Rle_refl (Rabs a))) as Ha.
  pose proof (Rabs_bounds _ _ (Rle_refl (Rabs d))) as Hd.
  set (A := Rabs a) in *. set (D := Rabs d) in *.
  assert (B0 : (Rabs (a + d) <= A + D)%R) by (apply Rabs_le; lra).
  apply Rabs_bounds in H1.
  assert (B1 : (Rabs s1 <= (1 + / 9007199254740992) * (A + D) + n)%R)
    by (apply Rabs_le; lra).
  apply Rabs_bounds in H2.
  assert (B2 : (Rabs (t1 - d) <= A + (/ 16777216 * Rabs s1 + z)
                                  + (/ 9007199254740992 * Rabs (a + d) + n))%R)
    by (apply Rabs_le; lra).
  apply Rabs_bounds in H3.
  pose proof (Rabs_bounds _ _ (Rle_refl (Rabs (t1 - d)))) as Ht.
  assert (B3 : (Rabs s2 <= (1 + / 9007199254740992) * Rabs (t1 - d) + n)%R)
    by (apply Rabs_le; lra).
  apply Rabs_bounds in H4.
  apply Rabs_le. lra.
Qed.

Lemma value_opp (x : spec_float) : IEEE.value (SFopp x) = (- IEEE.value x)%R.
Proof.
  destruct x as [s|s| |s m e]; cbn [SFopp IEEE.value]; try ring.
  rewrite !IZR_cond_Zopp. destruct s; cbn [IEEE.sign negb]; ring.
Qed.

Lemma value_exact (s : bool) (m : positive) (e k : Z) :
  e <= 0 -> Zpos m = k * 2 ^ (- e) ->
  IEEE.value (S754_finite s m e) = (IEEE.sign s * IZR k)%R.
Proof.
  intros He Hm. rewrite value_finite, Hm, mult_IZR, IZR_pow2 by lia.
  rewrite !Rmult_assoc, <- bpow_add. replace (- e + e) with 0 by lia.
  cbn [powerRZ]. ring.
Qed.

Lemma value_five : IEEE.value (IEEE.of_int64 5) = 5%R.
Proof.
  change (IEEE.of_int64 5) with (S754_finite false 5629499534213120 (-50)).
  rewrite (value_exact false _ (-50) 5) by (try reflexivity; lia).
  cbn [IEEE.sign]. ring.
Qed.

Lemma Rabs_self (x : R) : (- Rabs x <= x <= Rabs x)%R.
Proof. apply Rabs_bounds, Rle_refl. Qed.

(** One step of a walk: [x' = (GLfloat)(x + dt * 5.0 * v)], where [v] is a
    sine or a cosine.  If [x] and [x'] are within [M] of the origin, [x']
    is within [2^-23 * M + 2^-149] of the exact sum. *)
Lemma step_value (x dt v : spec_float) (M : R) :
  let x' := IEEE.round32
              (SFadd IEEE.prec64 IEEE.emax64 x
                 (SFmul IEEE.prec64 IEEE.emax64
                    (SFmul IEEE.prec64 IEEE.emax64 dt (IEEE.of_int64 5)) v)) in
  IEEE.finite x' = true ->
  (Rabs (IEEE.value x) <= M)%R -> (Rabs (IEEE.value x') <= M)%R ->
  (Rabs (IEEE.value v) <= 1)%R ->
  IEEE.finite x = true /\
  (Rabs (IEEE.value x' - (IEEE.value x + 5 * IEEE.value dt * IEEE.value v))
   <= powerRZ 2 (-23) * M + powerRZ 2 (-149))%R.
Proof.
  intros x' Hfin Hx Hx' Hv. subst x'.
  set (p := SFmul IEEE.prec64 IEEE.emax64 dt (IEEE.of_int64 5)) in *.
  set (d := SFmul IEEE.prec64 IEEE.emax64 p v) in *.
  set (s := SFadd IEEE.prec64 IEEE.emax64 x d) in *.
  apply round32_value in Hfin as [Hfs H32].
  apply SFadd_value in Hfs as (Hfx & Hfd & H64); [|reflexivity].
  apply SFmul_value in Hfd as (Hfp & _ & Hd); [|reflexivity].
  apply SFmul_value in Hfp as (_ & _ & Hp); [|reflexivity].
  rewrite value_five in Hp.
  split; [exact Hfx|].
  fold p in Hp, Hd. fold d in Hd, H64. fold s in H64, H32.
  revert Hp Hd H64 H32 Hx Hx' Hv.
  generalize (IEEE.value (IEEE.round32 s)) (IEEE.value s) (IEEE.value d)
             (IEEE.value p) (IEEE.value x) (IEEE.value dt) (IEEE.value v).
  intros vx' vs vd vp vx vdt vv.
  unfold IEEE.within.
  change (emin IEEE.prec64 IEEE.emax64 - 1) with (-1075).
  change (emin IEEE.prec32 IEEE.emax32 - 1) with (-150).
  change (- IEEE.prec64) with (- (53)). change (- IEEE.prec32) with (- (24)).
  change (-23) with (- (23)).
  rewrite !bpow_neg by lia.
  change (2 ^ 53) with 9007199254740992. change (2 ^ 24) with 16777216.
  change (2 ^ 23) with 8388608.
  assert (Hz : powerRZ 2 (-149) = (2 * powerRZ 2 (-150))%R).
  { rewrite (bpow_half (-149)). reflexivity. }
  assert (Hn : (16 * powerRZ 2 (-1075) <= powerRZ 2 (-150))%R).
  { rewrite (bpow_half (-150)), (bpow_half (-150 - 1)), (bpow_half (-150 - 1 - 1)),
      (bpow_half (-150 - 1 - 1 - 1)).
    change (-150 - 1 - 1 - 1 - 1) with (-154).
    pose proof (bpow_le (-1075) (-154) ltac:(lia)). lra. }
  rewrite Hz.
  pose proof (bpow_pos (-1075)) as Hn0. pose proof (bpow_pos (-150)) as Hz0.
  set (n := powerRZ 2 (-1075)) in *. set (z := powerRZ 2 (-150)) in *.
  intros Hp Hd H64 H32 Hx Hx' Hv.
  set (P := (5 * vdt * vv)%R).
  assert (HP : (Rabs (vp * vv - P) <= / 9007199254740992 * Rabs P + n)%R).
  { replace (vp * vv - P)%R with ((vp - vdt * 5) * vv)%R by (unfold P; ring).
    replace P with ((vdt * 5) * vv)%R by (unfold P; ring).
    rewrite !Rabs_mult in *.
    pose proof (Rabs_pos vv). pose proof (Rabs_pos vdt). pose proof (Rabs_pos 5).
    pose proof (Rabs_pos (vp - vdt * 5)).
    assert (0 <= Rabs vdt * Rabs 5)%R by (apply Rmult_le_pos; assumption).
    nra. }
  clear Hp.
  apply Rabs_bounds in Hx, Hx', H32, H64, Hd, HP.
  pose proof (Rabs_self vs). pose proof (Rabs_self (vx + vd)).
  pose proof (Rabs_self (vp * vv)). pose proof (Rabs_self P).
  assert (B1 : (Rabs vs <= M + (/ 16777216 * Rabs vs + z))%R) by (apply Rabs_le; lra).
  assert (B2 : (Rabs (vx + vd) <= Rabs vs + (/ 9007199254740992 * Rabs (vx + vd) + n))%R)
    by (apply Rabs_le; lra).
  assert (B3 : (Rabs (vp * vv) <= M + Rabs (vx + vd)
                                  + (/ 9007199254740992 * Rabs (vp * vv) + n))%R)
    by (apply Rabs_le; lra).
  assert (B4 : (Rabs P <= Rabs (vp * vv) + (/ 9007199254740992 * Rabs P + n))%R)
    by (apply Rabs_le; lra).
  apply Rabs_le. lra.
Qed.

(** The accumulator after a tick: [(GLfloat)(_cycle + dt)], one rounding
    to binary64 and one to binary32 away from the exact sum. *)
Lemma cycle_value (c dt : spec_float) :
  let c' := IEEE.round32 (SFadd IEEE.prec64 IEEE.emax64 c dt) in
  IEEE.finite c' = true ->
  IEEE.finite c = true /\ IEEE.finite dt = true /\
  (Rabs (IEEE.value c' - (IEEE.value c + IEEE.value dt))
   <= powerRZ 2 (-23) * Rabs (IEEE.value c + IEEE.value dt) + powerRZ 2 (-149))%R.
Proof.
  intros c' Hfin. subst c'.
  set (s := SFadd IEEE.prec64 IEEE.emax64 c dt) in *.
  apply round32_value in Hfin as [Hfs H32].
  apply SFadd_value in Hfs as (Hfc & Hfd & H64); [|reflexivity].
  split; [exact Hfc|]. split; [exact Hfd|].
  fold s in H64, H32. revert H64 H32.
  generalize (IEEE.value (IEEE.round32 s)) (IEEE.value s)
             (IEEE.value c + IEEE.value dt)%R.
  intros vc' vs v.
  unfold IEEE.within.
  change (emin IEEE.prec64 IEEE.emax64 - 1) with (-1075).
  change (emin IEEE.prec32 IEEE.emax32 - 1) with (-150).
  change (- IEEE.prec64) with (- (53)). change (- IEEE.prec32) with (- (24)).
  change (-23) with (- (23)).
  rewrite !bpow_neg by lia.
  change (2 ^ 53) with 9007199254740992. change (2 ^ 24) with 16777216.
  change (2 ^ 23) with 8388608.
  assert (Hz : powerRZ 2 (-149) = (2 * powerRZ 2 (-150))%R).
  { rewrite (bpow_half (-149)). reflexivity. }
  assert (Hn : (2 * powerRZ 2 (-1075) <= powerRZ 2 (-150))%R).
  { rewrite (bpow_half (-150)). change (-150 - 1) with (-151).
    pose proof (bpow_le (-1075) (-151) ltac:(lia)). lra. }
  rewrite Hz.
  pose proof (bpow_pos (-1075)) as Hn0. pose proof (bpow_pos (-150)) as Hz0.
  set (n := powerRZ 2 (-1075)) in *. set (z := powerRZ 2 (-150)) in *.
  intros H1 H2.
  pose proof (Rabs_bounds _ _ (Rle_refl (Rabs v))) as Hv.
  pose proof (Rabs_pos v) as Hv0.
  set (V := Rabs v) in *.
  apply Rabs_bounds in H1.
  assert (B1 : (Rabs vs <= (1 + / 9007199254740992) * V + n)%R)
    by (apply Rabs_le; lra).
  apply Rabs_bounds in H2.
  apply Rabs_le. lra.
Qed.

(** *** Truncation over the reals *)

Lemma exact_trunc_range (x : R) (n : Z) :
  Exact.leb (IZR 0) x = true ->
  Exact.ltb x (IZR n) = true ->
  0 <= Exact.trunc x < n.
Proof.
  unfold Exact.leb, Exact.ltb, Exact.trunc.
  destruct (Rle_dec 0 x) as [H0|]; [intros _|discriminate].
  destruct (Rlt_dec x (IZR n)) as [Hn|]; [intros _|discriminate].
  destruct (base_Int_part x) as [Hlo Hhi].
  split.
  - assert (IZR (-1) < IZR (Int_part x))%R as H by (simpl; lra).
    apply lt_IZR in H. lia.
  - apply lt_IZR. lra.
Qed.

Lemma ieee_ok (sn cs : spec_float -> spec_float) : arith_ok (ieee sn cs).
Proof.
  constructor. intros x n Hn. cbn. apply ieee_trunc_range; assumption.
Qed.

Lemma exact_ok : arith_ok exact.
Proof.
  constructor. intros x n _. cbn. apply exact_trunc_range.
Qed.

(* ================================================================= *)
(** ** The height-field accessor *)

(** *** The call log *)

Lemma emit_all_calls {A : arith} (cs : list (call A)) (s : state A) :
  emit_all cs s = set_calls (calls s ++ cs) s.
Proof.
  revert s. induction cs as [|c cs IH]; intros s.
  - cbn [emit_all]. rewrite app_nil_r. destruct s; reflexivity.
  - cbn [emit_all]. rewrite IH. unfold emit. cbn [calls set_calls].
    rewrite <- app_assoc. reflexivity.
Qed.

(** *** [int] arithmetic without overflow *)

Lemma int32_small (n : Z) : -2147483648 <= n <= 2147483647 -> int32 n = n.
Proof.
  intros H. unfold int32. rewrite Z.mod_small by lia. lia.
Qed.

Lemma sample_index_exact {A : arith} (s : state A) (x z : f32 A) :
  0 <= int_of_f32 A x < _landscape_w s ->
  0 <= int_of_f32 A z < _landscape_h s ->
  _landscape_w s * _landscape_h s <= 2147483647 ->
  sample_index s x z = int_of_f32 A x + int_of_f32 A z * _landscape_w s
  /\ 0 <= sample_index s x z < _landscape_w s * _landscape_h s.
Proof.
  intros Hx Hz Hwh. unfold sample_index.
  assert (0 <= int_of_f32 A z * _landscape_w s <= (_landscape_h s - 1) * _landscape_w s) by nia.
  rewrite (int32_small (int_of_f32 A z * _ )) by nia.
  rewrite int32_small by nia. split; [reflexivity|nia].
Qed.

(** A pair of grid coordinates that passes the test of
    [heightMapAltitude] truncates to a node of the grid, and the sample
    of that node is read inside the height map. *)
Lemma in_grid_node {A : arith} (s : state A) (gx gz : f32 A) (cells : list (f32 A)) :
  arith_ok A -> heightMap_ready s cells ->
  in_grid s gx gz = true ->
  0 <= int_of_f32 A gx < _landscape_w s /\
  0 <= int_of_f32 A gz < _landscape_h s /\
  exists v : f32 A,
    load s (_heightMap s) (sample_index s gx gz) = Some v /\
    nth_error cells
      (Z.to_nat (int_of_f32 A gx + int_of_f32 A gz * _landscape_w s)) = Some v.
Proof.
  intros ok [Hw Hh Hint Hptr Hblock Hsize] Hin.
  unfold in_grid in Hin.
  apply andb_prop in Hin. destruct Hin as [Hin Hzh].
  apply andb_prop in Hin. destruct Hin as [Hin Hz0].
  apply andb_prop in Hin. destruct Hin as [Hx0 Hxw].
  pose proof (trunc_range A ok gx _ Hw Hx0 Hxw) as Hix.
  pose proof (trunc_range A ok gz _ Hh Hz0 Hzh) as Hiz.
  destruct (sample_index_exact s gx gz Hix Hiz Hint) as [Hidx Hrange].
  split; [exact Hix|]. split; [exact Hiz|].
  unfold load. apply Z.eqb_neq in Hptr. rewrite Hptr, Hblock, Hidx.
  assert (Hneg : (int_of_f32 A gx + int_of_f32 A gz * _landscape_w s <? 0) = false)
    by (apply Z.ltb_ge; lia).
  rewrite Hneg.
  destruct (nth_error cells
              (Z.to_nat (int_of_f32 A gx + int_of_f32 A gz * _landscape_w s)))
    as [v|] eqn:Hnth.
  - exists v. split; reflexivity.
  - exfalso. apply nth_error_None in Hnth. lia.
Qed.

(** C1, as amended.  [heightMapAltitude] maps the world coordinates to
    the grid by [gx = (w >> 1) + (x / scale_xz) * (w / 2.0)] and
    [gz = (h >> 1) - (z / scale_xz) * (h / 2.0)]: the offset is the
    integer half of the dimension, the factor its exact half, and each
    result is stored in a [GLfloat].  When these numbers themselves pass
    the test [0 <= gx < w], [0 <= gz < h] (made before any truncation),
    the truncated coordinates are a node of the grid, the sample [v] at
    index [(int)gx + (int)gz * w] is read inside the height map, and the
    result is [(2 * v - 1) * scale_y]. *)
Theorem heightMapAltitude_inside (A : arith) (s : state A) (x z : f32 A)
    (cells : list (f32 A)) :
  arith_ok A ->
  heightMap_ready s cells ->
  let w := _landscape_w s in
  let h := _landscape_h s in
  let gx := demote A (add64 A (f64_of_int A (Z.shiftr w 1))
              (mul64 A (promote A (div32 A x (_landscape_scale_xz s)))
                       (div64 A (f64_of_int A w) (f64_of_int A 2)))) in
  let gz := demote A (sub64 A (f64_of_int A (Z.shiftr h 1))
              (mul64 A (promote A (div32 A z (_landscape_scale_xz s)))
                       (div64 A (f64_of_int A h) (f64_of_int A 2)))) in
  le64 A (f64_of_int A 0) (promote A gx) = true ->
  lt32 A gx (f32_of_int A w) = true ->
  le64 A (f64_of_int A 0) (promote A gz) = true ->
  lt32 A gz (f32_of_int A h) = true ->
  exists v : f32 A,
    0 <= int_of_f32 A gx < w /\ 0 <= int_of_f32 A gz < h /\
    nth_error cells (Z.to_nat (int_of_f32 A gx + int_of_f32 A gz * w)) = Some v /\
    heightMapAltitude s x z =
      Some (demote A (mul64 A (sub64 A (mul64 A (f64_of_int A 2) (promote A v))
                                       (f64_of_int A 1))
                              (promote A (_landscape_scale_y s)))).
Proof.
  intros ok Hready w h gx gz Hx0 Hxw Hz0 Hzh.
  assert (Hin : in_grid s gx gz = true).
  { unfold in_grid. fold w h. rewrite Hx0, Hxw, Hz0, Hzh. reflexivity. }
  destruct (in_grid_node s gx gz cells ok Hready Hin) as (Hix & Hiz & v & Hload & Hnth).
  exists v. split; [exact Hix|]. split; [exact Hiz|]. split; [exact Hnth|].
  unfold heightMapAltitude.
  change (grid_x s x) with gx. change (grid_z s z) with gz.
  rewrite Hin, Hload. reflexivity.
Qed.

Lemma field_ready (A : arith) (cells : list (f32 A)) (keys : list Z) :
  List.length cells = 25%nat ->
  heightMap_ready (Sample.field A cells keys) cells.
Proof.
  intros Hlen. constructor; cbn; try lia; try reflexivity.
Qed.

Lemma field5_ready (A : arith) (v : f32 A) (keys : list Z) :
  heightMap_ready (Sample.field5 A v keys) (repeat v 25).
Proof. apply field_ready. apply repeat_length. Qed.

(** The two scenarios of the specification: on a 5 x 5 field with
    horizontal scale 10 and vertical scale 2, the altitude at the origin
    is 0 when every sample is 0.5, and 2 once the central sample is 1. *)
Lemma heightMapAltitude_inside_witness :
  heightMapAltitude (Sample.field5 Sample.c99 (Sample.half Sample.c99) [0; 0; 0; 0])
                    (IEEE.of_int32 0) (IEEE.of_int32 0)
  = Some (IEEE.of_int32 0)
  /\
  heightMapAltitude (Sample.peak5 Sample.c99) (IEEE.of_int32 0) (IEEE.of_int32 0)
  = Some (IEEE.of_int32 2).
Proof.
  split.
  - destruct (heightMapAltitude_inside Sample.c99
                (Sample.field5 Sample.c99 (Sample.half Sample.c99) [0; 0; 0; 0])
                (IEEE.of_int32 0) (IEEE.of_int32 0) _
                (ieee_ok _ _) (field5_ready _ _ _)
                eq_refl eq_refl eq_refl eq_refl) as (v & _ & _ & Hv & Hr).
    rewrite Hr. vm_compute in Hv. injection Hv as <-. vm_compute. reflexivity.
  - assert (Hready : heightMap_ready (Sample.peak5 Sample.c99)
                       (repeat (Sample.half Sample.c99) 12
                        ++ [IEEE.of_int32 1] ++ repeat (Sample.half Sample.c99) 12))
      by (apply field_ready; reflexivity).
    destruct (heightMapAltitude_inside Sample.c99 (Sample.peak5 Sample.c99)
                (IEEE.of_int32 0) (IEEE.of_int32 0) _
                (ieee_ok _ _) Hready
                eq_refl eq_refl eq_refl eq_refl) as (v & _ & _ & Hv & Hr).
    rewrite Hr. vm_compute in Hv. injection Hv as <-. vm_compute. reflexivity.
Defined.

(** C1, counterexample, on 5 x 5 fields with horizontal scale 10 and
    vertical scale 2.

    First, samples all 1.0 and the world point (-10, 0): the grid
    abscissa is -0.5 (0.0 with the offset W/2 of the specification).  Truncated, that
    is column 0 of row 2, a node whose sample remaps to 2; the function
    returns 0, because -0.5 fails [x >= 0.0].

    Second, samples 0.5 with 1.0 at the centre and the world point
    (2, 0): the specification's formula gives the abscissa
    2.5 + 0.2 * 2.5 = 3.0,
    column 3, whose sample 0.5 remaps to 0; the function computes
    2 + 0.2 * 2.5 = 2.5, reads the centre and returns 2. *)
Lemma heightMapAltitude_counterexample :
  (let s := Sample.field5 Sample.c99 (IEEE.of_int32 1) [0; 0; 0; 0] in
   let x := IEEE.of_int32 (-10) in
   let z := IEEE.of_int32 0 in
   (IEEE.trunc (claimed_grid_x s x) = 0 /\ IEEE.trunc (claimed_grid_z s z) = 2) /\
   (IEEE.trunc (grid_x s x) = 0 /\ IEEE.trunc (grid_z s z) = 2) /\
   load s (_heightMap s) (0 + 2 * _landscape_w s) = Some (IEEE.of_int32 1) /\
   remap s (IEEE.of_int32 1) = IEEE.of_int32 2 /\
   heightMapAltitude s x z = Some (IEEE.of_int32 0))
  /\
  (let s := Sample.peak5 Sample.c99 in
   let x := IEEE.of_int32 2 in
   let z := IEEE.of_int32 0 in
   (IEEE.trunc (claimed_grid_x s x) = 3 /\ IEEE.trunc (claimed_grid_z s z) = 2) /\
   load s (_heightMap s) (3 + 2 * _landscape_w s) = Some (Sample.half Sample.c99) /\
   remap s (Sample.half Sample.c99) = IEEE.of_int32 0 /\
   heightMapAltitude s x z = Some (IEEE.of_int32 2))
  /\
  IEEE.eqb (IEEE.of_int32 0) (IEEE.of_int32 2) = false.
Proof.
  vm_compute. repeat split; reflexivity.
Qed.

(** C2, as amended.  When the grid coordinates that the function
    computes from (x, z), with the offset [W >> 1], fail one of the
    four tests [0 <= gx], [gx < w], [0 <= gz], [gz < h],
    [heightMapAltitude] returns 0 and reads no memory: the result is
    [Some], whatever [_heightMap] points to.  First for every
    arithmetic, with its own comparisons (on IEEE floats a NaN fails
    them all); then spelled out over the reals. *)
Theorem heightMapAltitude_outside :
  (forall (A : arith) (s : state A) (x z : f32 A),
      let w := _landscape_w s in
      let h := _landscape_h s in
      let gx := demote A (add64 A (f64_of_int A (Z.shiftr w 1))
                  (mul64 A (promote A (div32 A x (_landscape_scale_xz s)))
                           (div64 A (f64_of_int A w) (f64_of_int A 2)))) in
      let gz := demote A (sub64 A (f64_of_int A (Z.shiftr h 1))
                  (mul64 A (promote A (div32 A z (_landscape_scale_xz s)))
                           (div64 A (f64_of_int A h) (f64_of_int A 2)))) in
      le64 A (f64_of_int A 0) (promote A gx) = false \/
      lt32 A gx (f32_of_int A w) = false \/
      le64 A (f64_of_int A 0) (promote A gz) = false \/
      lt32 A gz (f32_of_int A h) = false ->
      heightMapAltitude s x z = Some (f32_of_int A 0))
  /\
  (forall (s : state exact) (x z : R),
      let w := IZR (_landscape_w s) in
      let h := IZR (_landscape_h s) in
      let gx := (IZR (Z.shiftr (_landscape_w s) 1)
                 + x / _landscape_scale_xz s * (w / 2))%R in
      let gz := (IZR (Z.shiftr (_landscape_h s) 1)
                 - z / _landscape_scale_xz s * (h / 2))%R in
      (gx < 0 \/ w <= gx \/ gz < 0 \/ h <= gz)%R ->
      heightMapAltitude s x z = Some 0%R).
Proof.
  assert (generic : forall (A : arith) (s : state A) (x z : f32 A),
             in_grid s (grid_x s x) (grid_z s z) = false ->
             heightMapAltitude s x z = Some (f32_of_int A 0)).
  { intros A s x z H. unfold heightMapAltitude. rewrite H. reflexivity. }
  split.
  - intros A s x z w h gx gz H. apply generic.
    change (grid_x s x) with gx. change (grid_z s z) with gz.
    unfold in_grid. fold w h.
    destruct H as [H|[H|[H|H]]]; rewrite H;
      rewrite ?andb_false_r, ?andb_false_l; reflexivity.
  - intros s x z w h gx gz H. apply (generic exact).
    change (in_grid s (grid_x s x) (grid_z s z))
      with (Exact.leb 0 gx && Exact.ltb gx w && Exact.leb 0 gz && Exact.ltb gz h).
    unfold Exact.leb, Exact.ltb.
    destruct (Rle_dec 0 gx), (Rlt_dec gx w), (Rle_dec 0 gz), (Rlt_dec gz h);
      try reflexivity. exfalso. lra.
Qed.

(** World abscissa 20 on the field of scale 10 (IEEE), and world
    ordinate -12 over the reals: both outside, both 0. *)
Lemma heightMapAltitude_outside_witness :
  heightMapAltitude (Sample.field5 Sample.c99 (IEEE.of_int32 1) [0; 0; 0; 0])
                    (IEEE.of_int32 20) (IEEE.of_int32 0)
  = Some (IEEE.of_int32 0)
  /\
  heightMapAltitude (Sample.field5 exact 1%R [0; 0; 0; 0]) 3%R (-12)%R = Some 0%R.
Proof.
  split.
  - apply (proj1 heightMapAltitude_outside Sample.c99).
    right. left. vm_compute. reflexivity.
  - apply (proj2 heightMapAltitude_outside). cbn. right. right. right. lra.
Defined.

(** C2, counterexample.  Two world points that the mapping of the
    specification puts outside the grid and at which the function
    returns an altitude other than 0.

    First the 5 x 5 field of scale 10 with samples 1.0 and the world
    point (10, 0): the specification's abscissa is 2.5 + 1 * 2.5 = 5.0,
    not below W = 5; the function computes 2 + 1 * 2.5 = 4.5, passes its
    tests, reads column 4 of row 2 and returns 2.

    Then the program's own dimensions, 513 x 513 with scale 100, samples
    1.0 and the world point (100, 0): 256.5 + 256.5 = 513 by the
    specification, 256 + 256.5 = 512.5 in the function, which reads
    column 512 of row 256 and returns 10. *)
Lemma heightMapAltitude_outside_counterexample :
  (let s := Sample.field5 Sample.c99 (IEEE.of_int32 1) [0; 0; 0; 0] in
   let x := IEEE.of_int32 10 in
   let z := IEEE.of_int32 0 in
   IEEE.eqb (claimed_grid_x s x) (IEEE.of_int32 5) = true /\
   IEEE.ltb (claimed_grid_x s x) (IEEE.of_int32 (_landscape_w s)) = false /\
   IEEE.trunc (claimed_grid_x s x) = 5 /\
   IEEE.trunc (grid_x s x) = 4 /\ IEEE.trunc (grid_z s z) = 2 /\
   heightMapAltitude s x z = Some (IEEE.of_int32 2))
  /\
  (let s := set_heap (A := Sample.c99)
              [(4096, repeat (IEEE.of_int32 1) (Z.to_nat (513 * 513)))]
              (set_heightMap 4096 (Sample.initial Sample.c99)) in
   let x := IEEE.of_int32 100 in
   let z := IEEE.of_int32 0 in
   IEEE.eqb (claimed_grid_x s x) (IEEE.of_int32 513) = true /\
   IEEE.ltb (claimed_grid_x s x) (IEEE.of_int32 (_landscape_w s)) = false /\
   IEEE.trunc (claimed_grid_x s x) = 513 /\
   IEEE.trunc (grid_x s x) = 512 /\ IEEE.trunc (grid_z s z) = 256 /\
   heightMapAltitude s x z = Some (IEEE.of_int32 10))
  /\
  IEEE.eqb (IEEE.of_int32 2) (IEEE.of_int32 0) = false /\
  IEEE.eqb (IEEE.of_int32 10) (IEEE.of_int32 0) = false.
Proof.
  vm_compute. repeat split; reflexivity.
Qed.
(* ================================================================= *)
(** ** The camera controller *)

Section Tick.
Context {A : arith}.
Implicit Types (s : state A) (dt : f64 A).

Lemma idle_dt_keys s dt : _keys (idle_dt dt s) = _keys s.
Proof. idle_cases s; reflexivity. Qed.

Lemma idle_dt_key s dt k : key (idle_dt dt s) k = key s k.
Proof. unfold key. rewrite idle_dt_keys. reflexivity. Qed.

Lemma ticks_keys (dts : list (f64 A)) s : _keys (ticks dts s) = _keys s.
Proof.
  revert s. induction dts as [|dt dts IH]; intros s; [reflexivity|].
  cbn [ticks]. rewrite IH. apply idle_dt_keys.
Qed.

(** The yaw after a tick, by the two rotation flags. *)
Lemma idle_dt_theta s dt :
  cam_theta (_cam (idle_dt dt s)) =
    let th := cam_theta (_cam s) in
    let left := demote A (add64 A (promote A th) (mul64 A dt (M_PI A))) in
    match key s KLEFT, key s KRIGHT with
    | true, false => left
    | false, true => demote A (sub64 A (promote A th) (mul64 A dt (M_PI A)))
    | true, true => demote A (sub64 A (promote A left) (mul64 A dt (M_PI A)))
    | false, false => th
    end.
Proof. idle_cases s; reflexivity. Qed.

(** The position after a tick, by the two translation flags; [th] is
    the yaw that the rotation step of the same tick leaves. *)
Lemma idle_dt_position s dt :
  let th := promote A (cam_theta (_cam (idle_dt dt s))) in
  let fwd v f := demote A (add64 A (promote A v)
                   (mul64 A (mul64 A (neg64 A dt) (f64_of_int A 5)) (f th))) in
  let bwd v f := demote A (add64 A (promote A v)
                   (mul64 A (mul64 A dt (f64_of_int A 5)) (f th))) in
  let step v f :=
    match key s KUP, key s KDOWN with
    | true, false => fwd v f
    | false, true => bwd v f
    | true, true => bwd (fwd v f) f
    | false, false => v
    end in
  cam_x (_cam (idle_dt dt s)) = step (cam_x (_cam s)) (sin64 A) /\
  cam_z (_cam (idle_dt dt s)) = step (cam_z (_cam s)) (cos64 A).
Proof. idle_cases s; split; reflexivity. Qed.

Lemma idle_dt_cycle s dt :
  _cycle (idle_dt dt s) = demote A (add64 A (promote A (_cycle s)) dt).
Proof. idle_cases s; reflexivity. Qed.

Lemma idle_dt_released s dt :
  key s KLEFT = false -> key s KRIGHT = false ->
  key s KUP = false -> key s KDOWN = false ->
  idle_dt dt s = set_cycle (demote A (add64 A (promote A (_cycle s)) dt)) s.
Proof.
  intros HL HR HU HD. idle_cases s; congruence.
Qed.

End Tick.

(** C10, as amended.  In a tick during which none of the four key flags
    is set, the camera pose is left as it was, and [_cycle] becomes
    [(GLfloat)(_cycle + dt)], where [dt] is the time elapsed since the
    previous tick, in seconds.  Over the reals that is [_cycle + dt]; in
    IEEE arithmetic it is the sum rounded to binary64 and then to
    binary32, within [2^-23 * |_cycle + dt| + 2^-149] of it. *)
Theorem idle_without_keys :
  (forall (A : arith) (s : state A) (t : f64 A),
     key s KLEFT = false -> key s KRIGHT = false ->
     key s KUP = false -> key s KDOWN = false ->
     let dt := div64 A (sub64 A t (t0 s)) (f64_of_int A 1000) in
     _cam (idle t s) = _cam s /\
     _cycle (idle t s) = demote A (add64 A (promote A (_cycle s)) dt) /\
     _cam (idle_dt dt s) = _cam s /\
     _cycle (idle_dt dt s) = demote A (add64 A (promote A (_cycle s)) dt))
  /\
  (forall (s : state exact) (t : R),
     key s KLEFT = false -> key s KRIGHT = false ->
     key s KUP = false -> key s KDOWN = false ->
     _cam (idle (A := exact) t s) = _cam s /\
     _cycle (idle (A := exact) t s) = (_cycle s + (t - t0 s) / 1000)%R)
  /\
  (forall (sn cs : spec_float -> spec_float) (s : state (ieee sn cs)) (t : spec_float),
     key s KLEFT = false -> key s KRIGHT = false ->
     key s KUP = false -> key s KDOWN = false ->
     let dt := SFdiv IEEE.prec64 IEEE.emax64 (SFsub IEEE.prec64 IEEE.emax64 t (t0 s))
                 (IEEE.of_int64 1000) in
     IEEE.finite (_cycle (idle (A := ieee sn cs) t s)) = true ->
     _cam (idle (A := ieee sn cs) t s) = _cam s /\
     IEEE.finite (_cycle s) = true /\ IEEE.finite dt = true /\
     (Rabs (IEEE.value (_cycle (idle (A := ieee sn cs) t s))
            - (IEEE.value (_cycle s) + IEEE.value dt))
      <= powerRZ 2 (-23) * Rabs (IEEE.value (_cycle s) + IEEE.value dt)
         + powerRZ 2 (-149))%R).
Proof.
  assert (generic : forall (A : arith) (s : state A) (t : f64 A),
     key s KLEFT = false -> key s KRIGHT = false ->
     key s KUP = false -> key s KDOWN = false ->
     let dt := div64 A (sub64 A t (t0 s)) (f64_of_int A 1000) in
     _cam (idle t s) = _cam s /\
     _cycle (idle t s) = demote A (add64 A (promote A (_cycle s)) dt) /\
     _cam (idle_dt dt s) = _cam s /\
     _cycle (idle_dt dt s) = demote A (add64 A (promote A (_cycle s)) dt)).
  { intros A s t HL HR HU HD dt.
    assert (H : forall s' : state A, _keys s' = _keys s ->
                  idle_dt dt s' =
                  set_cycle (demote A (add64 A (promote A (_cycle s')) dt)) s').
    { intros s' Hk. apply idle_dt_released; unfold key in *; rewrite Hk; assumption. }
    unfold idle, get_dt. fold dt.
    rewrite (H (set_t0 t s) eq_refl), (H s eq_refl).
    repeat split; reflexivity. }
  split; [exact generic|]. split.
  - intros s t HL HR HU HD.
    destruct (generic exact s t HL HR HU HD) as (Hc & Hy & _).
    split; [exact Hc|]. rewrite Hy. reflexivity.
  - intros sn cs s t HL HR HU HD dt Hfin.
    destruct (generic (ieee sn cs) s t HL HR HU HD) as (Hc & Hy & _).
    split; [exact Hc|]. rewrite Hy in Hfin |- *.
    apply (cycle_value (_cycle s) dt Hfin).
Qed.

(** A tick 16 ms after the start with no key held. *)
Lemma idle_without_keys_witness :
  let s := Sample.field5 Sample.c99 (IEEE.of_int32 1) [0; 0; 0; 0] in
  _cam (idle (A := Sample.c99) (IEEE.of_int64 16) s) = _cam s /\
  _cycle (idle (A := Sample.c99) (IEEE.of_int64 16) s) = S754_finite false 8589935 (-29) /\
  (Rabs (IEEE.value (_cycle (idle (A := Sample.c99) (IEEE.of_int64 16) s))
         - (IEEE.value (_cycle s)
            + IEEE.value (SFdiv IEEE.prec64 IEEE.emax64
                            (SFsub IEEE.prec64 IEEE.emax64 (IEEE.of_int64 16) (t0 s))
                            (IEEE.of_int64 1000))))
   <= powerRZ 2 (-23)
      * Rabs (IEEE.value (_cycle s)
              + IEEE.value (SFdiv IEEE.prec64 IEEE.emax64
                              (SFsub IEEE.prec64 IEEE.emax64 (IEEE.of_int64 16) (t0 s))
                              (IEEE.of_int64 1000)))
      + powerRZ 2 (-149))%R.
Proof.
  intros s.
  destruct (proj1 idle_without_keys Sample.c99 s (IEEE.of_int64 16)
              eq_refl eq_refl eq_refl eq_refl) as (Hc & Hy & _).
  split; [exact Hc|]. split; [rewrite Hy; vm_compute; reflexivity|].
  apply (proj2 (proj2 idle_without_keys) Sample.sin_taylor Sample.cos_taylor s
           (IEEE.of_int64 16) eq_refl eq_refl eq_refl eq_refl).
  vm_compute. reflexivity.
Defined.

(** C10, counterexample.  A first tick 16777216 s after the start
    takes [_cycle] to 2^24; the next tick comes one second later with no
    key held: [dt] is 1.0, the sum 2^24 + 1 is computed exactly in
    [double], and its rounding to a [GLfloat] is 2^24 again: [_cycle] has
    not advanced. *)
Lemma idle_without_keys_counterexample :
  let s0 := Sample.initial Sample.c99 in
  let s1 := idle (A := Sample.c99) (IEEE.of_int64 16777216000) s0 in
  let t2 := IEEE.of_int64 16777217000 in
  let dt := SFdiv IEEE.prec64 IEEE.emax64
              (SFsub IEEE.prec64 IEEE.emax64 t2 (t0 s1)) (IEEE.of_int64 1000) in
  let s2 := idle (A := Sample.c99) t2 s1 in
  (key s1 KLEFT = false /\ key s1 KRIGHT = false /\
   key s1 KUP = false /\ key s1 KDOWN = false) /\
  _cycle s1 = IEEE.of_int32 16777216 /\
  dt = IEEE.of_int64 1 /\
  SFadd IEEE.prec64 IEEE.emax64 (_cycle s1) dt = IEEE.of_int64 16777217 /\
  _cycle s2 = _cycle s1 /\
  IEEE.eqb (_cycle s2) (IEEE.of_int64 16777217) = false.
Proof.
  vm_compute. repeat split; reflexivity.
Qed.

(** *** Rotation *)

Lemma exact_ticks_theta (s : state exact) (dts : list R) :
  key s KLEFT = true -> key s KRIGHT = true ->
  cam_theta (_cam (ticks (A := exact) dts s)) = cam_theta (_cam s).
Proof.
  revert s. induction dts as [|dt dts IH]; intros s HL HR; [reflexivity|].
  cbn [ticks]. rewrite IH by (rewrite idle_dt_key; assumption).
  rewrite idle_dt_theta, HL, HR. exact_arith. ring.
Qed.

(** Both rotation keys held, in floating point: the yaw of a tick is
    [(GLfloat)((GLfloat)(theta + d) - d)] with [d = dt * M_PI], two
    roundings to binary64 and two to binary32 away from [theta]. *)
Lemma ieee_both_rotations (sn cs : spec_float -> spec_float)
    (s : state (ieee sn cs)) (dt : spec_float) :
  key s KLEFT = true -> key s KRIGHT = true ->
  IEEE.finite (cam_theta (_cam (idle_dt (A := ieee sn cs) dt s))) = true ->
  IEEE.finite (cam_theta (_cam s)) = true /\
  (Rabs (IEEE.value (cam_theta (_cam (idle_dt (A := ieee sn cs) dt s)))
         - IEEE.value (cam_theta (_cam s)))
   <= powerRZ 2 (-22) * (Rabs (IEEE.value (cam_theta (_cam s)))
                         + Rabs (IEEE.value (mul64 (ieee sn cs) dt (M_PI (ieee sn cs)))))
      + powerRZ 2 (-148))%R.
Proof.
  intros HL HR. rewrite idle_dt_theta, HL, HR. cbv zeta.
  cbn [promote demote add64 sub64 ieee].
  intros Hfin.
  pose proof Hfin as H4. apply round32_value in H4 as [Hf3 H4].
  pose proof Hf3 as H3. apply SFsub_value in H3 as (Hf2 & _ & H3); [|reflexivity].
  pose proof Hf2 as H2. apply round32_value in H2 as [Hf1 H2].
  pose proof Hf1 as H1. apply SFadd_value in H1 as (Hf0 & _ & H1); [|reflexivity].
  split; [exact Hf0|].
  exact (round_trip_bound _ _ _ _ _ _ H1 H2 H3 H4).
Qed.

(** The same over successive ticks, as long as the yaw stays within [M]
    of 0 and each tick turns by at most [D]. *)
Lemma ieee_ticks_both_rotations (sn cs : spec_float -> spec_float) (M D : R)
    (dts : list spec_float) (s : state (ieee sn cs)) :
  key s KLEFT = true -> key s KRIGHT = true ->
  Forall (yaw_within M) (visited (A := ieee sn cs) dts s) ->
  Forall (fun dt => (Rabs (IEEE.value (mul64 (ieee sn cs) dt (M_PI (ieee sn cs)))) <= D)%R)
         dts ->
  IEEE.finite (cam_theta (_cam (ticks (A := ieee sn cs) dts s))) = true ->
  IEEE.finite (cam_theta (_cam s)) = true /\
  (Rabs (IEEE.value (cam_theta (_cam (ticks (A := ieee sn cs) dts s)))
         - IEEE.value (cam_theta (_cam s)))
   <= INR (List.length dts) * (powerRZ 2 (-22) * (M + D) + powerRZ 2 (-148)))%R.
Proof.
  revert s. induction dts as [|dt dts IH]; intros s HL HR Hin Hdts Hfin.
  - cbn [ticks List.length INR] in *. split; [exact Hfin|].
    rewrite Rminus_diag, Rabs_R0. lra.
  - cbn [ticks] in *. cbn [visited] in Hin.
    apply Forall_cons_iff in Hin as [H0 Hin]. unfold yaw_within in H0.
    apply Forall_cons_iff in Hdts as [Hd Hdts].
    destruct (IH (idle_dt (A := ieee sn cs) dt s)) as [Hf1 IH1];
      try (rewrite idle_dt_key; assumption); try assumption.
    destruct (ieee_both_rotations sn cs s dt HL HR Hf1) as [Hf0 H1].
    split; [exact Hf0|].
    change (List.length (dt :: dts)) with (S (List.length dts)). rewrite S_INR.
    pose proof (bpow_pos (-22)) as Hp.
    assert (Hle : (powerRZ 2 (-22) * (Rabs (IEEE.value (cam_theta (_cam s)))
                     + Rabs (IEEE.value (mul64 (ieee sn cs) dt (M_PI (ieee sn cs)))))
                   <= powerRZ 2 (-22) * (M + D))%R)
      by (apply Rmult_le_compat_l; lra).
    apply Rabs_bounds in H1, IH1. apply Rabs_le. lra.
Qed.

(** C3, as amended.  In a tick of elapsed time [dt] the yaw becomes
    [theta + dt * M_PI] when only the rotate-left flag is set and
    [theta - dt * M_PI] when only the rotate-right flag is set, each
    stored in a [GLfloat]; the camera position plays no part.  With both
    flags set the two updates are applied one after the other.  Over the
    reals this leaves the yaw unchanged, however many ticks follow one
    another; in floating point the yaw is [(theta + d) - d] with
    [d = dt * M_PI] and four roundings, which need not be [theta] but is
    within [2^-22 * (|theta| + |d|) + 2^-148] of it, unless it
    overflowed; over successive ticks the yaw drifts by at most
    [2^-22 * (M + D) + 2^-148] per tick, where [M] bounds the yaw and [D]
    the turn [|d|] of a tick. *)
Theorem idle_rotation :
  (forall (A : arith) (s : state A) (dt : f64 A),
      cam_theta (_cam (idle_dt dt s)) =
        let th := cam_theta (_cam s) in
        let left := demote A (add64 A (promote A th) (mul64 A dt (M_PI A))) in
        match key s KLEFT, key s KRIGHT with
        | true, false => left
        | false, true => demote A (sub64 A (promote A th) (mul64 A dt (M_PI A)))
        | true, true => demote A (sub64 A (promote A left) (mul64 A dt (M_PI A)))
        | false, false => th
        end)
  /\
  (forall (s : state exact) (dts : list R),
      key s KLEFT = true -> key s KRIGHT = true ->
      cam_theta (_cam (ticks (A := exact) dts s)) = cam_theta (_cam s))
  /\
  (forall (sn cs : spec_float -> spec_float) (s : state (ieee sn cs)) (dt : spec_float),
      key s KLEFT = true -> key s KRIGHT = true ->
      IEEE.finite (cam_theta (_cam (idle_dt (A := ieee sn cs) dt s))) = true ->
      (Rabs (IEEE.value (cam_theta (_cam (idle_dt (A := ieee sn cs) dt s)))
             - IEEE.value (cam_theta (_cam s)))
       <= powerRZ 2 (-22) * (Rabs (IEEE.value (cam_theta (_cam s)))
                             + Rabs (IEEE.value (mul64 (ieee sn cs) dt (M_PI (ieee sn cs)))))
          + powerRZ 2 (-148))%R)
  /\
  (forall (sn cs : spec_float -> spec_float) (s : state (ieee sn cs))
          (dts : list spec_float) (M D : R),
      key s KLEFT = true -> key s KRIGHT = true ->
      Forall (yaw_within M) (visited (A := ieee sn cs) dts s) ->
      Forall (fun dt =>
                (Rabs (IEEE.value (mul64 (ieee sn cs) dt (M_PI (ieee sn cs)))) <= D)%R)
             dts ->
      IEEE.finite (cam_theta (_cam (ticks (A := ieee sn cs) dts s))) = true ->
      (Rabs (IEEE.value (cam_theta (_cam (ticks (A := ieee sn cs) dts s)))
             - IEEE.value (cam_theta (_cam s)))
       <= INR (List.length dts) * (powerRZ 2 (-22) * (M + D) + powerRZ 2 (-148)))%R).
Proof.
  split; [intros A s dt; apply idle_dt_theta|].
  split; [apply exact_ticks_theta|].
  split.
  - intros sn cs s dt HL HR Hfin. apply ieee_both_rotations; assumption.
  - intros sn cs s dts M D HL HR Hin Hdts Hfin.
    apply (ieee_ticks_both_rotations sn cs M D dts s); assumption.
Qed.

(** One second of left rotation turns the yaw to pi rounded to a
    [GLfloat]; over the reals two ticks with both keys held leave 0; in
    floating point one second with both keys held leaves a yaw that is
    not 0 but within the bound, and so do two seconds in two ticks. *)
Lemma idle_rotation_witness :
  cam_theta (_cam (idle_dt (A := Sample.c99) (IEEE.of_int64 1)
                     (Sample.field5 Sample.c99 (IEEE.of_int32 1) [1; 0; 0; 0])))
  = IEEE.round32 IEEE.pi64
  /\
  cam_theta (_cam (ticks (A := exact) [(1 / 2)%R; (1 / 4)%R]
                     (Sample.field5 exact 1%R [1; 1; 0; 0])))
  = 0%R
  /\
  (let s := Sample.field5 Sample.c99 (IEEE.of_int32 1) [1; 1; 0; 0] in
   let th' := cam_theta (_cam (idle_dt (A := Sample.c99) (IEEE.of_int64 1) s)) in
   th' = S754_finite false 12303662 (-47) /\
   (Rabs (IEEE.value th' - IEEE.value (cam_theta (_cam s)))
    <= powerRZ 2 (-22)
       * (Rabs (IEEE.value (cam_theta (_cam s)))
          + Rabs (IEEE.value (mul64 Sample.c99 (IEEE.of_int64 1) (M_PI Sample.c99))))
       + powerRZ 2 (-148))%R)
  /\
  (let s := Sample.field5 Sample.c99 (IEEE.of_int32 1) [1; 1; 0; 0] in
   let dts := [IEEE.of_int64 1; IEEE.of_int64 1] in
   (Rabs (IEEE.value (cam_theta (_cam (ticks (A := Sample.c99) dts s)))
          - IEEE.value (cam_theta (_cam s)))
    <= INR (List.length dts) * (powerRZ 2 (-22) * (1 + 4) + powerRZ 2 (-148)))%R).
Proof.
  split; [|split; [|split]].
  - rewrite (proj1 idle_rotation Sample.c99). vm_compute. reflexivity.
  - apply (proj1 (proj2 idle_rotation) (Sample.field5 exact 1%R [1; 1; 0; 0])); reflexivity.
  - intros s th'.
    assert (Hth : th' = S754_finite false 12303662 (-47)).
    { subst th'. rewrite idle_dt_theta. vm_compute. reflexivity. }
    split; [exact Hth|].
    apply (proj1 (proj2 (proj2 idle_rotation)) Sample.sin_taylor Sample.cos_taylor s
             (IEEE.of_int64 1) eq_refl eq_refl).
    change (IEEE.finite th' = true). rewrite Hth. reflexivity.
  - intros s dts.
    apply (proj2 (proj2 (proj2 idle_rotation)) Sample.sin_taylor Sample.cos_taylor s
             dts 1%R 4%R eq_refl eq_refl).
    + cbn [visited dts]. unfold yaw_within.
      apply Forall_cons; [float_bound|].
      apply Forall_cons; [float_bound|].
      apply Forall_cons; [float_bound|]. apply Forall_nil.
    + apply Forall_cons; [float_bound|].
      apply Forall_cons; [float_bound|]. apply Forall_nil.
    + vm_compute. reflexivity.
Defined.


(** C3, counterexample.  Both rotation keys held for one tick of 16 ms,
    starting from the camera's initial yaw 0: the compiled program leaves
    a yaw of 9914596 * 2^-53 (about 1.1e-9), not 0. *)
Lemma idle_both_rotations_counterexample :
  let s := set_key KRIGHT 1 (set_key KLEFT 1 (Sample.initial Sample.c99)) in
  key s KLEFT = true /\ key s KRIGHT = true /\
  cam_theta (_cam s) = S754_zero false /\
  cam_theta (_cam (idle (A := Sample.c99) (IEEE.of_int64 16) s))
  = S754_finite false 9914596 (-53).
Proof.
  vm_compute. repeat split; reflexivity.
Qed.

(** *** Translation *)

Lemma cam_t_ext {A : arith} (c : cam_t A) (x z th : f32 A) :
  cam_x c = x -> cam_z c = z -> cam_theta c = th -> c = Build_cam_t x z th.
Proof. destruct c; cbn; congruence. Qed.

Lemma binary_round_aux_opp (prec emax : Z) (s : bool) (m e : Z) (l : location) :
  binary_round_aux prec emax (negb s) m e l
  = SFopp (binary_round_aux prec emax s m e l).
Proof.
  unfold binary_round_aux.
  destruct (shr_fexp prec emax m e l) as [mrs' e'].
  destruct (shr_fexp prec emax _ e' loc_Exact) as [mrs'' e''].
  destruct (shr_m mrs''); [reflexivity| |reflexivity].
  destruct (e'' <=? emax - prec); reflexivity.
Qed.

Lemma SFmul_opp_l (prec emax : Z) (a b : spec_float) :
  SFmul prec emax (SFopp a) b = SFopp (SFmul prec emax a b).
Proof.
  destruct a as [sa|sa| |sa ma ea], b as [sb|sb| |sb mb eb]; cbn [SFmul SFopp];
    try reflexivity; try (destruct sa, sb; reflexivity).
  rewrite <- binary_round_aux_opp. f_equal. destruct sa, sb; reflexivity.
Qed.

(** The forward displacement is the backward displacement negated, also
    after rounding. *)
Lemma ieee_forward_delta (sn cs : spec_float -> spec_float) (dt v : spec_float) :
  let A := ieee sn cs in
  mul64 A (mul64 A (neg64 A dt) (f64_of_int A 5)) v
  = neg64 A (mul64 A (mul64 A dt (f64_of_int A 5)) v).
Proof.
  cbv zeta. cbn [mul64 neg64 ieee]. rewrite !SFmul_opp_l. reflexivity.
Qed.

Lemma exact_idle_dt_position (s : state exact) (dt : R) :
  let th := cam_theta (_cam (idle_dt (A := exact) dt s)) in
  let x := cam_x (_cam s) in
  let z := cam_z (_cam s) in
  let dx := (dt * 5 * sin th)%R in
  let dz := (dt * 5 * cos th)%R in
  cam_x (_cam (idle_dt (A := exact) dt s)) =
    match key s KUP, key s KDOWN with
    | true, false => (x - dx)%R
    | false, true => (x + dx)%R
    | _, _ => x
    end /\
  cam_z (_cam (idle_dt (A := exact) dt s)) =
    match key s KUP, key s KDOWN with
    | true, false => (z - dz)%R
    | false, true => (z + dz)%R
    | _, _ => z
    end.
Proof.
  intros th x z dx dz.
  destruct (idle_dt_position (A := exact) s dt) as [Hx Hz]. rewrite Hx, Hz. fold th.
  subst x z dx dz.
  destruct (key s KUP), (key s KDOWN); exact_arith; split; lra.
Qed.

(** Forward and backward held together, in floating point: each
    coordinate is [(GLfloat)((GLfloat)(v - d) + d)]. *)
Lemma ieee_both_translations (sn cs : spec_float -> spec_float)
    (s : state (ieee sn cs)) (dt : spec_float) :
  key s KUP = true -> key s KDOWN = true ->
  let A := ieee sn cs in
  let th := cam_theta (_cam (idle_dt (A := A) dt s)) in
  let dx := mul64 A (mul64 A dt (f64_of_int A 5)) (sin64 A (promote A th)) in
  let dz := mul64 A (mul64 A dt (f64_of_int A 5)) (cos64 A (promote A th)) in
  (IEEE.finite (cam_x (_cam (idle_dt (A := A) dt s))) = true ->
   (Rabs (IEEE.value (cam_x (_cam (idle_dt (A := A) dt s))) - IEEE.value (cam_x (_cam s)))
    <= powerRZ 2 (-22) * (Rabs (IEEE.value (cam_x (_cam s))) + Rabs (IEEE.value dx))
       + powerRZ 2 (-148))%R) /\
  (IEEE.finite (cam_z (_cam (idle_dt (A := A) dt s))) = true ->
   (Rabs (IEEE.value (cam_z (_cam (idle_dt (A := A) dt s))) - IEEE.value (cam_z (_cam s)))
    <= powerRZ 2 (-22) * (Rabs (IEEE.value (cam_z (_cam s))) + Rabs (IEEE.value dz))
       + powerRZ 2 (-148))%R).
Proof.
  intros HU HD A th dx dz. subst A.
  destruct (idle_dt_position (A := ieee sn cs) s dt) as [Hx Hz].
  rewrite HU, HD in Hx, Hz. cbv beta iota zeta in Hx, Hz. fold th in Hx, Hz.
  rewrite !ieee_forward_delta in Hx, Hz.
  fold dx in Hx. fold dz in Hz.
  assert (Hgen : forall v d : spec_float,
             let A := ieee sn cs in
             let v' := demote A (add64 A (promote A
                         (demote A (add64 A (promote A v) (neg64 A d)))) d) in
             IEEE.finite v' = true ->
             (Rabs (IEEE.value v' - IEEE.value v)
              <= powerRZ 2 (-22) * (Rabs (IEEE.value v) + Rabs (IEEE.value d))
                 + powerRZ 2 (-148))%R).
  { intros v d A v'. subst v' A. cbn [promote demote add64 neg64 ieee].
    intros Hfin.
    pose proof Hfin as H4. apply round32_value in H4 as [Hf3 H4].
    pose proof Hf3 as H3. apply SFadd_value in H3 as (Hf2 & _ & H3); [|reflexivity].
    pose proof Hf2 as H2. apply round32_value in H2 as [Hf1 H2].
    pose proof Hf1 as H1. apply SFadd_value in H1 as (_ & _ & H1); [|reflexivity].
    rewrite value_opp in H1.
    replace (IEEE.value (IEEE.round32 (SFadd IEEE.prec64 IEEE.emax64 v (SFopp d))) + IEEE.value d)%R
      with (IEEE.value (IEEE.round32 (SFadd IEEE.prec64 IEEE.emax64 v (SFopp d)))
            - - IEEE.value d)%R
      in H3 by ring.
    rewrite <- (Rabs_Ropp (IEEE.value d)).
    exact (round_trip_bound _ _ _ _ _ _ H1 H2 H3 H4). }
  rewrite Hx, Hz. split; apply Hgen.
Qed.

(** C4, as amended.  With [th] the yaw that the rotation step of the
    same tick leaves, the forward flag adds [-dt * 5.0 * sin th] to [x]
    and [-dt * 5.0 * cos th] to [z], the backward flag adds
    [dt * 5.0 * sin th] and [dt * 5.0 * cos th], each sum stored in a
    [GLfloat]; with both flags set both updates are applied in turn.
    The backward displacement is the forward one negated, also in
    floating point, where both flags together leave each coordinate
    within [2^-22 * (|v| + |d|) + 2^-148] of its value [v], [d] being the
    displacement, unless it overflowed.  Over the reals the updates read
    [x -= dt*5*sin th] and so on, and both flags together leave the
    position unchanged.
    With only forward held, [dt = 1] and yaw 0, the position moves from
    (0, 0) to (0, -5), over the reals and in floating point (for a C
    library with sin(0) = 0 and cos(0) = 1). *)
Theorem idle_translation :
  (forall (A : arith) (s : state A) (dt : f64 A),
      let th := promote A (cam_theta (_cam (idle_dt dt s))) in
      let fwd v f := demote A (add64 A (promote A v)
                       (mul64 A (mul64 A (neg64 A dt) (f64_of_int A 5)) (f th))) in
      let bwd v f := demote A (add64 A (promote A v)
                       (mul64 A (mul64 A dt (f64_of_int A 5)) (f th))) in
      let step v f :=
        match key s KUP, key s KDOWN with
        | true, false => fwd v f
        | false, true => bwd v f
        | true, true => bwd (fwd v f) f
        | false, false => v
        end in
      cam_x (_cam (idle_dt dt s)) = step (cam_x (_cam s)) (sin64 A) /\
      cam_z (_cam (idle_dt dt s)) = step (cam_z (_cam s)) (cos64 A))
  /\
  (forall (sn cs : spec_float -> spec_float) (dt v : spec_float),
      let A := ieee sn cs in
      mul64 A (mul64 A (neg64 A dt) (f64_of_int A 5)) v
      = neg64 A (mul64 A (mul64 A dt (f64_of_int A 5)) v))
  /\
  (forall (sn cs : spec_float -> spec_float) (s : state (ieee sn cs)) (dt : spec_float),
      key s KUP = true -> key s KDOWN = true ->
      let A := ieee sn cs in
      let th := cam_theta (_cam (idle_dt (A := A) dt s)) in
      let dx := mul64 A (mul64 A dt (f64_of_int A 5)) (sin64 A (promote A th)) in
      let dz := mul64 A (mul64 A dt (f64_of_int A 5)) (cos64 A (promote A th)) in
      (IEEE.finite (cam_x (_cam (idle_dt (A := A) dt s))) = true ->
       (Rabs (IEEE.value (cam_x (_cam (idle_dt (A := A) dt s))) - IEEE.value (cam_x (_cam s)))
        <= powerRZ 2 (-22) * (Rabs (IEEE.value (cam_x (_cam s))) + Rabs (IEEE.value dx))
           + powerRZ 2 (-148))%R) /\
      (IEEE.finite (cam_z (_cam (idle_dt (A := A) dt s))) = true ->
       (Rabs (IEEE.value (cam_z (_cam (idle_dt (A := A) dt s))) - IEEE.value (cam_z (_cam s)))
        <= powerRZ 2 (-22) * (Rabs (IEEE.value (cam_z (_cam s))) + Rabs (IEEE.value dz))
           + powerRZ 2 (-148))%R))
  /\
  (forall (s : state exact) (dt : R),
      let th := cam_theta (_cam (idle_dt (A := exact) dt s)) in
      let x := cam_x (_cam s) in
      let z := cam_z (_cam s) in
      let dx := (dt * 5 * sin th)%R in
      let dz := (dt * 5 * cos th)%R in
      cam_x (_cam (idle_dt (A := exact) dt s)) =
        match key s KUP, key s KDOWN with
        | true, false => (x - dx)%R
        | false, true => (x + dx)%R
        | _, _ => x
        end /\
      cam_z (_cam (idle_dt (A := exact) dt s)) =
        match key s KUP, key s KDOWN with
        | true, false => (z - dz)%R
        | false, true => (z + dz)%R
        | _, _ => z
        end)
  /\
  (forall (sn cs : spec_float -> spec_float) (s : state (ieee sn cs)),
      sn (S754_zero false) = S754_zero false ->
      cs (S754_zero false) = IEEE.of_int64 1 ->
      key s KLEFT = false -> key s KRIGHT = false ->
      key s KUP = true -> key s KDOWN = false ->
      _cam s = Build_cam_t (A := ieee sn cs)
                 (IEEE.of_int32 0) (IEEE.of_int32 0) (IEEE.of_int32 0) ->
      _cam (idle_dt (A := ieee sn cs) (IEEE.of_int64 1) s)
      = Build_cam_t (A := ieee sn cs)
          (IEEE.of_int32 0) (IEEE.of_int32 (-5)) (IEEE.of_int32 0))
  /\
  (forall s : state exact,
      key s KLEFT = false -> key s KRIGHT = false ->
      key s KUP = true -> key s KDOWN = false ->
      _cam s = Build_cam_t (A := exact) 0%R 0%R 0%R ->
      _cam (idle_dt (A := exact) 1%R s) = Build_cam_t (A := exact) 0%R (-5)%R 0%R).
Proof.
  split; [intros A s dt; apply idle_dt_position|].
  split; [apply ieee_forward_delta|].
  split; [apply ieee_both_translations|].
  split; [apply exact_idle_dt_position|].
  split.
  - intros sn cs s Hsin Hcos HL HR HU HD Hcam.
    pose proof (idle_dt_theta (A := ieee sn cs) s (IEEE.of_int64 1)) as Hth.
    destruct (idle_dt_position (A := ieee sn cs) s (IEEE.of_int64 1)) as [Hx Hz].
    rewrite HL, HR in Hth. rewrite HU, HD in Hx, Hz.
    cbv beta iota zeta in Hth, Hx, Hz. rewrite Hth in Hx, Hz.
    rewrite Hcam in Hth, Hx, Hz.
    change (sin64 (ieee sn cs) _) with (sn (S754_zero false)) in Hx.
    change (cos64 (ieee sn cs) _) with (cs (S754_zero false)) in Hz.
    rewrite Hsin in Hx. rewrite Hcos in Hz.
    apply cam_t_ext; [rewrite Hx|rewrite Hz|rewrite Hth]; vm_compute; reflexivity.
  - intros s HL HR HU HD Hcam.
    pose proof (idle_dt_theta (A := exact) s 1%R) as Hth.
    destruct (exact_idle_dt_position s 1%R) as [Hx Hz].
    rewrite HL, HR in Hth. rewrite HU, HD in Hx, Hz.
    cbv beta iota zeta in Hth, Hx, Hz. rewrite Hth in Hx, Hz.
    rewrite Hcam in Hth, Hx, Hz. cbn [cam_x cam_z cam_theta] in Hth, Hx, Hz.
    rewrite sin_0 in Hx. rewrite cos_0 in Hz.
    apply cam_t_ext; [rewrite Hx|rewrite Hz|rewrite Hth];
      cbn [cam_x cam_z cam_theta]; exact_arith; ring.
Qed.

(** The scenario of the specification, in both arithmetics; and one
    tick of 16 ms with forward and backward held, which leaves a [z] that
    is not 0 but within the bound. *)
Lemma idle_translation_witness :
  _cam (idle_dt (A := Sample.c99) (IEEE.of_int64 1)
          (Sample.field5 Sample.c99 (IEEE.of_int32 1) [0; 0; 1; 0]))
  = Build_cam_t (A := Sample.c99)
      (IEEE.of_int32 0) (IEEE.of_int32 (-5)) (IEEE.of_int32 0)
  /\
  _cam (idle_dt (A := exact) 1%R (Sample.field5 exact 1%R [0; 0; 1; 0]))
  = Build_cam_t (A := exact) 0%R (-5)%R 0%R
  /\
  (let s := Sample.field5 Sample.c99 (IEEE.of_int32 1) [0; 0; 1; 1] in
   let dt := Sample.ddiv (Sample.d 16) (Sample.d 1000) in
   let z' := cam_z (_cam (idle_dt (A := Sample.c99) dt s)) in
   z' = S754_finite false 16106127 (-53) /\
   (Rabs (IEEE.value z' - IEEE.value (cam_z (_cam s)))
    <= powerRZ 2 (-22)
       * (Rabs (IEEE.value (cam_z (_cam s)))
          + Rabs (IEEE.value
                    (mul64 Sample.c99 (mul64 Sample.c99 dt (f64_of_int Sample.c99 5))
                       (cos64 Sample.c99
                          (promote Sample.c99
                             (cam_theta (_cam (idle_dt (A := Sample.c99) dt s))))))))
       + powerRZ 2 (-148))%R).
Proof.
  split; [|split].
  - assert (Hsin : Sample.sin_taylor (S754_zero false) = S754_zero false)
      by (vm_compute; reflexivity).
    assert (Hcos : Sample.cos_taylor (S754_zero false) = IEEE.of_int64 1)
      by (vm_compute; reflexivity).
    exact (proj1 (proj2 (proj2 (proj2 (proj2 idle_translation))))
             Sample.sin_taylor Sample.cos_taylor
             (Sample.field5 Sample.c99 (IEEE.of_int32 1) [0; 0; 1; 0])
             Hsin Hcos eq_refl eq_refl eq_refl eq_refl eq_refl).
  - exact (proj2 (proj2 (proj2 (proj2 (proj2 idle_translation))))
             (Sample.field5 exact 1%R [0; 0; 1; 0])
             eq_refl eq_refl eq_refl eq_refl eq_refl).
  - intros s dt z'.
    assert (Hz : z' = S754_finite false 16106127 (-53)) by (vm_compute; reflexivity).
    split; [exact Hz|].
    apply (proj2 (proj1 (proj2 (proj2 idle_translation))
                    Sample.sin_taylor Sample.cos_taylor s dt eq_refl eq_refl)).
    vm_compute. reflexivity.
Defined.


(** C4, counterexample.  Forward and backward held for one tick of
    16 ms, starting from the camera's initial pose (0, 0) with yaw 0: the
    compiled program leaves z = 16106127 * 2^-53 (about 1.8e-9), not 0. *)
Lemma idle_both_translations_counterexample :
  let s := set_key KDOWN 1 (set_key KUP 1 (Sample.initial Sample.c99)) in
  key s KUP = true /\ key s KDOWN = true /\
  cam_z (_cam s) = S754_zero false /\
  Sample.cos_taylor (S754_zero false) = IEEE.of_int64 1 /\
  cam_z (_cam (idle (A := Sample.c99) (IEEE.of_int64 16) s))
  = S754_finite false 16106127 (-53).
Proof.
  vm_compute. repeat split; reflexivity.
Qed.

(** *** Forward, then backward *)

Lemma exact_ticks_forward (s : state exact) (dts : list R) :
  key s KLEFT = false -> key s KRIGHT = false ->
  key s KUP = true -> key s KDOWN = false ->
  _cam (ticks (A := exact) dts s) =
    Build_cam_t (A := exact)
      (cam_x (_cam s) - total (A := exact) dts * 5 * sin (cam_theta (_cam s)))%R
      (cam_z (_cam s) - total (A := exact) dts * 5 * cos (cam_theta (_cam s)))%R
      (cam_theta (_cam s)).
Proof.
  revert s. induction dts as [|dt dts IH]; intros s HL HR HU HD.
  - cbn [ticks total fold_right]. destruct (_cam s) as [x z th].
    cbn [cam_x cam_z cam_theta]. exact_arith. f_equal; ring.
  - cbn [ticks]. rewrite IH by (rewrite idle_dt_key; assumption).
    pose proof (idle_dt_theta (A := exact) s dt) as Hth.
    destruct (exact_idle_dt_position s dt) as [Hx Hz].
    rewrite HL, HR in Hth. rewrite HU, HD in Hx, Hz. cbv zeta in Hth, Hx, Hz.
    rewrite Hx, Hz, Hth.
    change (total (A := exact) (dt :: dts)) with (dt + total (A := exact) dts)%R.
    f_equal; ring.
Qed.

Lemma exact_ticks_backward (s : state exact) (dts : list R) :
  key s KLEFT = false -> key s KRIGHT = false ->
  key s KUP = false -> key s KDOWN = true ->
  _cam (ticks (A := exact) dts s) =
    Build_cam_t (A := exact)
      (cam_x (_cam s) + total (A := exact) dts * 5 * sin (cam_theta (_cam s)))%R
      (cam_z (_cam s) + total (A := exact) dts * 5 * cos (cam_theta (_cam s)))%R
      (cam_theta (_cam s)).
Proof.
  revert s. induction dts as [|dt dts IH]; intros s HL HR HU HD.
  - cbn [ticks total fold_right]. destruct (_cam s) as [x z th].
    cbn [cam_x cam_z cam_theta]. exact_arith. f_equal; ring.
  - cbn [ticks]. rewrite IH by (rewrite idle_dt_key; assumption).
    pose proof (idle_dt_theta (A := exact) s dt) as Hth.
    destruct (exact_idle_dt_position s dt) as [Hx Hz].
    rewrite HL, HR in Hth. rewrite HU, HD in Hx, Hz. cbv zeta in Hth, Hx, Hz.
    rewrite Hx, Hz, Hth.
    change (total (A := exact) (dt :: dts)) with (dt + total (A := exact) dts)%R.
    f_equal; ring.
Qed.

(** Releasing the forward key and pressing the backward key. *)
Lemma swap_keys {A : arith} (s : state A) (fwd : list (f64 A)) :
  List.length (_keys s) = 4%nat ->
  key s KLEFT = false -> key s KRIGHT = false ->
  key s KUP = true -> key s KDOWN = false ->
  let s2 := keyup SDLK_UP (ticks fwd s) in
  let s3 := set_key KDOWN 1 s2 in
  keydown SDLK_DOWN s2 = Continue s3 /\
  key s3 KLEFT = false /\ key s3 KRIGHT = false /\
  key s3 KUP = false /\ key s3 KDOWN = true /\
  _cam s3 = _cam (ticks fwd s).
Proof.
  intros Hlen HL HR HU HD s2 s3. split; [reflexivity|].
  assert (Hk : _keys s3 = array_set 3 1 (array_set 2 0 (_keys s))).
  { subst s3 s2. change (_keys (set_key KDOWN 1 (keyup SDLK_UP ?t)))
      with (array_set 3 1 (array_set 2 0 (_keys t))).
    rewrite ticks_keys. reflexivity. }
  unfold key in *. rewrite Hk.
  clear - Hlen HL HR HU HD.
  destruct (_keys s) as [|a [|b [|c [|d [|]]]]]; try discriminate Hlen.
  cbn [key_index nth array_set] in *. auto.
Qed.

Lemma exact_forward_then_backward (s : state exact) (fwd bwd : list R) :
  List.length (_keys s) = 4%nat ->
  key s KLEFT = false -> key s KRIGHT = false ->
  key s KUP = true -> key s KDOWN = false ->
  total (A := exact) fwd = total (A := exact) bwd ->
  let s1 := ticks (A := exact) fwd s in
  let s2 := keyup SDLK_UP s1 in
  exists s3 : state exact,
    keydown SDLK_DOWN s2 = Continue s3 /\
    key s3 KLEFT = false /\ key s3 KRIGHT = false /\
    key s3 KUP = false /\ key s3 KDOWN = true /\
    let s4 := ticks (A := exact) bwd s3 in
    cam_x (_cam s4) = cam_x (_cam s) /\
    cam_z (_cam s4) = cam_z (_cam s) /\
    cam_theta (_cam s4) = cam_theta (_cam s).
Proof.
  intros Hlen HL HR HU HD Htot s1 s2.
  destruct (swap_keys s fwd Hlen HL HR HU HD) as (Hkd & HL3 & HR3 & HU3 & HD3 & Hcam).
  cbv zeta in Hkd, HL3, HR3, HU3, HD3, Hcam.
  fold s1 in Hkd, HL3, HR3, HU3, HD3, Hcam. fold s2 in Hkd, HL3, HR3, HU3, HD3, Hcam.
  exists (set_key KDOWN 1 s2). split; [exact Hkd|].
  repeat (split; [assumption|]).
  cbv zeta. rewrite (exact_ticks_backward _ bwd HL3 HR3 HU3 HD3), Hcam.
  subst s1. rewrite (exact_ticks_forward s fwd HL HR HU HD), Htot.
  cbn [cam_x cam_z cam_theta]. exact_arith.
  split; [ring|]. split; [ring|reflexivity].
Qed.

Lemma visited_head {A : arith} (P : state A -> Prop) (dts : list (f64 A)) (s : state A) :
  Forall P (visited dts s) -> P s.
Proof. destruct dts; cbn [visited]; intros H; inversion H; assumption. Qed.

(** A walk in floating point: ticks with one of the two translation
    flags set and no rotation.  Each tick rounds the displacement twice,
    the sum once, and the stored coordinate once more; as long as the
    camera stays within [M] of the origin, a tick ends within
    [2^-23 * M + 2^-149] of where exact arithmetic would take it from the
    same place. *)
Section Walk.
Variables sn cs : spec_float -> spec_float.

Lemma ieee_idle_dt_walk (s : state (ieee sn cs)) (dt : spec_float) (fw : bool) :
  key s KLEFT = false -> key s KRIGHT = false ->
  key s KUP = fw -> key s KDOWN = negb fw ->
  let dt' := if fw then SFopp dt else dt in
  let step v f :=
    IEEE.round32
      (SFadd IEEE.prec64 IEEE.emax64 v
         (SFmul IEEE.prec64 IEEE.emax64
            (SFmul IEEE.prec64 IEEE.emax64 dt' (IEEE.of_int64 5))
            (f (cam_theta (_cam s))))) in
  cam_theta (_cam (idle_dt (A := ieee sn cs) dt s)) = cam_theta (_cam s) /\
  cam_x (_cam (idle_dt (A := ieee sn cs) dt s)) = step (cam_x (_cam s)) sn /\
  cam_z (_cam (idle_dt (A := ieee sn cs) dt s)) = step (cam_z (_cam s)) cs.
Proof.
  intros HL HR HU HD dt' step.
  pose proof (idle_dt_theta (A := ieee sn cs) s dt) as Hth.
  destruct (idle_dt_position (A := ieee sn cs) s dt) as [Hx Hz].
  rewrite HL, HR in Hth. rewrite HU, HD in Hx, Hz.
  cbv beta iota zeta in Hth, Hx, Hz. rewrite Hth in Hx, Hz.
  split; [exact Hth|]. rewrite Hx, Hz. subst step dt'.
  destruct fw; split; reflexivity.
Qed.

Lemma ieee_ticks_walk (fw : bool) (M : R) (dts : list spec_float) (s : state (ieee sn cs)) :
  key s KLEFT = false -> key s KRIGHT = false ->
  key s KUP = fw -> key s KDOWN = negb fw ->
  (Rabs (IEEE.value (sn (cam_theta (_cam s)))) <= 1)%R ->
  (Rabs (IEEE.value (cs (cam_theta (_cam s)))) <= 1)%R ->
  Forall (inside M) (visited (A := ieee sn cs) dts s) ->
  IEEE.finite (cam_x (_cam (ticks (A := ieee sn cs) dts s))) = true ->
  IEEE.finite (cam_z (_cam (ticks (A := ieee sn cs) dts s))) = true ->
  let tol := (powerRZ 2 (-23) * M + powerRZ 2 (-149))%R in
  cam_theta (_cam (ticks (A := ieee sn cs) dts s)) = cam_theta (_cam s) /\
  IEEE.finite (cam_x (_cam s)) = true /\ IEEE.finite (cam_z (_cam s)) = true /\
  (Rabs (IEEE.value (cam_x (_cam (ticks (A := ieee sn cs) dts s)))
         - (IEEE.value (cam_x (_cam s))
            + heading fw * 5 * duration dts * IEEE.value (sn (cam_theta (_cam s)))))
   <= INR (List.length dts) * tol)%R /\
  (Rabs (IEEE.value (cam_z (_cam (ticks (A := ieee sn cs) dts s)))
         - (IEEE.value (cam_z (_cam s))
            + heading fw * 5 * duration dts * IEEE.value (cs (cam_theta (_cam s)))))
   <= INR (List.length dts) * tol)%R.
Proof.
  intros HL HR HU HD. revert s HL HR HU HD.
  induction dts as [|dt dts IH]; intros s HL HR HU HD Hsn Hcs Hin Hfx Hfz tol.
  - cbn [ticks duration fold_right List.length INR] in *.
    split; [reflexivity|]. split; [assumption|]. split; [assumption|].
    rewrite !Rmult_0_r, !Rmult_0_l, !Rplus_0_r, !Rminus_diag, Rabs_R0. split; lra.
  - cbn [ticks] in *. cbn [visited] in Hin.
    apply Forall_cons_iff in Hin as [[Hx0 Hz0] Hin].
    destruct (ieee_idle_dt_walk s dt fw HL HR HU HD) as (Hth & Hx & Hz).
    cbv zeta in Hx, Hz.
    destruct (visited_head _ _ _ Hin) as [Hx1 Hz1].
    destruct (IH (idle_dt (A := ieee sn cs) dt s)) as (IHth & IHfx & IHfz & IHx & IHz);
      try (rewrite idle_dt_key; assumption);
      try (rewrite Hth; assumption); try assumption.
    rewrite Hth in IHth, IHx, IHz.
    rewrite Hx in IHfx, Hx1. rewrite Hz in IHfz, Hz1.
    destruct (step_value _ _ _ M IHfx Hx0 Hx1 Hsn) as [Hfx0 Ex].
    destruct (step_value _ _ _ M IHfz Hz0 Hz1 Hcs) as [Hfz0 Ez].
    rewrite <- Hx in Ex. rewrite <- Hz in Ez.
    split; [exact IHth|]. split; [exact Hfx0|]. split; [exact Hfz0|].
    assert (Hdt : IEEE.value (if fw then SFopp dt else dt) = (heading fw * IEEE.value dt)%R).
    { destruct fw; cbn [heading]; [rewrite value_opp|]; ring. }
    rewrite Hdt in Ex, Ez.
    change (duration (dt :: dts)) with (IEEE.value dt + duration dts)%R.
    change (List.length (dt :: dts)) with (S (List.length dts)). rewrite S_INR.
    fold tol in Ex, Ez. cbv zeta in IHx, IHz. fold tol in IHx, IHz.
    apply Rabs_bounds in Ex, Ez, IHx, IHz.
    split; apply Rabs_le; lra.
Qed.

End Walk.

Lemma ieee_forward_then_backward (sn cs : spec_float -> spec_float)
    (s : state (ieee sn cs)) (fwd bwd : list spec_float) (M : R) :
  let A := ieee sn cs in
  List.length (_keys s) = 4%nat ->
  key s KLEFT = false -> key s KRIGHT = false ->
  key s KUP = true -> key s KDOWN = false ->
  (Rabs (IEEE.value (sin64 A (promote A (cam_theta (_cam s))))) <= 1)%R ->
  (Rabs (IEEE.value (cos64 A (promote A (cam_theta (_cam s))))) <= 1)%R ->
  duration fwd = duration bwd ->
  let s1 := ticks (A := A) fwd s in
  let s3 := set_key KDOWN 1 (keyup SDLK_UP s1) in
  let s4 := ticks (A := A) bwd s3 in
  Forall (inside M) (visited (A := A) fwd s) ->
  Forall (inside M) (visited (A := A) bwd s3) ->
  IEEE.finite (cam_x (_cam s4)) = true -> IEEE.finite (cam_z (_cam s4)) = true ->
  let tol := (INR (List.length fwd + List.length bwd)
              * (powerRZ 2 (-23) * M + powerRZ 2 (-149)))%R in
  keydown SDLK_DOWN (keyup SDLK_UP s1) = Continue s3 /\
  cam_theta (_cam s4) = cam_theta (_cam s) /\
  (Rabs (IEEE.value (cam_x (_cam s4)) - IEEE.value (cam_x (_cam s))) <= tol)%R /\
  (Rabs (IEEE.value (cam_z (_cam s4)) - IEEE.value (cam_z (_cam s))) <= tol)%R.
Proof.
  intros A Hlen HL HR HU HD Hsn Hcs Hdur s1 s3 s4 Hin1 Hin3 Hfx Hfz tol.
  subst A.
  change (sin64 _ (promote _ ?t)) with (sn t) in Hsn.
  change (cos64 _ (promote _ ?t)) with (cs t) in Hcs.
  destruct (swap_keys s fwd Hlen HL HR HU HD) as (Hkd & HL3 & HR3 & HU3 & HD3 & Hcam).
  cbv zeta in Hkd, HL3, HR3, HU3, HD3, Hcam.
  fold s1 in Hkd, HL3, HR3, HU3, HD3, Hcam. fold s3 in Hkd, HL3, HR3, HU3, HD3, Hcam.
  split; [exact Hkd|].
  assert (Hth1 : cam_theta (_cam s1) = cam_theta (_cam s)).
  { clear - HL HR. subst s1. revert s HL HR.
    induction fwd as [|dt dts IH]; intros s HL HR; [reflexivity|].
    cbn [ticks]. rewrite IH by (rewrite idle_dt_key; assumption).
    rewrite idle_dt_theta, HL, HR. reflexivity. }
  destruct (ieee_ticks_walk sn cs false M bwd s3 HL3 HR3 HU3 HD3)
    as (Hth4 & Hfx3 & Hfz3 & Hx4 & Hz4);
    try assumption; try (rewrite Hcam, Hth1; assumption).
  fold s4 in Hth4, Hx4, Hz4. rewrite Hcam in Hth4, Hfx3, Hfz3, Hx4, Hz4.
  rewrite Hth1 in Hth4, Hx4, Hz4.
  destruct (ieee_ticks_walk sn cs true M fwd s HL HR HU HD) as (_ & _ & _ & Hx1 & Hz1);
    try assumption.
  fold s1 in Hx1, Hz1.
  split; [exact Hth4|].
  cbv zeta in Hx1, Hz1, Hx4, Hz4. cbn [heading] in Hx1, Hz1, Hx4, Hz4.
  rewrite Hdur in Hx1, Hz1.
  subst tol. rewrite plus_INR.
  apply Rabs_bounds in Hx1, Hz1, Hx4, Hz4.
  split; apply Rabs_le; lra.
Qed.

(** C5.  From any pose, with only the forward flag set: ticks whose
    elapsed times add up to some duration, then the release of the
    forward key and a press of the backward key, then ticks adding up to
    the same duration, bring (x, z) back to where it started and leave
    the yaw alone.  Over the reals the return is exact.  In floating
    point, for a C library whose sine and cosine of the yaw lie in
    [[-1, 1]] and a camera that stays within [M] of the origin, each
    coordinate returns to within [2^-23 * M + 2^-149] per tick of its
    starting value, unless it overflowed. *)
Theorem forward_then_backward :
  (forall (s : state exact) (fwd bwd : list R),
      List.length (_keys s) = 4%nat ->
      key s KLEFT = false -> key s KRIGHT = false ->
      key s KUP = true -> key s KDOWN = false ->
      total (A := exact) fwd = total (A := exact) bwd ->
      let s1 := ticks (A := exact) fwd s in
      let s2 := keyup SDLK_UP s1 in
      exists s3 : state exact,
        keydown SDLK_DOWN s2 = Continue s3 /\
        key s3 KLEFT = false /\ key s3 KRIGHT = false /\
        key s3 KUP = false /\ key s3 KDOWN = true /\
        let s4 := ticks (A := exact) bwd s3 in
        cam_x (_cam s4) = cam_x (_cam s) /\
        cam_z (_cam s4) = cam_z (_cam s) /\
        cam_theta (_cam s4) = cam_theta (_cam s))
  /\
  (forall (sn cs : spec_float -> spec_float) (s : state (ieee sn cs))
          (fwd bwd : list spec_float) (M : R),
      let A := ieee sn cs in
      List.length (_keys s) = 4%nat ->
      key s KLEFT = false -> key s KRIGHT = false ->
      key s KUP = true -> key s KDOWN = false ->
      (Rabs (IEEE.value (sin64 A (promote A (cam_theta (_cam s))))) <= 1)%R ->
      (Rabs (IEEE.value (cos64 A (promote A (cam_theta (_cam s))))) <= 1)%R ->
      duration fwd = duration bwd ->
      let s1 := ticks (A := A) fwd s in
      let s3 := set_key KDOWN 1 (keyup SDLK_UP s1) in
      let s4 := ticks (A := A) bwd s3 in
      Forall (inside M) (visited (A := A) fwd s) ->
      Forall (inside M) (visited (A := A) bwd s3) ->
      IEEE.finite (cam_x (_cam s4)) = true -> IEEE.finite (cam_z (_cam s4)) = true ->
      let tol := (INR (List.length fwd + List.length bwd)
                  * (powerRZ 2 (-23) * M + powerRZ 2 (-149)))%R in
      keydown SDLK_DOWN (keyup SDLK_UP s1) = Continue s3 /\
      cam_theta (_cam s4) = cam_theta (_cam s) /\
      (Rabs (IEEE.value (cam_x (_cam s4)) - IEEE.value (cam_x (_cam s))) <= tol)%R /\
      (Rabs (IEEE.value (cam_z (_cam s4)) - IEEE.value (cam_z (_cam s))) <= tol)%R).
Proof.
  split; [exact exact_forward_then_backward|exact ieee_forward_then_backward].
Qed.

(** Over the reals: forward for 1 s and 2 s, then backward for 3 s.  In
    floating point: forward for 1 s, then backward for 1 s, within 5
    units of the origin. *)
Lemma forward_then_backward_witness :
  (let s := Sample.field5 exact 1%R [0; 0; 1; 0] in
   exists s3 : state exact,
     keydown SDLK_DOWN (keyup SDLK_UP (ticks (A := exact) [1; 2]%R s)) = Continue s3 /\
     cam_x (_cam (ticks (A := exact) [3]%R s3)) = 0%R /\
     cam_z (_cam (ticks (A := exact) [3]%R s3)) = 0%R)
  /\
  (let s := Sample.field5 Sample.c99 (IEEE.of_int32 1) [0; 0; 1; 0] in
   let one := [IEEE.of_int64 1] in
   let s3 := set_key KDOWN 1 (keyup SDLK_UP (ticks (A := Sample.c99) one s)) in
   let s4 := ticks (A := Sample.c99) one s3 in
   keydown SDLK_DOWN (keyup SDLK_UP (ticks (A := Sample.c99) one s)) = Continue s3 /\
   cam_z (_cam (ticks (A := Sample.c99) one s)) = IEEE.of_int32 (-5) /\
   (Rabs (IEEE.value (cam_x (_cam s4)) - IEEE.value (cam_x (_cam s)))
    <= INR (List.length one + List.length one)
       * (powerRZ 2 (-23) * 5 + powerRZ 2 (-149)))%R /\
   (Rabs (IEEE.value (cam_z (_cam s4)) - IEEE.value (cam_z (_cam s)))
    <= INR (List.length one + List.length one)
       * (powerRZ 2 (-23) * 5 + powerRZ 2 (-149)))%R).
Proof.
  split.
  - intros s.
    assert (Ht : total (A := exact) [1; 2]%R = total (A := exact) [3]%R).
    { unfold total. cbn [fold_right]. exact_arith. ring. }
    destruct (proj1 forward_then_backward s [1; 2]%R [3]%R
                eq_refl eq_refl eq_refl eq_refl eq_refl Ht)
      as (s3 & Hs3 & _ & _ & _ & _ & Hx & Hz & _).
    exists s3. repeat split; assumption.
  - intros s one s3 s4.
    assert (Hsn : (Rabs (IEEE.value (sin64 Sample.c99
                     (promote Sample.c99 (cam_theta (_cam s))))) <= 1)%R)
      by float_bound.
    assert (Hcs : (Rabs (IEEE.value (cos64 Sample.c99
                     (promote Sample.c99 (cam_theta (_cam s))))) <= 1)%R)
      by float_bound.
    assert (Hin1 : Forall (inside 5) (visited (A := Sample.c99) one s)).
    { cbn [visited one].
      apply Forall_cons; [split; float_bound|].
      apply Forall_cons; [split; float_bound|]. apply Forall_nil. }
    assert (Hin3 : Forall (inside 5) (visited (A := Sample.c99) one s3)).
    { cbn [visited one].
      apply Forall_cons; [split; float_bound|].
      apply Forall_cons; [split; float_bound|]. apply Forall_nil. }
    assert (Hfx : IEEE.finite (cam_x (_cam s4)) = true) by (vm_compute; reflexivity).
    assert (Hfz : IEEE.finite (cam_z (_cam s4)) = true) by (vm_compute; reflexivity).
    destruct (proj2 forward_then_backward Sample.sin_taylor Sample.cos_taylor s one one 5%R
                eq_refl eq_refl eq_refl eq_refl eq_refl Hsn Hcs eq_refl Hin1 Hin3 Hfx Hfz)
      as (Hk & _ & Hx & Hz).
    split; [exact Hk|]. split; [vm_compute; reflexivity|].
    split; [exact Hx|exact Hz].
Defined.


(* ================================================================= *)
(** ** The frame renderer *)

(** With its height map in place, [heightMapAltitude] answers for every
    position of the camera. *)
Lemma heightMapAltitude_defined (A : arith) (s : state A) (x z : f32 A)
    (cells : list (f32 A)) :
  arith_ok A -> heightMap_ready s cells ->
  exists y : f32 A, heightMapAltitude s x z = Some y.
Proof.
  intros ok Hready. unfold heightMapAltitude.
  destruct (in_grid s (grid_x s x) (grid_z s z)) eqn:Hin.
  - destruct (in_grid_node s _ _ cells ok Hready Hin) as (_ & _ & v & Hload & _).
    rewrite Hload. eexists. reflexivity.
  - eexists. reflexivity.
Qed.

(** C6.  A frame drawn with the height map in place issues exactly two
    draw submissions.  The first draws [_landscape] with the uniform
    ["eau"] at 0, the color-ramp texture [_terrain_tId] bound to
    [GL_TEXTURE_1D] and the noise textures in use.  The second draws
    [_plan] after one rotation of -90 degrees about (1, 0, 0), with
    ["eau"] at 1 and the noise textures still in use; they are released
    after it.  The frame ends with the ten calls from the selection of
    the terrain to that release, in the order of the source, and it
    changes nothing but the log of calls. *)
Theorem draw_two_passes (A : arith)
    (MMAT4XVEC4 : list (f32 A) -> list (f32 A) -> list (f32 A))
    (ym : Z) (mat : list (f32 A)) (s : state A) (cells : list (f32 A)) :
  arith_ok A -> heightMap_ready s cells ->
  exists frame : list (call A),
    draw MMAT4XVEC4 ym mat s = Some (set_calls (calls s ++ frame) s) /\
    let terrain_pass :=
      {| selector := Some 0; texture_1d := Some (_terrain_tId s);
         noise_in_use := true; rotations := [] |} in
    let water_pass :=
      {| selector := Some 1; texture_1d := Some (_terrain_tId s);
         noise_in_use := true;
         rotations := [(f32_of_int A (-90), f32_of_int A 1,
                        f32_of_int A 0, f32_of_int A 0)] |} in
    let afterwards :=
      {| selector := Some 1; texture_1d := Some (_terrain_tId s);
         noise_in_use := false;
         rotations := [(f32_of_int A (-90), f32_of_int A 1,
                        f32_of_int A 0, f32_of_int A 0)] |} in
    submissions (gl_view_init A) frame
    = ([(_landscape s, terrain_pass); (_plan s, water_pass)], afterwards) /\
    exists before : list (call A),
      frame = before
              ++ [glUniform1i (_landscape_pId s) "eau" 0;
                  glUniform1f (_landscape_pId s) "cycle" (_cycle s);
                  glBindTexture GL_TEXTURE_1D (_terrain_tId s);
                  useNoiseTextures (_landscape_pId s) 1;
                  gl4dgDraw (_landscape s);
                  gl4duRotatef (f32_of_int A (-90)) (f32_of_int A 1)
                               (f32_of_int A 0) (f32_of_int A 0);
                  gl4duSendMatrices;
                  glUniform1i (_landscape_pId s) "eau" 1;
                  gl4dgDraw (_plan s);
                  unuseNoiseTextures 1].
Proof.
  intros ok Hready.
  destruct (heightMapAltitude_defined A s (cam_x (_cam s)) (cam_z (_cam s)) cells
              ok Hready) as [y Hy].
  unfold draw. rewrite emit_all_calls.
  change (heightMapAltitude _ _ _)
    with (heightMapAltitude s (cam_x (_cam s)) (cam_z (_cam s))).
  rewrite Hy.
  repeat (rewrite emit_all_calls;
          cbn [set_calls calls _cam _windowHeight _landscape_pId
               _landscape_scale_xz _landscape_scale_y _cycle _terrain_tId
               _landscape _plan]).
  rewrite <- !app_assoc.
  eexists. split; [reflexivity|]. split; [reflexivity|].
  cbn [app]. eexists (_ :: _ :: _ :: _ :: _ :: _ :: _ :: _ :: _ :: _ :: _ :: _ :: []).
  reflexivity.
Qed.

(** A frame on the 5 x 5 field, pointer at mid-height. *)
Lemma draw_two_passes_witness :
  exists s' : state Sample.c99,
    draw (A := Sample.c99) (fun _ v => v) 300 []
         (Sample.field5 Sample.c99 (IEEE.of_int32 1) [0; 0; 0; 0]) = Some s' /\
    fst (submissions (gl_view_init Sample.c99) (calls s'))
    = [(2, Build_gl_view Sample.c99 (Some 0) (Some 7) true []);
       (1, Build_gl_view Sample.c99 (Some 1) (Some 7) true
             [(IEEE.of_int32 (-90), IEEE.of_int32 1,
               IEEE.of_int32 0, IEEE.of_int32 0)])].
Proof.
  destruct (draw_two_passes Sample.c99 (fun _ v => v) 300 []
              (Sample.field5 Sample.c99 (IEEE.of_int32 1) [0; 0; 0; 0])
              (repeat (IEEE.of_int32 1) 25) (ieee_ok _ _) (field5_ready _ _ _))
    as (frame & Hd & Hs & _).
  eexists. split; [exact Hd|].
  cbn [calls set_calls Sample.field5 Sample.field app]. cbv zeta in Hs.
  rewrite Hs. reflexivity.
Defined.

(* ================================================================= *)
(** ** Shutdown *)

(** C7.  [quit] called twice in a row, in a state whose [_heightMap]
    is [NULL] or a live block, goes through both times.  The first call
    frees the block and deletes the texture only when their handles are
    not zero, and clears both handles; the second call issues
    [freeNoiseTextures] and [gl4duClean] only: nothing is freed or
    deleted a second time, and the heap and texture names stay as the
    first call left them. *)
Theorem quit_twice (A : arith) (s : state A) :
  _heightMap s = 0 \/ block_at (_heightMap s) (heap s) <> None ->
  exists s1 s2 : state A,
    quit s = Some s1 /\ quit s1 = Some s2 /\
    _heightMap s1 = 0 /\ _terrain_tId s1 = 0 /\
    calls s1 = calls s
               ++ [freeNoiseTextures]
               ++ (if _heightMap s =? 0 then [] else [free (_heightMap s)])
               ++ (if _terrain_tId s =? 0 then []
                   else [glDeleteTextures 1 (_terrain_tId s)])
               ++ [gl4duClean GL4DU_ALL] /\
    heap s1 = (if _heightMap s =? 0 then heap s
               else unmap (_heightMap s) (heap s)) /\
    calls s2 = calls s1 ++ [freeNoiseTextures; gl4duClean GL4DU_ALL] /\
    heap s2 = heap s1 /\ textures s2 = textures s1.
Proof.
  intros Hptr.
  assert (Hsecond : forall t : state A,
             _heightMap t = 0 -> _terrain_tId t = 0 ->
             quit t = Some (emit (gl4duClean GL4DU_ALL) (emit freeNoiseTextures t))).
  { intros t Hh Ht. unfold quit.
    change (_heightMap (emit freeNoiseTextures t)) with (_heightMap t).
    rewrite Hh. cbn [Z.eqb].
    change (_terrain_tId (emit freeNoiseTextures t)) with (_terrain_tId t).
    rewrite Ht. reflexivity. }
  assert (Hfirst : exists s1 : state A,
             quit s = Some s1 /\ _heightMap s1 = 0 /\ _terrain_tId s1 = 0 /\
             calls s1 = calls s
               ++ [freeNoiseTextures]
               ++ (if _heightMap s =? 0 then [] else [free (_heightMap s)])
               ++ (if _terrain_tId s =? 0 then []
                   else [glDeleteTextures 1 (_terrain_tId s)])
               ++ [gl4duClean GL4DU_ALL] /\
             heap s1 = (if _heightMap s =? 0 then heap s
                        else unmap (_heightMap s) (heap s))).
  { unfold quit.
    change (_heightMap (emit freeNoiseTextures s)) with (_heightMap s).
    destruct (_heightMap s =? 0) eqn:Hh.
    - change (_terrain_tId (emit freeNoiseTextures s)) with (_terrain_tId s).
      destruct (_terrain_tId s =? 0) eqn:Ht; eexists;
        (split; [reflexivity|]); cbn; rewrite ?Hh, ?Ht.
      + apply Z.eqb_eq in Hh, Ht. rewrite <- !app_assoc. auto.
      + apply Z.eqb_eq in Hh. rewrite <- !app_assoc. auto.
    - unfold do_free. rewrite Hh.
      change (heap (emit ?c (emit ?c' s))) with (heap s).
      destruct Hptr as [Hptr|Hptr]; [apply Z.eqb_neq in Hh; contradiction|].
      destruct (block_at (_heightMap s) (heap s)) as [cells|]; [|contradiction].
      match goal with
      | |- context [_terrain_tId ?t =? 0] =>
          change (_terrain_tId t) with (_terrain_tId s)
      end.
      destruct (_terrain_tId s =? 0) eqn:Ht; eexists;
        (split; [reflexivity|]); cbn; rewrite ?Hh, ?Ht.
      + apply Z.eqb_eq in Ht. rewrite <- !app_assoc. auto.
      + rewrite <- !app_assoc. auto. }
  destruct Hfirst as (s1 & Hq1 & Hh1 & Ht1 & Hc1 & Hheap1).
  exists s1, (emit (gl4duClean GL4DU_ALL) (emit freeNoiseTextures s1)).
  split; [exact Hq1|]. split; [apply Hsecond; assumption|].
  split; [exact Hh1|]. split; [exact Ht1|]. split; [exact Hc1|].
  split; [exact Hheap1|].
  cbn. rewrite <- app_assoc. auto.
Qed.

(** Shutdown, twice, of the process that owns the 5 x 5 field. *)
Lemma quit_twice_witness :
  let s := Sample.field5 Sample.c99 (IEEE.of_int32 1) [0; 0; 0; 0] in
  exists s1 s2 : state Sample.c99,
    quit s = Some s1 /\ quit s1 = Some s2 /\
    calls s2 = [freeNoiseTextures; free 4096; glDeleteTextures 1 7;
                gl4duClean GL4DU_ALL;
                freeNoiseTextures; gl4duClean GL4DU_ALL] /\
    heap s2 = [].
Proof.
  intros s.
  destruct (quit_twice Sample.c99 s) as (s1 & s2 & H1 & H2 & _ & _ & Hc1 & Hh1 & Hc2 & Hh2 & _).
  - right. discriminate.
  - exists s1, s2. split; [exact H1|]. split; [exact H2|].
    rewrite Hc2, Hh2, Hc1, Hh1. split; reflexivity.
Defined.

(* ================================================================= *)
(** ** Key handlers *)

(** C9.  For a key code other than the four arrows, 'w', Escape and
    'q', [keydown] returns with the state it was given and [keyup]
    returns that state too: no variable of the program, no GL state and
    no call to the outside changes. *)
Theorem unrecognized_key_ignored (A : arith) (s : state A) (keycode : Z) :
  keycode <> SDLK_LEFT -> keycode <> SDLK_RIGHT ->
  keycode <> SDLK_UP -> keycode <> SDLK_DOWN ->
  keycode <> key_w -> keycode <> SDLK_ESCAPE -> keycode <> key_q ->
  keydown keycode s = Continue s /\ keyup keycode s = s.
Proof.
  intros HL HR HU HD Hw He Hq.
  apply Z.eqb_neq in HL, HR, HU, HD, Hw, He, Hq.
  unfold keydown, keyup. rewrite HL, HR, HU, HD, Hw, He, Hq.
  split; reflexivity.
Qed.

(** The key 'a'. *)
Lemma unrecognized_key_ignored_witness :
  let s := Sample.field5 Sample.c99 (IEEE.of_int32 1) [0; 1; 0; 0] in
  keydown 97 s = Continue s /\ keyup 97 s = s.
Proof.
  intros s.
  apply (unrecognized_key_ignored Sample.c99 s 97); discriminate.
Defined.






(** *** The polygon mode over a whole run *)

Lemma quit_polygon_mode (A : arith) (s s' : state A) :
  quit s = Some s' -> polygon_mode s' = polygon_mode s.
Proof.
  unfold quit, do_free.
  change (_heightMap (emit freeNoiseTextures s)) with (_heightMap s).
  destruct (_heightMap s =? 0).
  - change (_terrain_tId (emit freeNoiseTextures s)) with (_terrain_tId s).
    destruct (_terrain_tId s =? 0); intros [= <-]; reflexivity.
  - change (heap (emit ?c (emit ?c' s))) with (heap s).
    destruct (block_at (_heightMap s) (heap s)); [|discriminate].
    match goal with
    | |- context [_terrain_tId ?t =? 0] =>
        change (_terrain_tId t) with (_terrain_tId s)
    end.
    destruct (_terrain_tId s =? 0); intros [= <-]; reflexivity.
Qed.

Lemma keydown_toggled (A : arith) (keycode : Z) (s s' : state A) :
  toggled (polygon_mode s) ->
  final_state (keydown keycode s) = Some s' ->
  toggled (polygon_mode s').
Proof.
  intros Ht. unfold keydown.
  destruct (keycode =? SDLK_LEFT); [intros [= <-]; exact Ht|].
  destruct (keycode =? SDLK_RIGHT); [intros [= <-]; exact Ht|].
  destruct (keycode =? SDLK_UP); [intros [= <-]; exact Ht|].
  destruct (keycode =? SDLK_DOWN); [intros [= <-]; exact Ht|].
  destruct (keycode =? key_w).
  - destruct (polygon_mode_eqb _ GL_FILL); intros [= <-];
      [right|left]; reflexivity.
  - destruct ((keycode =? SDLK_ESCAPE) || (keycode =? key_q)).
    + unfold do_exit. destruct (quit s) as [t|] eqn:Hq; [|discriminate].
      intros [= <-]. rewrite (quit_polygon_mode A s t Hq). exact Ht.
    + intros [= <-]. exact Ht.
Qed.

Lemma keyup_polygon_mode (A : arith) (keycode : Z) (s : state A) :
  polygon_mode (keyup keycode s) = polygon_mode s.
Proof.
  unfold keyup.
  repeat match goal with |- context [if ?b then _ else _] => destruct b end;
    reflexivity.
Qed.

Lemma idle_polygon_mode (A : arith) (t : f64 A) (s : state A) :
  polygon_mode (idle t s) = polygon_mode s.
Proof.
  unfold idle, get_dt. set (dt := div64 A _ _). set (s1 := set_t0 t s).
  change (polygon_mode s) with (polygon_mode s1).
  clearbody s1 dt. idle_cases s1; reflexivity.
Qed.

Lemma draw_polygon_mode (A : arith)
    (MMAT4XVEC4 : list (f32 A) -> list (f32 A) -> list (f32 A))
    (ym : Z) (mat : list (f32 A)) (s s' : state A) :
  draw MMAT4XVEC4 ym mat s = Some s' -> polygon_mode s' = polygon_mode s.
Proof.
  unfold draw. cbv zeta.
  destruct (heightMapAltitude _ _ _); [|discriminate].
  intros H. injection H as <-. reflexivity.
Qed.

(** X1.  However the run goes, the polygon mode it ends with is one of
    the two the wireframe key selects, provided it started with one. *)
Lemma main_loop_toggled (A : arith)
    (MMAT4XVEC4 : list (f32 A) -> list (f32 A) -> list (f32 A))
    (inputs : list (input A)) (s s' : state A) :
  toggled (polygon_mode s) ->
  final_state (main_loop MMAT4XVEC4 inputs s) = Some s' ->
  toggled (polygon_mode s').
Proof.
  revert s. induction inputs as [|i inputs IH]; intros s Ht.
  - intros [= <-]. exact Ht.
  - cbn [main_loop].
    destruct (dispatch MMAT4XVEC4 i s) as [t|code t|] eqn:Hd.
    + apply IH. destruct i as [k|k|t1|ym mat]; cbn [dispatch] in Hd.
      * apply (keydown_toggled A k s t Ht). rewrite Hd. reflexivity.
      * injection Hd as <-. rewrite keyup_polygon_mode. exact Ht.
      * injection Hd as <-. rewrite idle_polygon_mode. exact Ht.
      * destruct (draw MMAT4XVEC4 ym mat s) as [t'|] eqn:Hdraw; [|discriminate].
        injection Hd as <-. rewrite (draw_polygon_mode A _ _ _ _ _ Hdraw). exact Ht.
    + intros [= <-]. destruct i as [k|k|t1|ym mat]; cbn [dispatch] in Hd.
      * apply (keydown_toggled A k s t Ht). rewrite Hd. reflexivity.
      * discriminate.
      * discriminate.
      * destruct (draw MMAT4XVEC4 ym mat s); discriminate.
    + discriminate.
Qed.

(** A run with three presses of 'w' among other events. *)
Lemma main_loop_toggled_witness :
  toggled (GL_LINE, GL_LINE).
Proof.
  apply (main_loop_toggled Sample.c99 (fun _ v => v)
           [KeyDown key_w; Idle (A := Sample.c99) (IEEE.of_int64 16); KeyDown SDLK_UP;
            KeyDown key_w; KeyUp SDLK_UP; KeyDown key_w]
           (Sample.initial Sample.c99)
           (set_polygon_mode (GL_LINE, GL_LINE)
              (set_calls [glGetIntegerv_GL_POLYGON_MODE;
                          glPolygonMode GL_FRONT_AND_BACK GL_LINE;
                          glGetIntegerv_GL_POLYGON_MODE;
                          glPolygonMode GL_FRONT_AND_BACK GL_FILL;
                          glGetIntegerv_GL_POLYGON_MODE;
                          glPolygonMode GL_FRONT_AND_BACK GL_LINE]
                 (set_t0 (A := Sample.c99) (IEEE.of_int64 16)
                    (set_cycle (A := Sample.c99) (S754_finite false 8589935 (-29))
                       (Sample.initial Sample.c99)))))).
  - left. reflexivity.
  - reflexivity.
Defined.

(* ================================================================= *)
(** ** Further properties *)

(** X2.  With its height map in place, the altitude lookup is defined
    for every position of the camera, inside and outside the field: it
    never reads outside the map. *)
Theorem heightMapAltitude_never_fails (A : arith) (s : state A)
    (cells : list (f32 A)) :
  arith_ok A -> heightMap_ready s cells ->
  forall x z : f32 A, heightMapAltitude s x z <> None.
Proof.
  intros ok Hready x z.
  destruct (heightMapAltitude_defined A s x z cells ok Hready) as [y Hy].
  rewrite Hy. discriminate.
Qed.

(** A camera far outside the field. *)
Lemma heightMapAltitude_never_fails_witness :
  heightMapAltitude (Sample.peak5 Sample.c99)
                    (IEEE.of_int32 1000) (IEEE.of_int32 (-3)) <> None.
Proof.
  apply (heightMapAltitude_never_fails Sample.c99 (Sample.peak5 Sample.c99)
           (repeat (Sample.half Sample.c99) 12
            ++ [IEEE.of_int32 1] ++ repeat (Sample.half Sample.c99) 12)
           (ieee_ok _ _)).
  apply field_ready. reflexivity.
Defined.

(** The key code of each arrow. *)
Lemma keydown_arrow (A : arith) (s : state A) (k : kyes_t) :
  keydown (arrow k) s = Continue (set_key k 1 s).
Proof. destruct k; reflexivity. Qed.

Lemma keyup_arrow (A : arith) (s : state A) (k : kyes_t) :
  keyup (arrow k) s = set_key k 0 s.
Proof. destruct k; reflexivity. Qed.

Lemma key_set_key (A : arith) (s : state A) (k k' : kyes_t) (v : Z) :
  List.length (_keys s) = 4%nat ->
  key (set_key k v s) k' =
    if Nat.eqb (key_index k) (key_index k') then negb (v =? 0) else key s k'.
Proof.
  intros Hlen. unfold key, set_key. cbn [_keys set_keys].
  destruct (_keys s) as [|a [|b [|c [|d [|]]]]]; try discriminate Hlen.
  destruct k, k'; reflexivity.
Qed.

(** X3.  Pressing an arrow key sets its flag and releasing it clears
    the flag; the other three flags, the camera and the rest of the
    state stay as they are. *)
Theorem arrow_key_sets_its_flag (A : arith) (s : state A) (k : kyes_t) :
  List.length (_keys s) = 4%nat ->
  exists s1 : state A,
    keydown (arrow k) s = Continue s1 /\
    key s1 k = true /\ key (keyup (arrow k) s1) k = false /\
    (forall k' : kyes_t, k' <> k ->
       key s1 k' = key s k' /\ key (keyup (arrow k) s1) k' = key s k') /\
    s1 = set_keys (_keys s1) s /\
    keyup (arrow k) s1 = set_keys (_keys (keyup (arrow k) s1)) s.
Proof.
  intros Hlen. exists (set_key k 1 s).
  assert (Hlen1 : List.length (_keys (set_key k 1 s)) = 4%nat).
  { unfold set_key. cbn [_keys set_keys].
    destruct (_keys s) as [|a [|b [|c [|d [|]]]]]; try discriminate Hlen.
    destruct k; reflexivity. }
  split; [apply keydown_arrow|]. rewrite keyup_arrow.
  split; [rewrite key_set_key by assumption; rewrite Nat.eqb_refl; reflexivity|].
  split; [rewrite key_set_key by assumption; rewrite Nat.eqb_refl; reflexivity|].
  split; [|split; reflexivity].
  intros k' Hk'. rewrite !key_set_key by assumption.
  assert (Hne : Nat.eqb (key_index k) (key_index k') = false)
    by (destruct k, k'; try reflexivity; contradiction Hk'; reflexivity).
  rewrite Hne. split; reflexivity.
Qed.

(** The up arrow, pressed and released. *)
Lemma arrow_key_sets_its_flag_witness :
  exists s1 : state Sample.c99,
    keydown SDLK_UP (Sample.initial Sample.c99) = Continue s1 /\
    _keys s1 = [0; 0; 1; 0] /\ _keys (keyup SDLK_UP s1) = [0; 0; 0; 0].
Proof.
  destruct (arrow_key_sets_its_flag Sample.c99 (Sample.initial Sample.c99) KUP eq_refl)
    as (s1 & H1 & _ & _ & _ & Hs1 & Hs2).
  exists s1. split; [exact H1|].
  injection H1 as <-. split; reflexivity.
Defined.

Lemma idle_dt_t0 (A : arith) (s : state A) (dt : f64 A) :
  t0 (idle_dt dt s) = t0 s.
Proof. idle_cases s; reflexivity. Qed.

(** X4.  [get_dt] returns the time since the previous call in seconds
    and remembers the clock reading; so of two ticks in a row the second
    integrates over [(t2 - t1) / 1000.0]. *)
Theorem idle_measures_elapsed_time (A : arith) (s : state A) (t1 t2 : f64 A) :
  t0 (idle t1 s) = t1 /\
  idle t2 (idle t1 s)
  = idle_dt (div64 A (sub64 A t2 t1) (f64_of_int A 1000))
            (set_t0 t2 (idle t1 s)).
Proof.
  assert (H : t0 (idle t1 s) = t1).
  { unfold idle, get_dt. rewrite idle_dt_t0. reflexivity. }
  split; [exact H|].
  unfold idle at 1. unfold get_dt. rewrite H. reflexivity.
Qed.

(** X5.  A walk in floating point.  With one translation flag set and
    no rotation, ticks of elapsed times [dts] leave the yaw alone and take
    each coordinate to within [2^-23 * M + 2^-149] per tick of where
    exact arithmetic takes it: [x - 5 * T * sin theta] going forward and
    [x + 5 * T * sin theta] going backward, with [T] the sum of the
    elapsed times.  This holds for a C library whose sine and cosine of
    the yaw lie in [[-1, 1]] and a camera that stays within [M] of the
    origin, unless a coordinate overflowed. *)
Theorem walk_accuracy (sn cs : spec_float -> spec_float) (s : state (ieee sn cs))
    (fw : bool) (dts : list spec_float) (M : R) :
  let A := ieee sn cs in
  key s KLEFT = false -> key s KRIGHT = false ->
  key s KUP = fw -> key s KDOWN = negb fw ->
  (Rabs (IEEE.value (sin64 A (promote A (cam_theta (_cam s))))) <= 1)%R ->
  (Rabs (IEEE.value (cos64 A (promote A (cam_theta (_cam s))))) <= 1)%R ->
  Forall (inside M) (visited (A := A) dts s) ->
  IEEE.finite (cam_x (_cam (ticks (A := A) dts s))) = true ->
  IEEE.finite (cam_z (_cam (ticks (A := A) dts s))) = true ->
  let tol := (INR (List.length dts) * (powerRZ 2 (-23) * M + powerRZ 2 (-149)))%R in
  cam_theta (_cam (ticks (A := A) dts s)) = cam_theta (_cam s) /\
  (Rabs (IEEE.value (cam_x (_cam (ticks (A := A) dts s)))
         - (IEEE.value (cam_x (_cam s))
            + heading fw * 5 * duration dts
              * IEEE.value (sin64 A (promote A (cam_theta (_cam s))))))
   <= tol)%R /\
  (Rabs (IEEE.value (cam_z (_cam (ticks (A := A) dts s)))
         - (IEEE.value (cam_z (_cam s))
            + heading fw * 5 * duration dts
              * IEEE.value (cos64 A (promote A (cam_theta (_cam s))))))
   <= tol)%R.
Proof.
  intros A HL HR HU HD Hsn Hcs Hin Hfx Hfz tol.
  destruct (ieee_ticks_walk sn cs fw M dts s HL HR HU HD Hsn Hcs Hin Hfx Hfz)
    as (Hth & _ & _ & Hx & Hz).
  split; [exact Hth|]. split; [exact Hx|exact Hz].
Qed.

(** Two seconds backward from the origin, in two ticks: [z] is 10. *)
Lemma walk_accuracy_witness :
  let s := Sample.field5 Sample.c99 (IEEE.of_int32 1) [0; 0; 0; 1] in
  let dts := [IEEE.of_int64 1; IEEE.of_int64 1] in
  let z' := cam_z (_cam (ticks (A := Sample.c99) dts s)) in
  z' = IEEE.of_int32 10 /\
  (Rabs (IEEE.value z'
         - (IEEE.value (cam_z (_cam s))
            + heading false * 5 * duration dts
              * IEEE.value (cos64 Sample.c99 (promote Sample.c99 (cam_theta (_cam s))))))
   <= INR (List.length dts) * (powerRZ 2 (-23) * 10 + powerRZ 2 (-149)))%R.
Proof.
  intros s dts z'.
  assert (Hsn : (Rabs (IEEE.value (sin64 Sample.c99
                   (promote Sample.c99 (cam_theta (_cam s))))) <= 1)%R)
    by float_bound.
  assert (Hcs : (Rabs (IEEE.value (cos64 Sample.c99
                   (promote Sample.c99 (cam_theta (_cam s))))) <= 1)%R)
    by float_bound.
  assert (Hin : Forall (inside 10) (visited (A := Sample.c99) dts s)).
  { cbn [visited dts].
    apply Forall_cons; [split; float_bound|].
    apply Forall_cons; [split; float_bound|].
    apply Forall_cons; [split; float_bound|]. apply Forall_nil. }
  assert (Hfx : IEEE.finite (cam_x (_cam (ticks (A := Sample.c99) dts s))) = true)
    by (vm_compute; reflexivity).
  assert (Hfz : IEEE.finite (cam_z (_cam (ticks (A := Sample.c99) dts s))) = true)
    by (vm_compute; reflexivity).
  split; [vm_compute; reflexivity|].
  exact (proj2 (proj2 (walk_accuracy Sample.sin_taylor Sample.cos_taylor s false dts 10%R
                         eq_refl eq_refl eq_refl eq_refl Hsn Hcs Hin Hfx Hfz))).
Defined.

(* ================================================================= *)
(** ** The process *)

(** *** What the handlers leave alone *)

Lemma quit_first (A : arith) (s : state A) (cells : list (f32 A)) :
  _heightMap s <> 0 -> block_at (_heightMap s) (heap s) = Some cells ->
  exists s1 : state A,
    quit s = Some s1 /\ _heightMap s1 = 0 /\ _terrain_tId s1 = 0 /\
    heap s1 = unmap (_heightMap s) (heap s) /\
    textures s1 = (if _terrain_tId s =? 0 then textures s
                   else List.filter (fun t => negb (t =? _terrain_tId s)) (textures s)) /\
    calls s1 = calls s
               ++ [freeNoiseTextures; free (_heightMap s)]
               ++ (if _terrain_tId s =? 0 then []
                   else [glDeleteTextures 1 (_terrain_tId s)])
               ++ [gl4duClean GL4DU_ALL].
Proof.
  intros Hptr Hblock. apply Z.eqb_neq in Hptr.
  unfold quit, do_free.
  change (_heightMap (emit freeNoiseTextures s)) with (_heightMap s).
  rewrite Hptr.
  change (heap (emit ?c (emit ?c' s))) with (heap s). rewrite Hblock.
  match goal with
  | |- context [_terrain_tId ?t =? 0] => change (_terrain_tId t) with (_terrain_tId s)
  end.
  destruct (_terrain_tId s =? 0) eqn:Ht; eexists;
    (split; [reflexivity|]); cbn; rewrite ?Ht, <- ?app_assoc;
    try apply Z.eqb_eq in Ht; auto 10.
Qed.

Lemma keydown_resources (A : arith) (keycode : Z) (s s' : state A) :
  keydown keycode s = Continue s' -> resources s' = resources s.
Proof.
  unfold keydown.
  destruct (keycode =? SDLK_LEFT); [intros [= <-]; reflexivity|].
  destruct (keycode =? SDLK_RIGHT); [intros [= <-]; reflexivity|].
  destruct (keycode =? SDLK_UP); [intros [= <-]; reflexivity|].
  destruct (keycode =? SDLK_DOWN); [intros [= <-]; reflexivity|].
  destruct (keycode =? key_w).
  - destruct (polygon_mode_eqb _ GL_FILL); intros [= <-]; reflexivity.
  - destruct ((keycode =? SDLK_ESCAPE) || (keycode =? key_q)).
    + unfold do_exit. destruct (quit s); discriminate.
    + intros [= <-]. reflexivity.
Qed.

Lemma keyup_resources (A : arith) (keycode : Z) (s : state A) :
  resources (keyup keycode s) = resources s.
Proof.
  unfold keyup.
  repeat match goal with |- context [if ?b then _ else _] => destruct b end;
    reflexivity.
Qed.

Lemma idle_resources (A : arith) (t : f64 A) (s : state A) :
  resources (idle t s) = resources s.
Proof.
  unfold idle, get_dt. set (dt := div64 A _ _). set (s1 := set_t0 t s).
  change (resources s) with (resources s1).
  clearbody s1 dt. idle_cases s1; reflexivity.
Qed.

Lemma draw_resources (A : arith)
    (MMAT4XVEC4 : list (f32 A) -> list (f32 A) -> list (f32 A))
    (ym : Z) (mat : list (f32 A)) (s s' : state A) :
  draw MMAT4XVEC4 ym mat s = Some s' -> resources s' = resources s.
Proof.
  unfold draw. cbv zeta.
  destruct (heightMapAltitude _ _ _); [|discriminate].
  intros H. injection H as <-. reflexivity.
Qed.

Lemma dispatch_resources (A : arith)
    (MMAT4XVEC4 : list (f32 A) -> list (f32 A) -> list (f32 A))
    (i : input A) (s s' : state A) :
  dispatch MMAT4XVEC4 i s = Continue s' -> resources s' = resources s.
Proof.
  destruct i as [k|k|t|ym mat]; cbn [dispatch].
  - apply keydown_resources.
  - intros [= <-]. apply keyup_resources.
  - intros [= <-]. apply idle_resources.
  - destruct (draw MMAT4XVEC4 ym mat s) as [t'|] eqn:Hd; [|discriminate].
    intros [= <-]. apply (draw_resources A _ _ _ _ _ Hd).
Qed.

Lemma ready_resources (A : arith) (s s' : state A) (cells : list (f32 A)) :
  resources s' = resources s -> heightMap_ready s cells -> heightMap_ready s' cells.
Proof.
  unfold resources. intros [= Hw Hh Hp Ht Hheap Htex] [].
  constructor; rewrite ?Hw, ?Hh, ?Hp, ?Hheap; assumption.
Qed.

(** *** The protocol of the matrices *)

Lemma matrices_ok_app (A : arith) (c2 : list (op A)) :
  keeps_protocol c2 ->
  forall (c1 : list (op A)) (made : list string) (bound : option string),
    In "projectionMatrix"%string made -> In "modelViewMatrix"%string made ->
    matrices_ok made bound c1 = true ->
    matrices_ok made bound (c1 ++ c2) = true.
Proof.
  intros H2. induction c1 as [|o c1 IH]; intros made bound Hp Hm H1.
  - apply H2; assumption.
  - destruct o as [[]|[]]; cbn [app matrices_ok targets] in *;
      try (apply andb_true_iff in H1 as [Ha Hb]; rewrite Ha; cbn [andb]);
      apply IH; try assumption; try (right; assumption).
Qed.

Lemma keeps_protocol_app (A : arith) (c1 c2 : list (op A)) :
  keeps_protocol c1 -> keeps_protocol c2 -> keeps_protocol (c1 ++ c2).
Proof.
  intros H1 H2 made bound Hp Hm.
  apply matrices_ok_app; try assumption. apply H1; assumption.
Qed.

Lemma keeps_protocol_nil (A : arith) : keeps_protocol (A := A) [].
Proof. intros made bound _ _. reflexivity. Qed.

(** *** The calls of one handler *)

Lemma idle_calls (A : arith) (t : f64 A) (s : state A) : calls (idle t s) = calls s.
Proof.
  unfold idle, get_dt. set (dt := div64 A _ _). set (s1 := set_t0 t s).
  change (calls s) with (calls s1).
  clearbody s1 dt. idle_cases s1; reflexivity.
Qed.

Lemma keyup_calls (A : arith) (keycode : Z) (s : state A) :
  calls (keyup keycode s) = calls s.
Proof.
  unfold keyup.
  repeat match goal with |- context [if ?b then _ else _] => destruct b end;
    reflexivity.
Qed.

Lemma resize_vars (A : arith) (w h : Z) (p : process A) :
  vars (resize w h p) = set_windowHeight h (set_windowWidth w (vars p)).
Proof. reflexivity. Qed.

Lemma resize_trace (A : arith) (w h : Z) (p : process A) :
  trace (resize w h p) =
    trace p
    ++ [Host (glViewport 0 0 w h);
        Call (gl4duBindMatrix "projectionMatrix");
        Call gl4duLoadIdentityf;
        Host (gl4duFrustumf
                (demote A (neg64 A half64))
                (demote A half64)
                (demote A (div64 A (mul64 A (neg64 A half64) (f64_of_int A h))
                                   (f64_of_int A w)))
                (demote A (div64 A (mul64 A half64 (f64_of_int A h)) (f64_of_int A w)))
                (demote A (f64_of_int A 1))
                (demote A (f64_of_int A 1000)))].
Proof.
  cbn [resize issue issue_call assign trace vars]. rewrite <- !app_assoc. reflexivity.
Qed.

Lemma dispatch_chunk (A : arith)
    (MMAT4XVEC4 : list (f32 A) -> list (f32 A) -> list (f32 A))
    (i : input A) (s s' : state A) :
  calls s = [] ->
  dispatch MMAT4XVEC4 i s = Continue s' ->
  keeps_protocol (map Call (calls s')) /\
  List.filter is_release (map Call (calls s')) = [].
Proof.
  intros Hc. destruct i as [k|k|t|ym mat]; cbn [dispatch].
  - unfold keydown.
    destruct (k =? SDLK_LEFT);
      [intros [= <-]; cbn [calls set_key set_keys]; rewrite Hc;
       split; [apply keeps_protocol_nil|reflexivity]|].
    destruct (k =? SDLK_RIGHT);
      [intros [= <-]; cbn [calls set_key set_keys]; rewrite Hc;
       split; [apply keeps_protocol_nil|reflexivity]|].
    destruct (k =? SDLK_UP);
      [intros [= <-]; cbn [calls set_key set_keys]; rewrite Hc;
       split; [apply keeps_protocol_nil|reflexivity]|].
    destruct (k =? SDLK_DOWN);
      [intros [= <-]; cbn [calls set_key set_keys]; rewrite Hc;
       split; [apply keeps_protocol_nil|reflexivity]|].
    destruct (k =? key_w).
    + destruct (polygon_mode_eqb _ GL_FILL); intros [= <-];
        cbn [calls do_glPolygonMode set_polygon_mode emit set_calls]; rewrite Hc;
        (split; [protocol_chunk|reflexivity]).
    + destruct ((k =? SDLK_ESCAPE) || (k =? key_q)).
      * unfold do_exit. destruct (quit s); discriminate.
      * intros [= <-]. rewrite Hc. split; [apply keeps_protocol_nil|reflexivity].
  - intros [= <-]. rewrite keyup_calls, Hc.
    split; [apply keeps_protocol_nil|reflexivity].
  - intros [= <-]. rewrite idle_calls, Hc.
    split; [apply keeps_protocol_nil|reflexivity].
  - destruct (draw MMAT4XVEC4 ym mat s) as [t'|] eqn:Hd; [|discriminate].
    intros [= <-]. unfold draw in Hd. cbv zeta in Hd.
    destruct (heightMapAltitude _ _ _) as [y|]; [|discriminate].
    injection Hd as <-.
    cbn [calls emit set_calls]. rewrite Hc. cbn [app].
    split; [protocol_chunk|reflexivity].
Qed.

(** *** One event *)

Lemma draw_defined (A : arith)
    (MMAT4XVEC4 : list (f32 A) -> list (f32 A) -> list (f32 A))
    (ym : Z) (mat : list (f32 A)) (s : state A) (cells : list (f32 A)) :
  arith_ok A -> heightMap_ready s cells ->
  exists s' : state A, draw MMAT4XVEC4 ym mat s = Some s'.
Proof.
  intros ok Hready.
  destruct (heightMapAltitude_defined A s (cam_x (_cam s)) (cam_z (_cam s)) cells
              ok Hready) as [y Hy].
  unfold draw. rewrite emit_all_calls.
  change (heightMapAltitude _ _ _)
    with (heightMapAltitude s (cam_x (_cam s)) (cam_z (_cam s))).
  rewrite Hy. eexists. reflexivity.
Qed.

Section Run.
Context {A : arith}.
Variable MMAT4XVEC4 : list (f32 A) -> list (f32 A) -> list (f32 A).

Lemma handle_alive (ev : event A) (p p' : process A) :
  handle MMAT4XVEC4 ev p = Alive p' ->
  resources (vars p') = resources (vars p) /\
  exists chunk : list (op A),
    trace p' = trace p ++ chunk /\ keeps_protocol chunk /\
    List.filter is_release chunk = [].
Proof.
  destruct ev as [i|w h]; cbn [handle].
  - destruct (dispatch MMAT4XVEC4 i (set_calls [] (vars p))) as [s'|code s'|] eqn:Hd;
      cbn [ran]; try discriminate.
    intros [= <-]. cbn [vars trace returned].
    split.
    + change (resources (set_calls [] s')) with (resources s').
      rewrite (dispatch_resources A _ _ _ _ Hd). reflexivity.
    + exists (map Call (calls s')). split; [reflexivity|].
      apply (dispatch_chunk A MMAT4XVEC4 i (set_calls [] (vars p)) s' eq_refl Hd).
  - intros [= <-]. split; [reflexivity|].
    eexists. split; [apply resize_trace|].
    split; [protocol_chunk|reflexivity].
Qed.

Lemma handle_ended (ev : event A) (p p' : process A) (code : Z) :
  handle MMAT4XVEC4 ev p = Ended code p' ->
  code = 0 /\
  exists s1 : state A, quit (set_calls [] (vars p)) = Some s1 /\ p' = returned s1 p.
Proof.
  destruct ev as [[k|k|t|ym mat]|w h]; cbn [handle dispatch]; try discriminate.
  - unfold keydown.
    repeat match goal with
           | |- context [if ?b then Continue _ else _] => destruct b; [discriminate|]
           end.
    destruct (k =? key_w);
      [destruct (polygon_mode_eqb _ GL_FILL); discriminate|].
    destruct ((k =? SDLK_ESCAPE) || (k =? key_q)); [|discriminate].
    unfold do_exit. destruct (quit (set_calls [] (vars p))) as [s1|]; [|discriminate].
    cbn [ran]. intros [= <- <-]. split; [reflexivity|].
    exists s1. split; reflexivity.
  - destruct (draw MMAT4XVEC4 ym mat (set_calls [] (vars p))); discriminate.
Qed.

Lemma handle_defined (ev : event A) (p : process A) (cells : list (f32 A)) :
  arith_ok A -> heightMap_ready (vars p) cells ->
  exists p' : process A,
    handle MMAT4XVEC4 ev p = Alive p' \/ handle MMAT4XVEC4 ev p = Ended 0 p'.
Proof.
  intros ok Hready.
  assert (Hready0 : heightMap_ready (set_calls [] (vars p)) cells)
    by (apply (ready_resources A (vars p)); [reflexivity|exact Hready]).
  destruct ev as [[k|k|t|ym mat]|w h]; cbn [handle dispatch].
  - unfold keydown.
    repeat match goal with
           | |- context [if ?b then Continue ?x else _] =>
               destruct b; [eexists; left; reflexivity|]
           end.
    destruct (k =? key_w);
      [destruct (polygon_mode_eqb _ GL_FILL); eexists; left; reflexivity|].
    destruct ((k =? SDLK_ESCAPE) || (k =? key_q)); [|eexists; left; reflexivity].
    destruct (quit_first A (set_calls [] (vars p)) cells) as (s1 & Hq & _).
    + apply Hready0.
    + apply Hready0.
    + unfold do_exit. rewrite Hq. eexists. right. reflexivity.
  - eexists. left. reflexivity.
  - eexists. left. reflexivity.
  - destruct (draw_defined A MMAT4XVEC4 ym mat _ cells ok Hready0) as [s' Hd].
    rewrite Hd. eexists. left. reflexivity.
  - eexists. left. reflexivity.
Qed.

(** *** The loop, and the exit that follows it *)

Lemma event_loop_exit (cells : list (f32 A)) :
  arith_ok A ->
  forall (events : list (event A)) (p : process A),
    heightMap_ready (vars p) cells ->
    exists (p1 : process A) (s1 : state A) (chunk : list (op A)),
      match event_loop MMAT4XVEC4 events p with
      | Alive p' => ran (do_exit 0 (set_calls [] (vars p'))) p'
      | r => r
      end = Ended 0 (returned s1 p1) /\
      resources (vars p1) = resources (vars p) /\
      trace p1 = trace p ++ chunk /\ keeps_protocol chunk /\
      List.filter is_release chunk = [] /\
      quit (set_calls [] (vars p1)) = Some s1.
Proof.
  intros ok. induction events as [|ev events IH]; intros p Hready.
  - cbn [event_loop].
    assert (Hready0 : heightMap_ready (set_calls [] (vars p)) cells)
      by (apply (ready_resources A (vars p)); [reflexivity|exact Hready]).
    destruct (quit_first A (set_calls [] (vars p)) cells) as (s1 & Hq & _);
      [apply Hready0|apply Hready0|].
    exists p, s1, [].
    split; [unfold do_exit; rewrite Hq; reflexivity|]. split; [reflexivity|].
    split; [symmetry; apply app_nil_r|].
    split; [apply keeps_protocol_nil|]. split; [reflexivity|exact Hq].
  - cbn [event_loop].
    destruct (handle_defined ev p cells ok Hready) as [p' [Hh|Hh]]; rewrite Hh.
    + destruct (handle_alive ev p p' Hh) as (Hres & c1 & Ht1 & Hk1 & Hr1).
      destruct (IH p' (ready_resources A _ _ cells Hres Hready))
        as (p1 & s1 & c2 & Hrun & Hres2 & Ht2 & Hk2 & Hr2 & Hq).
      exists p1, s1, (c1 ++ c2).
      split; [exact Hrun|]. split; [rewrite Hres2; exact Hres|].
      split; [rewrite Ht2, Ht1, app_assoc; reflexivity|].
      split; [apply keeps_protocol_app; assumption|].
      split; [rewrite filter_app, Hr1, Hr2; reflexivity|exact Hq].
    + destruct (handle_ended ev p p' 0 Hh) as (_ & s1 & Hq & ->).
      exists p, s1, [].
      split; [reflexivity|]. split; [reflexivity|].
      split; [symmetry; apply app_nil_r|].
      split; [apply keeps_protocol_nil|]. split; [reflexivity|exact Hq].
Qed.

(** With the height map in place no event leads to undefined
    behaviour, and the height map stays in place. *)
Lemma event_loop_ready (cells : list (f32 A)) :
  arith_ok A ->
  forall (events : list (event A)) (p : process A),
    heightMap_ready (vars p) cells ->
    match event_loop MMAT4XVEC4 events p with
    | Alive p' => heightMap_ready (vars p') cells
    | Ended code _ => code = 0
    | Aborted _ | Undefined => False
    end.
Proof.
  intros ok. induction events as [|ev events IH]; intros p Hready.
  - exact Hready.
  - cbn [event_loop].
    destruct (handle_defined ev p cells ok Hready) as [p' [Hh|Hh]]; rewrite Hh.
    + destruct (handle_alive ev p p' Hh) as (Hres & _).
      apply IH. exact (ready_resources A _ _ cells Hres Hready).
    + reflexivity.
Qed.

End Run.

Lemma quit_chunk (A : arith) (s s1 : state A) :
  calls s = [] -> quit s = Some s1 -> keeps_protocol (map Call (calls s1)).
Proof.
  intros Hc. unfold quit, do_free.
  change (_heightMap (emit freeNoiseTextures s)) with (_heightMap s).
  destruct (_heightMap s =? 0).
  - change (_terrain_tId (emit freeNoiseTextures s)) with (_terrain_tId s).
    destruct (_terrain_tId s =? 0); intros [= <-];
      cbn [calls emit set_calls set_terrain_tId set_textures do_glDeleteTextures];
      rewrite Hc; protocol_chunk.
  - change (heap (emit ?c (emit ?c' s))) with (heap s).
    destruct (block_at (_heightMap s) (heap s)); [|discriminate].
    match goal with
    | |- context [_terrain_tId ?t =? 0] =>
        change (_terrain_tId t) with (_terrain_tId s)
    end.
    destruct (_terrain_tId s =? 0); intros [= <-];
      cbn [calls emit set_calls set_terrain_tId set_textures do_glDeleteTextures
           set_heightMap set_heap];
      rewrite Hc; protocol_chunk.
Qed.

Section Run.
Context {A : arith}.
Variable MMAT4XVEC4 : list (f32 A) -> list (f32 A) -> list (f32 A).

Lemma exit_trace (p p' : process A) (code : Z) :
  ran (do_exit 0 (set_calls [] (vars p))) p = Ended code p' ->
  exists chunk : list (op A), trace p' = trace p ++ chunk /\ keeps_protocol chunk.
Proof.
  unfold do_exit. destruct (quit (set_calls [] (vars p))) as [s1|] eqn:Hq;
    [|discriminate].
  cbn [ran]. intros [= <- <-]. exists (map Call (calls s1)).
  split; [reflexivity|]. apply (quit_chunk A (set_calls [] (vars p)) s1 eq_refl Hq).
Qed.

Lemma event_loop_trace (events : list (event A)) (p : process A) :
  match event_loop MMAT4XVEC4 events p with
  | Alive p' | Ended _ p' =>
      exists chunk : list (op A), trace p' = trace p ++ chunk /\ keeps_protocol chunk
  | Aborted _ => False
  | Undefined => True
  end.
Proof.
  revert p. induction events as [|ev events IH]; intros p.
  - cbn [event_loop]. exists []. split; [symmetry; apply app_nil_r|apply keeps_protocol_nil].
  - cbn [event_loop]. destruct (handle MMAT4XVEC4 ev p) as [p1|code p1|p1|] eqn:Hh.
    + destruct (handle_alive MMAT4XVEC4 ev p p1 Hh) as (_ & c1 & Ht1 & Hk1 & _).
      specialize (IH p1).
      destruct (event_loop MMAT4XVEC4 events p1) as [p2|code p2|p2|]; try exact IH.
      * destruct IH as (c2 & Ht2 & Hk2). exists (c1 ++ c2).
        split; [rewrite Ht2, Ht1, app_assoc; reflexivity|].
        apply keeps_protocol_app; assumption.
      * destruct IH as (c2 & Ht2 & Hk2). exists (c1 ++ c2).
        split; [rewrite Ht2, Ht1, app_assoc; reflexivity|].
        apply keeps_protocol_app; assumption.
    + destruct (handle_ended MMAT4XVEC4 ev p p1 code Hh) as (_ & s1 & Hq & ->).
      exists (map Call (calls s1)). split; [reflexivity|].
      apply (quit_chunk A (set_calls [] (vars p)) s1 eq_refl Hq).
    + destruct ev as [i|w h]; cbn [handle] in Hh; [|discriminate].
      destruct (dispatch MMAT4XVEC4 i (set_calls [] (vars p))); discriminate.
    + exact I.
Qed.

End Run.

(** *** Start-up *)

Lemma init_alive (A : arith) (e : environment A) (p : process A) (t : SDL_Surface) :
  image e = Some t ->
  exists p' : process A,
    init e p = Alive p' /\
    vars p' =
      set_terrain_tId (texture_name e)
        (generated (texture_name e)
           (set_landscape (grid_id e)
              (set_heightMap (heightmap_ptr e)
                 (allocated (heightmap_ptr e) (heightmap_cells e)
                    (set_plan (quad_id e)
                       (set_windowHeight (_windowHeight (vars p))
                          (set_windowWidth (_windowWidth (vars p))
                             (set_landscape_pId (program_id e) (vars p))))))))) /\
    exists chunk : list (op A),
      trace p' = trace p ++ chunk /\
      List.filter is_release chunk = [Host (SDL_FreeSurface t)] /\
      forall c : list (op A),
        keeps_protocol c -> matrices_ok [] None (chunk ++ c) = true.
Proof.
  intros Himg. unfold init. rewrite Himg. eexists. split; [reflexivity|].
  split; [reflexivity|].
  eexists. split.
  - cbn [resize issue issue_call assign trace vars]. rewrite <- !app_assoc. reflexivity.
  - split; [reflexivity|].
    intros c Hc. cbn [app matrices_ok targets andb existsb String.eqb].
    cbn. apply Hc; cbn; auto.
Qed.

Lemma started_machine (A : arith) (v : f32 A) :
  started (machine A 1 v (Some ramp)) ramp.
Proof.
  constructor; cbn [machine window_created heightmap_ptr heightmap_cells image].
  - discriminate.
  - discriminate.
  - rewrite repeat_length. apply Z2Nat.id. discriminate.
  - reflexivity.
Qed.

Section Main.
Context {A : arith}.
Variable MMAT4XVEC4 : list (f32 A) -> list (f32 A) -> list (f32 A).

Lemma main_boot (e : environment A) (t : SDL_Surface) :
  started e t ->
  exists p2 : process A,
    (forall events : list (event A),
       main MMAT4XVEC4 e events =
       match event_loop MMAT4XVEC4 events p2 with
       | Alive p => ran (do_exit 0 (set_calls [] (vars p))) p
       | r => r
       end) /\
    heightMap_ready (vars p2) (heightmap_cells e) /\
    resources (vars p2) =
      (513, 513, heightmap_ptr e, texture_name e,
       [(heightmap_ptr e, heightmap_cells e)],
       if texture_name e =? 0 then [] else [texture_name e]) /\
    List.filter is_release (trace p2) = [Host (SDL_FreeSurface t)] /\
    forall c : list (op A),
      keeps_protocol c -> matrices_ok [] None (trace p2 ++ c) = true.
Proof.
  intros [Hw Hp Hc Hi].
  apply Z.eqb_neq in Hw. pose proof Hp as Hp'. apply Z.eqb_neq in Hp'.
  unfold main. rewrite Hw. unfold init. rewrite Hi. eexists. split; [reflexivity|].
  split; [|split; [|split]].
  - unfold allocated, generated. rewrite Hp'.
    destruct (texture_name e =? 0); constructor;
      cbn -[Z.lt Z.le Z.mul Z.of_nat]; rewrite ?Z.eqb_refl;
      try lia; try assumption; reflexivity.
  - unfold resources. cbn. unfold allocated, generated. rewrite Hp'.
    destruct (texture_name e =? 0); reflexivity.
  - reflexivity.
  - intros c Hk. cbn. apply Hk; cbn; auto.
Qed.

(** X6.  Whatever the events, a program that started ends with exit
    code 0, and the calls of the whole run that release a resource are,
    in this order and each once: [SDL_FreeSurface] of the image (in
    [init]), then those of the one run of [quit], [freeNoiseTextures],
    [free] of the height map, [glDeleteTextures] of the texture when
    [glGenTextures] stored a name other than 0, and [gl4duClean].  In
    the end both handles are cleared and neither the block nor the
    texture name is live. *)
Theorem main_releases_once (e : environment A) (t : SDL_Surface)
    (events : list (event A)) :
  arith_ok A -> started e t ->
  exists p' : process A,
    main MMAT4XVEC4 e events = Ended 0 p' /\
    _heightMap (vars p') = 0 /\ _terrain_tId (vars p') = 0 /\
    heap (vars p') = [] /\ textures (vars p') = [] /\
    List.filter is_release (trace p') =
      [Host (SDL_FreeSurface t); Call freeNoiseTextures;
       Call (free (heightmap_ptr e))]
      ++ (if texture_name e =? 0 then []
          else [Call (glDeleteTextures 1 (texture_name e))])
      ++ [Call (gl4duClean GL4DU_ALL)].
Proof.
  intros ok Hs.
  destruct (main_boot e t Hs) as (p2 & Hmain & Hready & Hres & Hrel & _).
  rewrite Hmain.
  destruct (event_loop_exit MMAT4XVEC4 (heightmap_cells e) ok events p2 Hready)
    as (p1 & s1 & chunk & Hrun & Hres1 & Htr & _ & Hnone & Hq).
  rewrite Hrun. exists (returned s1 p1). split; [reflexivity|].
  rewrite Hres in Hres1. unfold resources in Hres1.
  injection Hres1 as _ _ Hptr Htid Hheap Htex.
  destruct (quit_first A (set_calls [] (vars p1)) (heightmap_cells e))
    as (s1' & Hq' & Hh & Ht & Hhp & Htx & Hcalls).
  - cbn [_heightMap set_calls]. rewrite Hptr. apply Hs.
  - cbn [_heightMap heap set_calls]. rewrite Hptr, Hheap.
    cbn [block_at]. rewrite Z.eqb_refl. reflexivity.
  - rewrite Hq in Hq'. injection Hq' as <-.
    cbn [_heightMap _terrain_tId heap textures set_calls calls] in Hhp, Htx, Hcalls.
    rewrite Hptr, Hheap in Hhp. rewrite Htid, Htex in Htx. rewrite Hptr, Htid in Hcalls.
    cbn [returned vars trace _heightMap _terrain_tId heap textures set_calls].
    split; [exact Hh|]. split; [exact Ht|].
    split; [rewrite Hhp; cbn; rewrite Z.eqb_refl; reflexivity|].
    split.
    + rewrite Htx. destruct (texture_name e =? 0) eqn:E; [reflexivity|].
      cbn. rewrite Z.eqb_refl. reflexivity.
    + rewrite Htr, !filter_app, Hrel, Hnone, Hcalls.
      destruct (texture_name e =? 0); reflexivity.
Qed.

(** X7.  The trace of the whole process keeps the protocol of the
    GL4Dummies matrices, however it ends short of undefined behaviour:
    a matrix is bound only after it was generated, and every matrix
    operation, of [resize] and of [draw], applies to the matrix it is
    meant for. *)
Theorem main_matrix_protocol (e : environment A) (events : list (event A)) :
  match main MMAT4XVEC4 e events with
  | Alive p | Ended _ p | Aborted p => matrices_ok [] None (trace p) = true
  | Undefined => True
  end.
Proof.
  unfold main. destruct (window_created e =? 0); [reflexivity|].
  destruct (image e) as [t|] eqn:Hi.
  - destruct (init_alive A e
                (issue (gl4duwCreateWindow "Landscape" SDL_WINDOWPOS_UNDEFINED
                          SDL_WINDOWPOS_UNDEFINED
                          (_windowWidth (Sample.initial A))
                          (_windowHeight (Sample.initial A))
                          SDL_WINDOW_RESIZABLE_or_SDL_WINDOW_SHOWN)
                   {| vars := Sample.initial A; trace := [] |}) t Hi)
      as (p1 & Hinit & _ & c1 & Ht1 & _ & Hk1).
    cbn [vars] in *. rewrite Hinit.
    match goal with
    | |- context [event_loop MMAT4XVEC4 events ?p] => set (p2 := p)
    end.
    assert (Hreg : exists c : list (op A),
               trace p2 = trace p1 ++ c /\ keeps_protocol c).
    { eexists. split.
      - unfold p2. cbn [issue trace vars]. rewrite <- !app_assoc. reflexivity.
      - protocol_chunk. }
    destruct Hreg as (c2 & Ht2 & Hk2).
    assert (Hall : forall (p : process A) (c : list (op A)),
               trace p = trace p2 ++ c -> keeps_protocol c ->
               matrices_ok [] None (trace p) = true).
    { intros p c Ht Hk. rewrite Ht, Ht2, Ht1. cbn [issue trace app].
      rewrite <- !app_assoc.
      change (matrices_ok [] None
                (Host (gl4duwCreateWindow "Landscape" SDL_WINDOWPOS_UNDEFINED
                         SDL_WINDOWPOS_UNDEFINED (_windowWidth (Sample.initial A))
                         (_windowHeight (Sample.initial A))
                         SDL_WINDOW_RESIZABLE_or_SDL_WINDOW_SHOWN)
                 :: c1 ++ c2 ++ c) = true).
      cbn [matrices_ok targets andb].
      apply Hk1. apply keeps_protocol_app; assumption. }
    pose proof (event_loop_trace MMAT4XVEC4 events p2) as Hloop.
    destruct (event_loop MMAT4XVEC4 events p2) as [p3|code p3|p3|];
      try exact I; try contradiction.
    + destruct Hloop as (c3 & Ht3 & Hk3).
      destruct (ran (do_exit 0 (set_calls [] (vars p3))) p3) as [p4|code p4|p4|] eqn:Hx;
        try exact I.
      * unfold do_exit in Hx. destruct (quit (set_calls [] (vars p3))); discriminate.
      * destruct (exit_trace p3 p4 code Hx) as (c4 & Ht4 & Hk4).
        apply (Hall p4 (c3 ++ c4)).
        -- rewrite Ht4, Ht3, app_assoc. reflexivity.
        -- apply keeps_protocol_app; assumption.
      * unfold do_exit in Hx. destruct (quit (set_calls [] (vars p3))); discriminate.
    + destruct Hloop as (c3 & Ht3 & Hk3). apply (Hall p3 c3); assumption.
  - unfold init. rewrite Hi. destruct (NDEBUG e); [exact I|]. reflexivity.
Qed.

End Main.

Lemma main_releases_once_witness :
  exists p' : process Sample.c99,
    main (fun _ _ => []) (machine Sample.c99 1 (Sample.half Sample.c99) (Some ramp))
         (session Sample.c99) = Ended 0 p' /\
    _heightMap (vars p') = 0 /\ _terrain_tId (vars p') = 0 /\
    heap (vars p') = [] /\ textures (vars p') = [] /\
    List.filter is_release (trace p') =
      [Host (SDL_FreeSurface ramp); Call freeNoiseTextures; Call (free 4096);
       Call (glDeleteTextures 1 7); Call (gl4duClean GL4DU_ALL)].
Proof.
  apply (main_releases_once (fun _ _ => [])
           (machine Sample.c99 1 (Sample.half Sample.c99) (Some ramp)) ramp
           (session Sample.c99) (ieee_ok _ _) (started_machine _ _)).
Defined.

(** *** [resize] *)

(** The three literals of [glClearColor]: in IEEE arithmetic
    [decimal32 n] is the binary32 number nearest to [n / 10], which is
    what the compiler stores for [0.0f], [0.4f] and [0.9f]. *)
Lemma decimal32_literals (sn cs : spec_float -> spec_float) :
  decimal32 (A := ieee sn cs) 0 = S754_zero false /\
  decimal32 (A := ieee sn cs) 4 = S754_finite false 13421773 (-25) /\
  decimal32 (A := ieee sn cs) 9 = S754_finite false 15099494 (-24).
Proof. repeat split; vm_compute; reflexivity. Qed.

Lemma SFdiv_opp_l (prec emax : Z) (a b : spec_float) :
  SFdiv prec emax (SFopp a) b = SFopp (SFdiv prec emax a b).
Proof.
  destruct a as [sa|sa| |sa ma ea], b as [sb|sb| |sb mb eb]; cbn [SFdiv SFopp];
    try reflexivity; try (destruct sa, sb; reflexivity).
  destruct (SFdiv_core_binary prec emax (Z.pos ma) ea (Z.pos mb) eb) as [[mz ez] lz].
  rewrite <- binary_round_aux_opp. f_equal. destruct sa, sb; reflexivity.
Qed.

Lemma round32_opp (x : spec_float) : IEEE.round32 (SFopp x) = SFopp (IEEE.round32 x).
Proof.
  destruct x as [s|s| |s m e]; cbn [IEEE.round32 SFopp]; try reflexivity.
  unfold binary_round.
  destruct (shl_align m e _) as [mz ez].
  apply binary_round_aux_opp.
Qed.

Lemma SFdiv_zero_r (prec emax : Z) (a : spec_float) (s : bool) :
  IEEE.finite (SFdiv prec emax a (S754_zero s)) = false.
Proof. destruct a; reflexivity. Qed.

Lemma round32_finite (x : spec_float) :
  IEEE.finite x = false -> IEEE.finite (IEEE.round32 x) = false.
Proof. destruct x; cbn [IEEE.round32 IEEE.finite]; intros H; try discriminate H; reflexivity. Qed.

Lemma last_frustum_app (A : arith) (t : list (op A)) (l r b u n f : f32 A) :
  last_frustum (t ++ [Host (gl4duFrustumf l r b u n f)]) = Some (l, r, b, u, n, f).
Proof.
  induction t as [|o t IH]; [reflexivity|].
  cbn [app last_frustum]. rewrite IH. reflexivity.
Qed.

(** X8.  [resize] records the size of the window and sets a frustum
    that is symmetric about the view axis, also after rounding: left is
    [-0.5], right [0.5], and bottom is top negated bit for bit.  Over the
    reals the top is [h / (2 w)], so that the frustum has the aspect
    ratio of the window.  The width is not checked: with [w = 0] the top
    is an infinity or a NaN. *)
Theorem resize_frustum :
  (forall (sn cs : spec_float -> spec_float) (w h : Z) (p : process (ieee sn cs)),
     exists top : spec_float,
       last_frustum (trace (resize w h p)) =
         Some (SFopp (S754_finite false 8388608 (-24)), S754_finite false 8388608 (-24),
               SFopp top, top,
               S754_finite false 8388608 (-23), S754_finite false 16384000 (-14)) /\
       (_windowWidth (vars (resize w h p)), _windowHeight (vars (resize w h p))) = (w, h) /\
       (w = 0 -> IEEE.finite top = false)) /\
  (forall (w h : Z) (p : process exact),
     w <> 0 ->
     last_frustum (trace (resize w h p)) =
       Some ((- (1 / 2))%R, (1 / 2)%R,
             (- (IZR h / (2 * IZR w)))%R, (IZR h / (2 * IZR w))%R, 1%R, 1000%R)).
Proof.
  split.
  - intros sn cs w h p.
    exists (IEEE.round32
              (SFdiv IEEE.prec64 IEEE.emax64
                 (SFmul IEEE.prec64 IEEE.emax64
                    (SFdiv IEEE.prec64 IEEE.emax64 (IEEE.of_int64 1) (IEEE.of_int64 2))
                    (IEEE.of_int64 h))
                 (IEEE.of_int64 w))).
    split; [|split].
    + unfold resize. cbn [issue issue_call assign trace vars].
      rewrite last_frustum_app.
      cbn [_windowHeight _windowWidth set_windowHeight set_windowWidth].
      unfold half64.
      cbn [demote neg64 div64 mul64 f64_of_int ieee].
      rewrite SFmul_opp_l, SFdiv_opp_l, !round32_opp.
      repeat f_equal; vm_compute; reflexivity.
    + reflexivity.
    + intros ->. apply round32_finite.
      change (IEEE.of_int64 0) with (S754_zero false). apply SFdiv_zero_r.
  - intros w h p Hw. unfold resize. cbn [issue issue_call assign trace vars].
    rewrite last_frustum_app.
    cbn [_windowHeight _windowWidth set_windowHeight set_windowWidth].
    unfold half64. cbn [demote neg64 div64 mul64 f64_of_int exact].
    assert (Hw' : IZR w <> 0%R) by (apply not_0_IZR; exact Hw).
    replace (- (1 / 2) * IZR h / IZR w)%R with (- (IZR h / (2 * IZR w)))%R
      by (field; assumption).
    replace (1 / 2 * IZR h / IZR w)%R with (IZR h / (2 * IZR w))%R
      by (field; assumption).
    reflexivity.
Qed.

Lemma resize_frustum_witness :
  last_frustum (trace (resize (A := exact) 1024 768
                         {| vars := Sample.initial exact; trace := [] |})) =
    Some ((- (1 / 2))%R, (1 / 2)%R,
          (- (IZR 768 / (2 * IZR 1024)))%R, (IZR 768 / (2 * IZR 1024))%R, 1%R, 1000%R).
Proof.
  apply (proj2 resize_frustum 1024 768). discriminate.
Defined.

(** *** [init] *)

(** X9.  [init] leaves the program ready to draw.  When the image
    loads and the height map is a non-null block of
    [_landscape_w * _landscape_h] samples (both dimensions positive and
    below 2^24, their product within [int]), [init] returns with the
    handles of the program, the quad, the grid and the texture stored and
    the camera, the keys, [_cycle] and the size of the window as before;
    and whatever events follow, no handler runs into undefined behaviour:
    the loop goes on or ends with code 0, the height map stays in place,
    and a frame drawn at any point of it is defined. *)
Theorem init_prepares_the_scene (A : arith) (e : environment A) (p : process A)
    (t : SDL_Surface) :
  arith_ok A ->
  image e = Some t -> heightmap_ptr e <> 0 ->
  0 < _landscape_w (vars p) < 16777216 ->
  0 < _landscape_h (vars p) < 16777216 ->
  _landscape_w (vars p) * _landscape_h (vars p) <= 2147483647 ->
  Z.of_nat (List.length (heightmap_cells e)) =
    _landscape_w (vars p) * _landscape_h (vars p) ->
  exists p' : process A,
    init e p = Alive p' /\
    heightMap_ready (vars p') (heightmap_cells e) /\
    (_landscape_pId (vars p'), _plan (vars p'), _landscape (vars p'),
     _terrain_tId (vars p'), _heightMap (vars p')) =
      (program_id e, quad_id e, grid_id e, texture_name e, heightmap_ptr e) /\
    (_cam (vars p'), _keys (vars p'), _cycle (vars p'),
     _windowWidth (vars p'), _windowHeight (vars p')) =
      (_cam (vars p), _keys (vars p), _cycle (vars p),
       _windowWidth (vars p), _windowHeight (vars p)) /\
    forall (MMAT4XVEC4 : list (f32 A) -> list (f32 A) -> list (f32 A))
           (events : list (event A)),
      match event_loop MMAT4XVEC4 events p' with
      | Alive p'' =>
          heightMap_ready (vars p'') (heightmap_cells e) /\
          forall (ym : Z) (mat : list (f32 A)),
            draw MMAT4XVEC4 ym mat (vars p'') <> None
      | Ended code _ => code = 0
      | Aborted _ | Undefined => False
      end.
Proof.
  intros ok Hi Hp Hw Hh Hint Hlen.
  destruct (init_alive A e p t Hi) as (p' & Hinit & Hvars & _).
  exists p'. split; [exact Hinit|].
  pose proof Hp as Hp'. apply Z.eqb_neq in Hp'.
  assert (Hready : heightMap_ready (vars p') (heightmap_cells e)).
  { rewrite Hvars. unfold allocated, generated. rewrite Hp'.
    destruct (texture_name e =? 0); constructor;
      cbn -[Z.lt Z.le Z.mul Z.of_nat]; rewrite ?Z.eqb_refl;
      try assumption; reflexivity. }
  split; [exact Hready|].
  split; [|split].
  - rewrite Hvars. unfold allocated, generated. rewrite Hp'.
    destruct (texture_name e =? 0); reflexivity.
  - rewrite Hvars. unfold allocated, generated. rewrite Hp'.
    destruct (texture_name e =? 0); reflexivity.
  - intros MM events.
    pose proof (event_loop_ready MM (heightmap_cells e) ok events p' Hready) as Hloop.
    destruct (event_loop MM events p') as [p''|code p''|p''|]; try exact Hloop.
    split; [exact Hloop|]. intros ym mat.
    destruct (draw_defined A MM ym mat (vars p'') (heightmap_cells e) ok Hloop)
      as [s' Hs'].
    rewrite Hs'. discriminate.
Qed.

Lemma init_prepares_the_scene_witness :
  exists p' : process Sample.c99,
    init (machine Sample.c99 1 (Sample.half Sample.c99) (Some ramp))
         {| vars := Sample.initial Sample.c99; trace := [] |} = Alive p' /\
    heightMap_ready (vars p') (repeat (Sample.half Sample.c99) (Z.to_nat (513 * 513))) /\
    (_landscape_pId (vars p'), _plan (vars p'), _landscape (vars p'),
     _terrain_tId (vars p'), _heightMap (vars p')) = (3, 1, 2, 7, 4096) /\
    (_cam (vars p'), _keys (vars p'), _cycle (vars p'),
     _windowWidth (vars p'), _windowHeight (vars p')) =
      (_cam (Sample.initial Sample.c99), [0; 0; 0; 0],
       _cycle (Sample.initial Sample.c99), 800, 600) /\
    forall (MMAT4XVEC4 : list spec_float -> list spec_float -> list spec_float)
           (events : list (event Sample.c99)),
      match event_loop (A := Sample.c99) MMAT4XVEC4 events p' with
      | Alive p'' =>
          heightMap_ready (vars p'')
            (repeat (Sample.half Sample.c99) (Z.to_nat (513 * 513))) /\
          forall (ym : Z) (mat : list spec_float),
            draw (A := Sample.c99) MMAT4XVEC4 ym mat (vars p'') <> None
      | Ended code _ => code = 0
      | Aborted _ | Undefined => False
      end.
Proof.
  apply (init_prepares_the_scene Sample.c99
           (machine Sample.c99 1 (Sample.half Sample.c99) (Some ramp))
           {| vars := Sample.initial Sample.c99; trace := [] |} ramp (ieee_ok _ _)).
  - reflexivity.
  - discriminate.
  - split; reflexivity.
  - split; reflexivity.
  - discriminate.
  - apply (started_cells _ _ (started_machine Sample.c99 (Sample.half Sample.c99))).
Defined.

(** *** Start-up that fails *)

Section Failure.
Context {A : arith}.
Variable MMAT4XVEC4 : list (f32 A) -> list (f32 A) -> list (f32 A).

(** X10.  When the window cannot be created, [main] returns 1 and
    has called nothing else.  When [alt.png] cannot be loaded, a build
    with assertions aborts inside [init]: the height map and the texture
    name are still allocated, nothing has been released and [quit] is not
    registered yet; a build with [NDEBUG] goes on to read through the
    null pointer. *)
Theorem main_start_up_failure (e : environment A) (events : list (event A)) :
  (window_created e = 0 ->
   main MMAT4XVEC4 e events =
     Ended 1 {| vars := Sample.initial A;
                trace := [Host (gl4duwCreateWindow "Landscape"
                                  SDL_WINDOWPOS_UNDEFINED SDL_WINDOWPOS_UNDEFINED
                                  800 600 SDL_WINDOW_RESIZABLE_or_SDL_WINDOW_SHOWN)] |}) /\
  (window_created e <> 0 -> image e = None ->
   exists p : process A,
     main MMAT4XVEC4 e events = (if NDEBUG e then Undefined else Aborted p) /\
     heap (vars p) = (if heightmap_ptr e =? 0 then []
                      else [(heightmap_ptr e, heightmap_cells e)]) /\
     textures (vars p) = (if texture_name e =? 0 then [] else [texture_name e]) /\
     List.filter is_release (trace p) = [] /\
     ~ In (Host (atexit Fquit)) (trace p)).
Proof.
  split.
  - intros Hw. unfold main. rewrite Hw. reflexivity.
  - intros Hw Hi. apply Z.eqb_neq in Hw. unfold main. rewrite Hw.
    unfold init. rewrite Hi. eexists. split.
    + destruct (NDEBUG e); reflexivity.
    + unfold allocated, generated.
      destruct (heightmap_ptr e =? 0), (texture_name e =? 0);
        (split; [reflexivity|]); (split; [reflexivity|]); (split; [reflexivity|]);
        cbn; intuition discriminate.
Qed.

End Failure.

Lemma main_start_up_failure_witness :
  main (fun _ _ => []) (machine Sample.c99 0 (Sample.half Sample.c99) (Some ramp))
       (session Sample.c99) =
    Ended 1 {| vars := Sample.initial Sample.c99;
               trace := [Host (gl4duwCreateWindow "Landscape"
                                 SDL_WINDOWPOS_UNDEFINED SDL_WINDOWPOS_UNDEFINED
                                 800 600 SDL_WINDOW_RESIZABLE_or_SDL_WINDOW_SHOWN)] |} /\
  exists p : process Sample.c99,
    main (fun _ _ => []) (machine Sample.c99 1 (Sample.half Sample.c99) None)
         (session Sample.c99) = Aborted p /\
    heap (vars p) = [(4096, repeat (Sample.half Sample.c99) (Z.to_nat (513 * 513)))] /\
    textures (vars p) = [7] /\
    List.filter is_release (trace p) = [] /\
    ~ In (Host (atexit Fquit)) (trace p).
Proof.
  split.
  - apply (proj1 (main_start_up_failure (fun _ _ => [])
                    (machine Sample.c99 0 (Sample.half Sample.c99) (Some ramp))
                    (session Sample.c99))).
    reflexivity.
  - apply (proj2 (main_start_up_failure (fun _ _ => [])
                    (machine Sample.c99 1 (Sample.half Sample.c99) None)
                    (session Sample.c99))).
    + discriminate.
    + reflexivity.
Defined.

(** *** The keyboard and the clock over the events *)

Lemma array_set_length (i : nat) (v : Z) (a : list Z) :
  List.length (array_set i v a) = List.length a.
Proof.
  revert i. induction a as [|w a IH]; intros i; [destruct i; reflexivity|].
  destruct i; cbn [array_set List.length]; [reflexivity|]. rewrite IH. reflexivity.
Qed.

Lemma set_key_length (A : arith) (k : kyes_t) (v : Z) (s : state A) :
  List.length (_keys (set_key k v s)) = List.length (_keys s).
Proof. unfold set_key. cbn [_keys set_keys]. apply array_set_length. Qed.

Lemma keydown_keys (A : arith) (keycode : Z) (s s' : state A) :
  List.length (_keys s) = 4%nat ->
  keydown keycode s = Continue s' ->
  List.length (_keys s') = 4%nat /\
  forall k : kyes_t,
    key s' k = if keycode =? arrow k then true else key s k.
Proof.
  intros Hlen. unfold keydown.
  destruct (keycode =? SDLK_LEFT) eqn:E1;
    [|destruct (keycode =? SDLK_RIGHT) eqn:E2;
      [|destruct (keycode =? SDLK_UP) eqn:E3;
        [|destruct (keycode =? SDLK_DOWN) eqn:E4]]].
  1-4: intros [= <-]; (split; [rewrite set_key_length; exact Hlen|]);
       intros k; rewrite (key_set_key A s _ k 1 Hlen);
       apply Z.eqb_eq in E1 || apply Z.eqb_eq in E2
       || apply Z.eqb_eq in E3 || apply Z.eqb_eq in E4;
       subst keycode; destruct k; reflexivity.
  assert (Hk : forall k : kyes_t, (keycode =? arrow k) = false)
    by (intros k; destruct k; assumption).
  destruct (keycode =? key_w).
  - change (polygon_mode (emit glGetIntegerv_GL_POLYGON_MODE s)) with (polygon_mode s).
    destruct (polygon_mode_eqb (fst (polygon_mode s)) GL_FILL);
      intros [= <-]; (split; [exact Hlen|]); intros k; rewrite Hk; reflexivity.
  - destruct ((keycode =? SDLK_ESCAPE) || (keycode =? key_q)).
    + unfold do_exit. destruct (quit s); discriminate.
    + intros [= <-]. split; [exact Hlen|]. intros k. rewrite Hk. reflexivity.
Qed.

Lemma keyup_keys (A : arith) (keycode : Z) (s : state A) :
  List.length (_keys s) = 4%nat ->
  List.length (_keys (keyup keycode s)) = 4%nat /\
  forall k : kyes_t,
    key (keyup keycode s) k = if keycode =? arrow k then false else key s k.
Proof.
  intros Hlen. unfold keyup.
  destruct (keycode =? SDLK_LEFT) eqn:E1;
    [|destruct (keycode =? SDLK_RIGHT) eqn:E2;
      [|destruct (keycode =? SDLK_UP) eqn:E3;
        [|destruct (keycode =? SDLK_DOWN) eqn:E4]]].
  1-4: (split; [rewrite set_key_length; exact Hlen|]);
       intros k; rewrite (key_set_key A s _ k 0 Hlen);
       apply Z.eqb_eq in E1 || apply Z.eqb_eq in E2
       || apply Z.eqb_eq in E3 || apply Z.eqb_eq in E4;
       subst keycode; destruct k; reflexivity.
  split; [exact Hlen|]. intros k. destruct k; cbn [arrow]; rewrite ?E1, ?E2, ?E3, ?E4;
    reflexivity.
Qed.

Lemma draw_vars (A : arith)
    (MMAT4XVEC4 : list (f32 A) -> list (f32 A) -> list (f32 A))
    (ym : Z) (mat : list (f32 A)) (s s' : state A) :
  draw MMAT4XVEC4 ym mat s = Some s' -> set_calls [] s' = set_calls [] s.
Proof.
  unfold draw. destruct (heightMapAltitude _ _ _); [|discriminate].
  intros [= <-]. reflexivity.
Qed.

Section Events.
Context {A : arith}.
Variable MMAT4XVEC4 : list (f32 A) -> list (f32 A) -> list (f32 A).

Lemma handle_keys (ev : event A) (p p' : process A) :
  List.length (_keys (vars p)) = 4%nat ->
  handle MMAT4XVEC4 ev p = Alive p' ->
  List.length (_keys (vars p')) = 4%nat /\
  forall k : kyes_t,
    key (vars p') k =
      match ev with
      | Input (KeyDown keycode) => if keycode =? arrow k then true else key (vars p) k
      | Input (KeyUp keycode) => if keycode =? arrow k then false else key (vars p) k
      | _ => key (vars p) k
      end.
Proof.
  intros Hlen. destruct ev as [[keycode|keycode|t|ym mat]|w h]; cbn [handle dispatch ran].
  - destruct (keydown keycode (set_calls [] (vars p))) as [s'| |] eqn:Hk;
      cbn [ran]; try discriminate.
    intros [= <-]. cbn [returned vars].
    destruct (keydown_keys A keycode (set_calls [] (vars p)) s' Hlen Hk) as [Hl Hkey].
    split; [exact Hl|]. intros k. exact (Hkey k).
  - intros [= <-]. cbn [returned vars].
    destruct (keyup_keys A keycode (set_calls [] (vars p)) Hlen) as [Hl Hkey].
    split; [exact Hl|]. intros k. exact (Hkey k).
  - intros [= <-]. cbn [returned vars]. unfold idle, get_dt.
    unfold key. cbn [_keys set_calls]. rewrite idle_dt_keys. cbn [_keys set_t0 set_calls].
    split; [exact Hlen|reflexivity].
  - destruct (draw MMAT4XVEC4 ym mat (set_calls [] (vars p))) as [s'|] eqn:Hd;
      cbn [ran]; [|discriminate].
    intros [= <-]. cbn [returned vars]. rewrite (draw_vars A _ _ _ _ _ Hd).
    split; [exact Hlen|reflexivity].
  - intros [= <-]. rewrite resize_vars. split; [exact Hlen|reflexivity].
Qed.

(** X11.  While the program runs, the flag of each arrow key says
    whether the last event of that key was a press: presses and releases
    of other keys, ticks, frames and changes of the window size leave it
    as it is. *)
Theorem keys_follow_the_events (events : list (event A)) (p p' : process A)
    (k : kyes_t) :
  List.length (_keys (vars p)) = 4%nat ->
  event_loop MMAT4XVEC4 events p = Alive p' ->
  key (vars p') k = held_after k events (key (vars p) k).
Proof.
  revert p. induction events as [|ev events IH]; intros p Hlen.
  - intros [= <-]. reflexivity.
  - cbn [event_loop]. destruct (handle MMAT4XVEC4 ev p) as [p1| | |] eqn:Hh;
      try discriminate.
    destruct (handle_keys ev p p1 Hlen Hh) as [Hl Hkey]. intros Hrun.
    rewrite (IH p1 Hl Hrun), Hkey.
    destruct ev as [[keycode|keycode|t|ym mat]|w h]; reflexivity.
Qed.

End Events.

Lemma keys_follow_the_events_witness :
  match event_loop (A := Sample.c99) (fun _ _ => [])
          [Input (KeyDown SDLK_UP); Resize 640 480; Input (KeyDown SDLK_LEFT);
           Input (Idle (f64_of_int Sample.c99 16)); Input (KeyDown 119);
           Input (KeyUp SDLK_LEFT)]
          {| vars := Sample.initial Sample.c99; trace := [] |} with
  | Alive p' => key (vars p') KUP = true /\ key (vars p') KLEFT = false
  | _ => False
  end.
Proof.
  destruct (event_loop (A := Sample.c99) (fun _ _ => [])
              [Input (KeyDown SDLK_UP); Resize 640 480; Input (KeyDown SDLK_LEFT);
               Input (Idle (f64_of_int Sample.c99 16)); Input (KeyDown 119);
               Input (KeyUp SDLK_LEFT)]
              {| vars := Sample.initial Sample.c99; trace := [] |})
    as [p'|code p'|p'|] eqn:E; try discriminate E.
  split.
  - exact (keys_follow_the_events (fun _ _ => []) _
             {| vars := Sample.initial Sample.c99; trace := [] |} p' KUP eq_refl E).
  - exact (keys_follow_the_events (fun _ _ => []) _
             {| vars := Sample.initial Sample.c99; trace := [] |} p' KLEFT eq_refl E).
Defined.

(** *** The clock *)

Lemma keydown_clock (A : arith) (keycode : Z) (s s' : state A) :
  keydown keycode s = Continue s' -> t0 s' = t0 s /\ _cycle s' = _cycle s.
Proof.
  unfold keydown.
  destruct (keycode =? SDLK_LEFT); [intros [= <-]; split; reflexivity|].
  destruct (keycode =? SDLK_RIGHT); [intros [= <-]; split; reflexivity|].
  destruct (keycode =? SDLK_UP); [intros [= <-]; split; reflexivity|].
  destruct (keycode =? SDLK_DOWN); [intros [= <-]; split; reflexivity|].
  destruct (keycode =? key_w).
  - change (polygon_mode (emit glGetIntegerv_GL_POLYGON_MODE s)) with (polygon_mode s).
    destruct (polygon_mode_eqb (fst (polygon_mode s)) GL_FILL);
      intros [= <-]; split; reflexivity.
  - destruct ((keycode =? SDLK_ESCAPE) || (keycode =? key_q)).
    + unfold do_exit. destruct (quit s); discriminate.
    + intros [= <-]; split; reflexivity.
Qed.

Lemma keyup_clock (A : arith) (keycode : Z) (s : state A) :
  t0 (keyup keycode s) = t0 s /\ _cycle (keyup keycode s) = _cycle s.
Proof.
  unfold keyup.
  destruct (keycode =? SDLK_LEFT); [split; reflexivity|].
  destruct (keycode =? SDLK_RIGHT); [split; reflexivity|].
  destruct (keycode =? SDLK_UP); [split; reflexivity|].
  destruct (keycode =? SDLK_DOWN); split; reflexivity.
Qed.

Section Clock.
Variable MMAT4XVEC4 : list (f32 exact) -> list (f32 exact) -> list (f32 exact).

Lemma handle_clock (ev : event exact) (p p' : process exact) :
  handle (A := exact) MMAT4XVEC4 ev p = Alive p' ->
  t0 (vars p') = last_tick [ev] (t0 (vars p)) /\
  _cycle (vars p') =
    (_cycle (vars p) + (last_tick [ev] (t0 (vars p)) - t0 (vars p)) / 1000)%R.
Proof.
  destruct ev as [[keycode|keycode|t|ym mat]|w h]; cbn [handle dispatch ran last_tick].
  - destruct (keydown keycode (set_calls [] (vars p))) as [s'| |] eqn:Hk;
      cbn [ran]; try discriminate.
    intros [= <-]. cbn [returned vars].
    destruct (keydown_clock exact keycode (set_calls [] (vars p)) s' Hk) as [Ht Hc].
    cbn [t0 _cycle set_calls] in *. rewrite Ht, Hc. split; [reflexivity|].
    exact_arith. lra.
  - intros [= <-]. cbn [returned vars].
    destruct (keyup_clock exact keycode (set_calls [] (vars p))) as [Ht Hc].
    cbn [t0 _cycle set_calls] in *. rewrite Ht, Hc. split; [reflexivity|].
    exact_arith. lra.
  - intros [= <-]. cbn [returned vars t0 _cycle set_calls]. unfold idle, get_dt.
    rewrite idle_dt_t0, idle_dt_cycle. cbn [t0 _cycle set_t0 set_calls].
    split; reflexivity.
  - destruct (draw (A := exact) MMAT4XVEC4 ym mat (set_calls [] (vars p))) as [s'|] eqn:Hd;
      cbn [ran]; [|discriminate].
    intros [= <-]. cbn [returned vars]. rewrite (draw_vars exact _ _ _ _ _ Hd).
    cbn [t0 _cycle set_calls]. split; [reflexivity|].
    exact_arith. lra.
  - intros [= <-]. rewrite resize_vars. cbn [t0 _cycle set_windowWidth set_windowHeight].
    split; [reflexivity|].
    exact_arith. lra.
Qed.

(** X12.  Over the reals, [_cycle] advances by the time between the
    first and the last clock reading, in seconds, however the time is cut
    into ticks, and whatever keys, frames and changes of size come in
    between; [get_dt] remembers the last reading. *)
Theorem cycle_is_the_elapsed_time (events : list (event exact)) (p p' : process exact) :
  event_loop (A := exact) MMAT4XVEC4 events p = Alive p' ->
  t0 (vars p') = last_tick events (t0 (vars p)) /\
  _cycle (vars p') =
    (_cycle (vars p) + (last_tick events (t0 (vars p)) - t0 (vars p)) / 1000)%R.
Proof.
  revert p. induction events as [|ev events IH]; intros p.
  - intros [= <-]. cbn [last_tick]. split; [reflexivity|].
    exact_arith. lra.
  - cbn [event_loop]. destruct (handle (A := exact) MMAT4XVEC4 ev p) as [p1| | |] eqn:Hh;
      try discriminate.
    intros Hrun. destruct (handle_clock ev p p1 Hh) as [Ht1 Hc1].
    destruct (IH p1 Hrun) as [Ht Hc].
    assert (Hlast : last_tick (ev :: events) (t0 (vars p)) =
                    last_tick events (t0 (vars p1))).
    { rewrite Ht1. destruct ev as [[keycode|keycode|t|ym mat]|w h]; reflexivity. }
    rewrite Hlast. split; [exact Ht|].
    rewrite Hc, Hc1, <- Ht1.
    exact_arith. lra.
Qed.

End Clock.

Lemma cycle_is_the_elapsed_time_witness :
  match event_loop (A := exact) (fun _ _ => [])
          [Input (Idle (f64_of_int exact 16)); Input (KeyDown SDLK_UP); Input (Idle (f64_of_int exact 40));
           Resize 640 480; Input (Idle (f64_of_int exact 1000)); Input (KeyUp SDLK_UP)]
          {| vars := Sample.initial exact; trace := [] |} with
  | Alive p' =>
      t0 (vars p') = 1000%R /\ _cycle (vars p') = (0 + (1000 - 0) / 1000)%R
  | _ => False
  end.
Proof.
  destruct (event_loop (A := exact) (fun _ _ => [])
              [Input (Idle (f64_of_int exact 16)); Input (KeyDown SDLK_UP); Input (Idle (f64_of_int exact 40));
               Resize 640 480; Input (Idle (f64_of_int exact 1000)); Input (KeyUp SDLK_UP)]
              {| vars := Sample.initial exact; trace := [] |})
    as [p'|code p'|p'|] eqn:E; try discriminate E.
  exact (cycle_is_the_elapsed_time (fun _ _ => []) _
           {| vars := Sample.initial exact; trace := [] |} p' E).
Defined.

(** *** A height map that was not allocated *)

Lemma draw_null (A : arith)
    (MMAT4XVEC4 : list (f32 A) -> list (f32 A) -> list (f32 A))
    (ym : Z) (mat : list (f32 A)) (s : state A) :
  _heightMap s = 0 ->
  in_grid s (grid_x s (cam_x (_cam s))) (grid_z s (cam_z (_cam s))) = true ->
  draw MMAT4XVEC4 ym mat s = None.
Proof.
  intros Hp Hin. unfold draw. rewrite emit_all_calls.
  change (heightMapAltitude _ _ _)
    with (heightMapAltitude s (cam_x (_cam s)) (cam_z (_cam s))).
  unfold heightMapAltitude. rewrite Hin. unfold load. rewrite Hp. reflexivity.
Qed.

Lemma quit_null (A : arith) (s : state A) : _heightMap s = 0 -> quit s <> None.
Proof.
  intros Hp. unfold quit.
  change (_heightMap (emit freeNoiseTextures s)) with (_heightMap s).
  rewrite Hp. cbn [Z.eqb]. discriminate.
Qed.

Section Frameless.
Context {A : arith}.
Variable MMAT4XVEC4 : list (f32 A) -> list (f32 A) -> list (f32 A).

Lemma handle_frameless (ev : event A) (p : process A) :
  _heightMap (vars p) = 0 ->
  frameless [ev] = true ->
  exists p' : process A,
    (handle MMAT4XVEC4 ev p = Alive p' /\ _heightMap (vars p') = 0) \/
    handle MMAT4XVEC4 ev p = Ended 0 p'.
Proof.
  intros Hnull Hev.
  assert (Hkeep : forall p' : process A,
             handle MMAT4XVEC4 ev p = Alive p' -> _heightMap (vars p') = 0).
  { intros p' Hh. destruct (handle_alive MMAT4XVEC4 ev p p' Hh) as (Hres & _).
    unfold resources in Hres. injection Hres as _ _ Hptr _ _ _.
    rewrite Hptr. exact Hnull. }
  destruct ev as [[k|k|t|ym mat]|w h]; try discriminate Hev; clear Hev.
  - revert Hkeep. cbn [handle dispatch]. unfold keydown.
    repeat match goal with
           | |- context [if ?b then Continue ?x else _] =>
               destruct b;
               [intros Hkeep; eexists; left; split; [reflexivity|];
                apply Hkeep; reflexivity|]
           end.
    destruct (k =? key_w);
      [destruct (polygon_mode_eqb _ GL_FILL); intros Hkeep; eexists; left;
       (split; [reflexivity|]); apply Hkeep; reflexivity|].
    destruct ((k =? SDLK_ESCAPE) || (k =? key_q));
      [|intros Hkeep; eexists; left; split; [reflexivity|];
        apply Hkeep; reflexivity].
    intros _. unfold do_exit.
    pose proof (quit_null A (set_calls [] (vars p)) Hnull) as Hq.
    destruct (quit (set_calls [] (vars p))) as [s1|]; [|contradiction].
    eexists. right. reflexivity.
  - eexists. left. split; [reflexivity|]. apply Hkeep. reflexivity.
  - eexists. left. split; [reflexivity|]. apply Hkeep. reflexivity.
  - eexists. left. split; [reflexivity|]. apply Hkeep. reflexivity.
Qed.

Lemma event_loop_frameless (events : list (event A)) (p : process A) :
  _heightMap (vars p) = 0 ->
  frameless events = true ->
  exists p' : process A,
    (event_loop MMAT4XVEC4 events p = Alive p' /\ _heightMap (vars p') = 0) \/
    event_loop MMAT4XVEC4 events p = Ended 0 p'.
Proof.
  revert p. induction events as [|ev events IH]; intros p Hnull Hfr.
  - exists p. left. split; [reflexivity|exact Hnull].
  - cbn [frameless forallb] in Hfr. apply andb_true_iff in Hfr as [Hev Hfr].
    cbn [event_loop].
    destruct (handle_frameless ev p Hnull) as [p1 [[Hh Hn1]|Hh]].
    + cbn [frameless forallb]. rewrite Hev. reflexivity.
    + rewrite Hh. apply (IH p1 Hn1 Hfr).
    + rewrite Hh. exists p1. right. reflexivity.
Qed.

End Frameless.

(** X13.  Neither [init] nor [draw] checks the pointer that
    [gl4dmTriangleEdge] returns.  When it is NULL the program starts all
    the same; every run in which no frame is drawn ends with code 0; and
    a run whose first event is a frame, drawn with the camera at the
    origin, reads through the null pointer. *)
Theorem main_without_height_map (sn cs : spec_float -> spec_float)
    (MMAT4XVEC4 : list spec_float -> list spec_float -> list spec_float)
    (e : environment (ieee sn cs)) (t : SDL_Surface) :
  window_created e <> 0 -> image e = Some t -> heightmap_ptr e = 0 ->
  (forall events : list (event (ieee sn cs)),
     frameless events = true ->
     exists p' : process (ieee sn cs),
       main (A := ieee sn cs) MMAT4XVEC4 e events = Ended 0 p') /\
  (forall (ym : Z) (mat : list spec_float) (events : list (event (ieee sn cs))),
     main (A := ieee sn cs) MMAT4XVEC4 e
          (Input (Display (A := ieee sn cs) ym mat) :: events) = Undefined).
Proof.
  intros Hw Hi Hp. apply Z.eqb_neq in Hw. split.
  - intros events Hfr.
    unfold main. rewrite Hw. unfold init. rewrite Hi, Hp.
    unfold generated, allocated. cbn [Z.eqb].
    match goal with
    | |- context [event_loop MMAT4XVEC4 events ?p] =>
        destruct (event_loop_frameless (A := ieee sn cs) MMAT4XVEC4 events p)
          as [p1 [[Hev Hn1]|Hev]];
        [destruct (texture_name e =? 0); reflexivity|exact Hfr| |]
    end.
    + rewrite Hev. unfold do_exit.
      pose proof (quit_null (ieee sn cs) (set_calls [] (vars p1)) Hn1) as Hq.
      destruct (quit (set_calls [] (vars p1))) as [s1|]; [|contradiction].
      eexists. reflexivity.
    + rewrite Hev. exists p1. reflexivity.
  - intros ym mat events.
    unfold main. rewrite Hw. unfold init. rewrite Hi, Hp.
    unfold generated, allocated. cbn [event_loop handle dispatch Z.eqb].
    rewrite (draw_null (ieee sn cs)); [reflexivity| |].
    + destruct (texture_name e =? 0); reflexivity.
    + destruct (texture_name e =? 0); vm_compute; reflexivity.
Qed.

Lemma main_without_height_map_witness :
  (exists p' : process Sample.c99,
     main (A := Sample.c99) (fun _ _ => [])
          {| NDEBUG := false; __APPLE__ := false; window_created := 1;
             time_now := 1488844800; program_id := 3; quad_id := 1;
             heightmap_ptr := 0; heightmap_cells := [];
             grid_id := 2; texture_name := 7; image := Some ramp |}
          [Resize 1024 768; Input (KeyDown SDLK_UP);
           Input (Idle (f64_of_int Sample.c99 16)); Input (KeyUp SDLK_UP)]
     = Ended 0 p') /\
  main (A := Sample.c99) (fun _ _ => [])
       {| NDEBUG := false; __APPLE__ := false; window_created := 1;
          time_now := 1488844800; program_id := 3; quad_id := 1;
          heightmap_ptr := 0; heightmap_cells := [];
          grid_id := 2; texture_name := 7; image := Some ramp |}
       (Input (Display 300 []) :: session Sample.c99) = Undefined.
Proof.
  destruct (main_without_height_map Sample.sin_taylor Sample.cos_taylor (fun _ _ => [])
              {| NDEBUG := false; __APPLE__ := false; window_created := 1;
                 time_now := 1488844800; program_id := 3; quad_id := 1;
                 heightmap_ptr := 0; heightmap_cells := [];
                 grid_id := 2; texture_name := 7; image := Some ramp |}
              ramp) as [Hrun Hframe].
  - discriminate.
  - reflexivity.
  - reflexivity.
  - split.
    + apply Hrun. reflexivity.
    + apply Hframe.
Defined.

(** *** Leaving *)

Section Leaving.
Context {A : arith}.
Variable MMAT4XVEC4 : list (f32 A) -> list (f32 A) -> list (f32 A).

Lemma event_loop_app (evs1 evs2 : list (event A)) (p : process A) :
  event_loop MMAT4XVEC4 (evs1 ++ evs2) p =
    match event_loop MMAT4XVEC4 evs1 p with
    | Alive p' => event_loop MMAT4XVEC4 evs2 p'
    | r => r
    end.
Proof.
  revert p. induction evs1 as [|ev evs1 IH]; intros p; [reflexivity|].
  cbn [app event_loop]. destruct (handle MMAT4XVEC4 ev p); try reflexivity. apply IH.
Qed.

Lemma keydown_leaves (keycode : Z) (s : state A) :
  keycode = SDLK_ESCAPE \/ keycode = key_q ->
  keydown keycode s = do_exit 0 s.
Proof. intros [-> | ->]; reflexivity. Qed.

(** X14.  [q] and Escape end the program as the return of the main
    loop does: [quit] runs once, the exit code is 0, and no event that
    comes after the key is handled. *)
Theorem leaving_ends_the_run (e : environment A) (evs1 evs2 : list (event A))
    (keycode : Z) :
  keycode = SDLK_ESCAPE \/ keycode = key_q ->
  main MMAT4XVEC4 e (evs1 ++ Input (KeyDown keycode) :: evs2) =
  main MMAT4XVEC4 e evs1.
Proof.
  intros Hk. unfold main. destruct (window_created e =? 0); [reflexivity|].
  destruct (init e _) as [p| | |]; try reflexivity.
  rewrite event_loop_app.
  match goal with
  | |- context [event_loop MMAT4XVEC4 evs1 ?q] =>
      destruct (event_loop MMAT4XVEC4 evs1 q) as [p1| | |]; try reflexivity
  end.
  cbn [event_loop handle dispatch]. rewrite (keydown_leaves keycode _ Hk).
  destruct (ran (do_exit 0 (set_calls [] (vars p1))) p1) eqn:Hx; try reflexivity.
  unfold do_exit in Hx. destruct (quit (set_calls [] (vars p1))); discriminate.
Qed.

End Leaving.

Lemma leaving_ends_the_run_witness :
  main (fun _ _ => []) (machine Sample.c99 1 (Sample.half Sample.c99) (Some ramp))
       ([Resize 1024 768; Input (KeyDown SDLK_UP)]
        ++ Input (KeyDown SDLK_ESCAPE) :: session Sample.c99) =
  main (fun _ _ => []) (machine Sample.c99 1 (Sample.half Sample.c99) (Some ramp))
       [Resize 1024 768; Input (KeyDown SDLK_UP)].
Proof.
  apply (leaving_ends_the_run (fun _ _ => [])
           (machine Sample.c99 1 (Sample.half Sample.c99) (Some ramp))
           [Resize 1024 768; Input (KeyDown SDLK_UP)] (session Sample.c99) SDLK_ESCAPE).
  left. reflexivity.
Defined.

(** *** Walking where the camera looks *)

Lemma last_look_at_app (A : arith) (t1 t2 : list (op A)) :
  last_look_at (t1 ++ t2) =
    match last_look_at t2 with
    | Some v => Some v
    | None => last_look_at t1
    end.
Proof.
  induction t1 as [|o t1 IH]; cbn [app last_look_at].
  - destruct (last_look_at t2); reflexivity.
  - rewrite IH. destruct (last_look_at t2); [reflexivity|].
    destruct (last_look_at t1); reflexivity.
Qed.

Lemma draw_look_at (A : arith)
    (MMAT4XVEC4 : list (f32 A) -> list (f32 A) -> list (f32 A))
    (ym : Z) (mat : list (f32 A)) (s s' : state A) :
  draw MMAT4XVEC4 ym mat s = Some s' ->
  exists y cy : f32 A,
    heightMapAltitude s (cam_x (_cam s)) (cam_z (_cam s)) = Some y /\
    last_look_at (map Call (calls s')) =
      Some ((cam_x (_cam s),
             demote A (add64 A (promote A y) (f64_of_int A 2)),
             cam_z (_cam s)),
            (demote A (sub64 A (promote A (cam_x (_cam s)))
                         (sin64 A (promote A (cam_theta (_cam s))))),
             cy,
             demote A (sub64 A (promote A (cam_z (_cam s)))
                         (cos64 A (promote A (cam_theta (_cam s)))))),
            (demote A (f64_of_int A 0), demote A (f64_of_int A 1),
             demote A (f64_of_int A 0))).
Proof.
  unfold draw. rewrite emit_all_calls.
  change (heightMapAltitude _ _ _)
    with (heightMapAltitude s (cam_x (_cam s)) (cam_z (_cam s))).
  destruct (heightMapAltitude s (cam_x (_cam s)) (cam_z (_cam s))) as [y|];
    [|discriminate].
  intros [= <-]. exists y. eexists. split; [reflexivity|].
  cbn [emit_all emit calls set_calls fold_left _cam]. 
  rewrite !map_app, !last_look_at_app. reflexivity.
Qed.

(** X15.  Over the reals, a step forward goes where the camera looks:
    with the forward key down the camera moves by 5 dt times the
    horizontal view direction of the next frame, with the backward key
    by as much the other way; that direction has length 1, and the eye
    is 2 above the terrain. *)
Theorem walk_follows_the_view
    (MMAT4XVEC4 : list (f32 exact) -> list (f32 exact) -> list (f32 exact))
    (ym : Z) (mat : list (f32 exact)) (s s' : state exact) (t : f64 exact) :
  key s KUP <> key s KDOWN ->
  draw (A := exact) MMAT4XVEC4 ym mat (idle (A := exact) t s) = Some s' ->
  exists (y ex ey ez cx cy cz : R) (up : R * R * R),
    heightMapAltitude (idle (A := exact) t s) ex ez = Some y /\
    last_look_at (map Call (calls s')) = Some ((ex, ey, ez), (cx, cy, cz), up) /\
    (ex, ez) = (cam_x (_cam (idle (A := exact) t s)), cam_z (_cam (idle (A := exact) t s))) /\
    ey = (y + 2)%R /\
    ((cx - ex) * (cx - ex) + (cz - ez) * (cz - ez) = 1)%R /\
    let step := ((if key s KUP then 5 else -5) * ((t - t0 s) / 1000))%R in
    (ex - cam_x (_cam s) = step * (cx - ex))%R /\
    (ez - cam_z (_cam s) = step * (cz - ez))%R.
Proof.
  intros Hkeys Hdraw.
  destruct (draw_look_at exact MMAT4XVEC4 ym mat _ s' Hdraw) as (y & cy & Hy & Hlook).
  set (s1 := idle (A := exact) t s) in *.
  exists y, (cam_x (_cam s1)), (y + 2)%R, (cam_z (_cam s1)),
    (cam_x (_cam s1) - sin (cam_theta (_cam s1)))%R, cy,
    (cam_z (_cam s1) - cos (cam_theta (_cam s1)))%R, (0%R, 1%R, 0%R).
  split; [exact Hy|]. split; [exact Hlook|]. split; [reflexivity|].
  split; [reflexivity|]. split.
  - pose proof (sin2_cos2 (cam_theta (_cam s1))) as H. unfold Rsqr in H.
    exact_arith. lra.
  - cbv zeta. unfold s1, idle, get_dt.
    destruct (exact_idle_dt_position (set_t0 (A := exact) t s) ((t - t0 s) / 1000)%R)
      as [Hx Hz].
    cbv zeta in Hx, Hz.
    change (key (set_t0 (A := exact) t s)) with (key s) in Hx, Hz.
    change (_cam (set_t0 (A := exact) t s)) with (_cam s) in Hx, Hz.
    exact_arith. rewrite Hx, Hz.
    destruct (key s KUP), (key s KDOWN); try (exfalso; apply Hkeys; reflexivity);
      split; lra.
Qed.

Lemma walk_follows_the_view_witness :
  exists s' : state exact,
    draw (A := exact) (fun _ _ => []) 300 []
      (idle (A := exact) 16%R (Sample.field5 exact (Sample.half exact) [0; 0; 1; 0]))
      = Some s' /\
    exists (y ex ey ez cx cy cz : R) (up : R * R * R),
      heightMapAltitude
        (idle (A := exact) 16%R (Sample.field5 exact (Sample.half exact) [0; 0; 1; 0]))
        ex ez = Some y /\
      last_look_at (map Call (calls s')) = Some ((ex, ey, ez), (cx, cy, cz), up) /\
      (ex, ez) =
        (cam_x (_cam (idle (A := exact) 16%R
                        (Sample.field5 exact (Sample.half exact) [0; 0; 1; 0]))),
         cam_z (_cam (idle (A := exact) 16%R
                        (Sample.field5 exact (Sample.half exact) [0; 0; 1; 0])))) /\
      ey = (y + 2)%R /\
      ((cx - ex) * (cx - ex) + (cz - ez) * (cz - ez) = 1)%R /\
      (ex - 0 = 5 * ((16 - 0) / 1000) * (cx - ex))%R /\
      (ez - 0 = 5 * ((16 - 0) / 1000) * (cz - ez))%R.
Proof.
  destruct (draw_defined exact (fun _ _ => []) 300 []
              (idle (A := exact) 16%R
                 (Sample.field5 exact (Sample.half exact) [0; 0; 1; 0]))
              (repeat (Sample.half exact) 25) exact_ok
              (ready_resources exact _ _ _ (idle_resources exact _ _)
                 (field5_ready exact (Sample.half exact) [0; 0; 1; 0])))
    as [s' Hdraw].
  exists s'. split; [exact Hdraw|].
  apply (walk_follows_the_view (fun _ _ => []) 300 []
           (Sample.field5 exact (Sample.half exact) [0; 0; 1; 0]) s' 16%R);
    [discriminate|exact Hdraw].
Defined.
